(** * go-zalo-bot: retry policy, request executor, webhook signatures, polling engine

    A shallow embedding of the resilient core of the Zalo Bot SDK:

    - [types]: [ZaloBotError], [RetryConfig], [ShouldRetry], [NextDelay],
      [ParseRateLimitHeaders]                     (package types)
    - [services]: [APIResponse], [executeRequest], [DoRequest],
      [calculateBackoffDelay]                     (services/base.go)
    - [utils]: [VerifyWebhookSignature], [ValidateWebhookSignature]
                                                   (utils/helpers.go)
    - [zalobot]: [GetUpdatesChan], [pollUpdates], [StopPolling]
                                                   (package zalobot)

    Go's [int] and [time.Duration] are 64-bit two's complement integers
    (carried by [Z], wrap-around written out), [float64] is IEEE 754
    binary64 (carried by the Standard Library's [spec_float]), a Go string
    is a sequence of bytes. *)

From Stdlib Require Import ZArith List Bool Ascii String Lia.
From Stdlib Require Import Floats.SpecFloat.
From stdpp Require Import base option gmap strings list pretty.

Set Default Proof Using "Type".
Open Scope Z_scope.

(** ** Machine integers *)

Module Int64.

Definition modulus : Z := 2 ^ 64.
Definition MaxInt : Z := 2 ^ 63 - 1.
Definition MinInt : Z := - 2 ^ 63.

(** Two's complement reduction of a mathematical integer to [int64]. *)
Definition wrap (z : Z) : Z := (z + 2 ^ 63) mod modulus - 2 ^ 63.

Definition in_range (z : Z) : Prop := MinInt <= z <= MaxInt.

Definition add (a b : Z) : Z := wrap (a + b).
Definition mul (a b : Z) : Z := wrap (a * b).

End Int64.

(** ** IEEE 754 binary64, as Go's [float64] *)

Module Float64.

Definition prec : Z := 53.
Definition emax : Z := 1024.

Abbreviation float64 := spec_float.

(** [float64(n)] for an integer [n]: round to nearest, ties to even. *)
Definition of_int (n : Z) : float64 := binary_normalize prec emax n 0 false.

Definition mul (x y : float64) : float64 := SFmul prec emax x y.
Definition add (x y : float64) : float64 := SFadd prec emax x y.
Definition ltb (x y : float64) : bool := SFltb x y.
Definition eqb (x y : float64) : bool := SFeqb x y.

Definition one : float64 := of_int 1.
Definition half : float64 := binary_normalize prec emax 1 (-1) false.

Definition is_nan (x : float64) : bool :=
  match x with S754_nan => true | _ => false end.

(** The integer part of a finite float, rounded toward zero. *)
Definition trunc (x : float64) : option Z :=
  match x with
  | S754_zero _ => Some 0
  | S754_finite s m e =>
      let a := if 0 <=? e then Z.pos m * 2 ^ e else Z.pos m / 2 ^ (- e) in
      Some (if s then - a else a)
  | _ => None
  end.

(** [int64(x)]: truncation toward zero.  The Go specification leaves the
    result open when the value does not fit; amd64 (CVTTSD2SQ) yields the
    "integer indefinite" value [-2^63] for NaN, infinities and values out
    of range, which is what is modelled here. *)
Definition to_int64 (x : float64) : Z :=
  match trunc x with
  | Some z => if (Int64.MinInt <=? z) && (z <=? Int64.MaxInt) then z
              else Int64.MinInt
  | None => Int64.MinInt
  end.

(** [math.Frexp]: [x = frac * 2^exp] with [1/2 <= |frac| < 1]; zeros,
    infinities and NaN are returned with exponent 0. *)
Definition Frexp (x : float64) : float64 * Z :=
  match x with
  | S754_finite _ _ _ => SFfrexp prec emax x
  | _ => (x, 0)
  end.

(** [math.Ldexp]: [frac * 2^exp]. *)
Definition Ldexp (frac : float64) (e : Z) : float64 := SFldexp prec emax frac e.

(** The square-and-multiply loop of [math.Pow] for the integral part [i]
    of the exponent: [a1 * 2^ae] accumulates the answer, [x1 * 2^xe] the
    running square.  A Go [int64] has at most 63 significant bits, so 64
    rounds of fuel always reach [i = 0]. *)
Fixpoint pow_loop (fuel : nat) (i : Z) (x1 : float64) (xe : Z)
    (a1 : float64) (ae : Z) : float64 * Z :=
  match fuel with
  | O => (a1, ae)
  | S fuel' =>
      if i =? 0 then (a1, ae)
      else if (xe <? - 2 ^ 12) || (2 ^ 12 <? xe) then (a1, ae + xe)
      else
        let '(a1', ae') :=
          if Z.odd i then (mul a1 x1, ae + xe) else (a1, ae) in
        let x1' := mul x1 x1 in
        let xe' := Z.shiftl xe 1 in
        let '(x1'', xe'') :=
          if ltb x1' half then (add x1' x1', xe' - 1) else (x1', xe') in
        pow_loop fuel' (Z.shiftr i 1) x1'' xe'' a1' ae'
  end.

(** [math.Pow(x, float64(n))] for an integer [n >= 1], the only way
    [calculateBackoffDelay] calls it.  The case analysis follows the
    order of the special cases of [math.Pow]; the exponent is a positive
    integral float, so there is no fractional part to handle. *)
Definition Pow_int (x : float64) (n : Z) : float64 :=
  let y := of_int n in
  if eqb y (of_int 0) || eqb x one then one
  else if eqb y one then x
  else if is_nan x then S754_nan
  else
    match x with
    | S754_zero s =>
        if Z.odd (to_int64 y) && (to_int64 y <? 2 ^ 53) then x else S754_zero false
    | S754_infinity false => S754_infinity false
    | S754_infinity true =>
        (* Pow(1/x, -y) with 1/x = -0 and -y < 0 *)
        if Z.odd (to_int64 y) && (to_int64 y <? 2 ^ 53) then S754_infinity true
        else S754_infinity false
    | _ =>
        let yi := to_int64 y in
        if yi =? Int64.MinInt then
          (* yi >= 1<<63: a large even integer *)
          if eqb x (SFopp one) then one
          else if ltb (SFabs x) one then S754_zero false
          else S754_infinity false
        else
          let '(x1, xe) := Frexp x in
          let '(a1, ae) := pow_loop 64 yi x1 xe one 0 in
          Ldexp a1 ae
    end.

End Float64.


(** ** Package [types]: the error taxonomy and the retry policy *)

Module types.

Import Float64.

(** [type ErrorType string] *)
Definition ErrorType := string.

Definition ErrorTypeAPI : ErrorType := "api_error".
Definition ErrorTypeNetwork : ErrorType := "network_error".
Definition ErrorTypeAuth : ErrorType := "auth_error".
Definition ErrorTypeValidation : ErrorType := "validation_error".
Definition ErrorTypeRateLimit : ErrorType := "rate_limit_error".

Record ZaloBotError := {
  Code : Z;
  Message : string;
  Description : string;
  Type_ : ErrorType   (* the Go field [Type] *)
}.

(** A Go [error] value that is not nil: either a [*ZaloBotError] or an
    error of some other dynamic type (of which only the text is kept). *)
Inductive error :=
| ZaloErr (e : ZaloBotError)
| OtherErr (text : string).

Definition IsRetryable (e : ZaloBotError) : bool :=
  if String.eqb (Type_ e) ErrorTypeNetwork || String.eqb (Type_ e) ErrorTypeRateLimit
  then true
  else if String.eqb (Type_ e) ErrorTypeAPI
  then (500 <=? Code e) && (Code e <? 600)
  else false.

Definition time_Second : Z := 1000000000.

Record RetryConfig := {
  MaxRetries : Z;
  InitialDelay : Z;
  MaxDelay : Z;
  BackoffFactor : float64;
  RetryableErrors : list ErrorType
}.

Definition DefaultRetryConfig : RetryConfig := {|
  MaxRetries := 3;
  InitialDelay := 1 * time_Second;
  MaxDelay := 30 * time_Second;
  BackoffFactor := of_int 2;
  RetryableErrors := [ErrorTypeNetwork; ErrorTypeRateLimit]
|}.

Definition ShouldRetry (rc : RetryConfig) (err : error) : bool :=
  match err with
  | OtherErr _ => true
  | ZaloErr zaloBotErr =>
      if existsb (fun retryableType => String.eqb (Type_ zaloBotErr) retryableType)
                 (RetryableErrors rc)
      then true
      else IsRetryable zaloBotErr
  end.

(** [time.Duration(float64(delay) * rc.BackoffFactor)] *)
Definition scale (factor : float64) (delay : Z) : Z :=
  to_int64 (mul (of_int delay) factor).

(** The [for i := 0; i < attempt; i++] loop of [NextDelay], with [n] the
    number of iterations still to run. *)
Fixpoint NextDelay_loop (rc : RetryConfig) (n : nat) (delay : Z) : Z :=
  match n with
  | O => delay
  | S n' =>
      let delay' := scale (BackoffFactor rc) delay in
      if MaxDelay rc <? delay' then MaxDelay rc
      else NextDelay_loop rc n' delay'
  end.

Definition NextDelay (rc : RetryConfig) (attempt : Z) : Z :=
  if attempt <=? 0 then InitialDelay rc
  else NextDelay_loop rc (Z.to_nat attempt) (InitialDelay rc).

Definition NewAPIError (code : Z) (message description : string) : ZaloBotError :=
  {| Code := code; Message := message; Description := description;
     Type_ := ErrorTypeAPI |}.

Definition NewNetworkError (message : string) : ZaloBotError :=
  {| Code := 0; Message := message; Description := ""; Type_ := ErrorTypeNetwork |}.

Definition NewAuthError (message : string) : ZaloBotError :=
  {| Code := 401; Message := message; Description := ""; Type_ := ErrorTypeAuth |}.

Definition NewValidationError (message : string) : ZaloBotError :=
  {| Code := 400; Message := message; Description := "";
     Type_ := ErrorTypeValidation |}.

Definition NewRateLimitError (message : string) : ZaloBotError :=
  {| Code := 429; Message := message; Description := "";
     Type_ := ErrorTypeRateLimit |}.

(** *** Rate-limit headers (types/common.go) *)

(** The decimal digit a byte stands for, if any. *)
Definition digit_of (c : ascii) : option Z :=
  let n := Z.of_N (N_of_ascii c) in
  if (48 <=? n) && (n <=? 57) then Some (n - 48) else None.

Fixpoint parse_digits (acc : Z) (s : string) : option Z :=
  match s with
  | EmptyString => Some acc
  | String c rest =>
      match digit_of c with
      | Some d => parse_digits (acc * 10 + d) rest
      | None => None
      end
  end.

(** [strconv.Atoi] / [strconv.ParseInt(s, 10, 64)]: an optional sign and
    at least one decimal digit; a value outside [int64] is a range error. *)
Definition Atoi (s : string) : option Z :=
  let '(neg, body) :=
    match s with
    | String "-" rest => (true, rest)
    | String "+" rest => (false, rest)
    | _ => (false, s)
    end in
  match body with
  | EmptyString => None
  | _ =>
      match parse_digits 0 body with
      | Some n =>
          let v := if neg then - n else n in
          if (Int64.MinInt <=? v) && (v <=? Int64.MaxInt) then Some v else None
      | None => None
      end
  end.

Record RateLimitInfo := {
  Limit : Z;
  Remaining : Z;
  Reset : option Z;        (* [time.Unix(val, 0)]; [None] is the zero time *)
  RetryAfter : Z           (* a [time.Duration] *)
}.

(** The first value of a header, parsed as an integer. *)
Definition header_int (headers : gmap string (list string)) (key : string)
    : option Z :=
  match headers !! key with
  | Some (v :: _) => Atoi v
  | _ => None
  end.

Definition ParseRateLimitHeaders (headers : gmap string (list string))
    : RateLimitInfo :=
  {| Limit := default 0 (header_int headers "X-Ratelimit-Limit");
     Remaining := default 0 (header_int headers "X-Ratelimit-Remaining");
     Reset := header_int headers "X-Ratelimit-Reset";
     RetryAfter :=
       match header_int headers "Retry-After" with
       | Some val => Int64.mul val time_Second
       | None => 0
       end |}.

(** *** [time.Duration.String], used when a duration is formatted with %s *)

(** The decimal digits of a natural number, given enough fuel. *)
Fixpoint fmtInt_aux (fuel : nat) (v : Z) (acc : string) : string :=
  match fuel with
  | O => acc
  | S fuel' =>
      let acc' := String (ascii_of_N (Z.to_N (48 + v mod 10))) acc in
      if v <? 10 then acc' else fmtInt_aux fuel' (v / 10) acc'
  end.

Definition fmtInt (v : Z) : string := fmtInt_aux 20 v "".

(** Drop the trailing zero digits of a fraction. *)
Fixpoint strip_zeros (fuel : nat) (v : Z) (digits : nat) : Z * nat :=
  match fuel, digits with
  | S fuel', S digits' =>
      if v mod 10 =? 0 then strip_zeros fuel' (v / 10) digits' else (v, digits)
  | _, _ => (v, digits)
  end.

Fixpoint pad_digits (digits : nat) (v : Z) (acc : string) : string :=
  match digits with
  | O => acc
  | S digits' =>
      pad_digits digits' (v / 10) (String (ascii_of_N (Z.to_N (48 + v mod 10))) acc)
  end.

(** [fmtFrac]: the fraction of [v / 10^prec] without trailing zeros (with
    its decimal point, or nothing when the fraction is zero), and the
    integer part. *)
Definition fmtFrac (v : Z) (prec : nat) : string * Z :=
  let frac := v mod 10 ^ Z.of_nat prec in
  let '(f, digits) := strip_zeros prec frac prec in
  ((match digits with O => "" | _ => String "." (pad_digits digits f "") end)%string,
   v / 10 ^ Z.of_nat prec).

Definition DurationString (d : Z) : string :=
  let u := Z.abs d in
  let body :=
    if u <? time_Second then
      if u =? 0 then "0s"
      else if u <? 1000 then fmtInt u +:+ "ns"
      else if u <? 1000000 then
        let '(f, i) := fmtFrac u 3 in
        fmtInt i +:+ f +:+ String (ascii_of_N 194) (String (ascii_of_N 181) "s")
      else
        let '(f, i) := fmtFrac u 6 in fmtInt i +:+ f +:+ "ms"
    else
      let '(f, secs) := fmtFrac u 9 in
      let sec_part := fmtInt (secs mod 60) +:+ f +:+ "s" in
      let mins := secs / 60 in
      if 0 <? mins then
        let min_part := fmtInt (mins mod 60) +:+ "m" in
        let hours := mins / 60 in
        if 0 <? hours then fmtInt hours +:+ "h" +:+ min_part +:+ sec_part
        else min_part +:+ sec_part
      else sec_part in
  (if (d <? 0) && negb (u =? 0) then "-" +:+ body else body).

End types.

(** ** Package [services]: the retrying request executor (services/base.go) *)

Module services.

Import Float64 types.

Record APIRequest := {
  Method : string;
  APIMethod : string
}.

Record APIResponse := {
  OK : bool;
  Result : string;           (* [json.RawMessage] *)
  ErrorCode : Z;
  Description : string
}.

Definition IsError (r : APIResponse) : bool := negb (OK r).

Definition GetError (r : APIResponse) : option error :=
  if negb (IsError r) then None
  else if ErrorCode r =? 429 then
    Some (ZaloErr (NewRateLimitError (Description r)))
  else if (ErrorCode r =? 401) || (ErrorCode r =? 403) then
    Some (ZaloErr (NewAuthError (Description r)))
  else
    Some (ZaloErr (NewAPIError (ErrorCode r) (Description r) "API request failed")).

(** What [json.Unmarshal(bodyBytes, &apiResp)] makes of a body. *)
Inductive unmarshal_result :=
| Decoded (r : APIResponse)
| DecodeError (text : string).

Record HTTPResponse := {
  StatusCode : Z;
  Header : gmap string (list string);
  Body : string;
  Unmarshal : unmarshal_result
}.

(** What the outside world does with one HTTP exchange: each step of
    [executeRequest] that can fail, with the text of the Go error, or the
    response that came back. *)
Inductive Exchange :=
| MarshalError (text : string)
| NewRequestError (text : string)
| ClientDoError (text : string)
| ReadBodyError (text : string)
| Response (resp : HTTPResponse).

(** The pair of a response pointer and an error that Go returns; [None] is nil. *)
Definition result : Type := option APIResponse * option error.

Definition fail (e : ZaloBotError) : result := (None, Some (ZaloErr e)).

Definition executeRequest (apiReq : APIRequest) (x : Exchange) : result :=
  match x with
  | MarshalError text =>
      fail (NewValidationError ("failed to marshal request body: " +:+ text))
  | NewRequestError text =>
      fail (NewNetworkError ("failed to create request: " +:+ text))
  | ClientDoError text =>
      fail (NewNetworkError ("request failed: " +:+ text))
  | ReadBodyError text =>
      fail (NewNetworkError ("failed to read response body: " +:+ text))
  | Response resp =>
      let rateLimitInfo := ParseRateLimitHeaders (Header resp) in
      if StatusCode resp =? 429 then
        let errMsg :=
          if 0 <? RetryAfter rateLimitInfo
          then "rate limit exceeded, retry after "
               +:+ DurationString (RetryAfter rateLimitInfo)
          else "rate limit exceeded" in
        fail (NewRateLimitError errMsg)
      else if (StatusCode resp =? 401) || (StatusCode resp =? 403) then
        fail (NewAuthError ("authentication failed: HTTP " +:+ pretty (StatusCode resp)))
      else
        match Unmarshal resp with
        | DecodeError text =>
            if 500 <=? StatusCode resp
            then fail (NewAPIError (StatusCode resp) "server error" (Body resp))
            else fail (NewAPIError (StatusCode resp) "failed to parse response" text)
        | Decoded apiResp =>
            if negb (OK apiResp) then
              match GetError apiResp with
              | Some err => (None, Some err)
              | None =>
                  fail (NewAPIError (ErrorCode apiResp) (Description apiResp)
                          ("API method: " +:+ APIMethod apiReq))
              end
            else (Some apiResp, None)
        end
  end.

Definition calculateBackoffDelay (attempt : Z) (config : RetryConfig) : Z :=
  if attempt <=? 0 then InitialDelay config
  else
    let delay :=
      to_int64 (mul (of_int (InitialDelay config))
                    (Pow_int (BackoffFactor config) attempt)) in
    if MaxDelay config <? delay then MaxDelay config else delay.

(** The environment of one [DoRequest] call: what each attempt's HTTP
    exchange does, and, for the [select] before retry [attempt], whether
    [ctx.Done()] is the case taken (with the text of [ctx.Err()]) rather
    than the timer. *)
Record Env := {
  exchange : Z -> Exchange;
  ctx_done : Z -> option string
}.

(** What a call does, in order. *)
Inductive Event :=
| Slept (delay : Z)          (* [<-time.After(delay)] fired *)
| Cancelled (delay : Z)      (* [<-ctx.Done()] taken while waiting [delay] *)
| Attempted (attempt : Z).   (* [executeRequest] called *)

Section DoRequest.

Variable retryConfig : RetryConfig.
Variable env : Env.
Variable apiReq : APIRequest.

(** The retry loop, entered at the test [attempt <= MaxRetries].  Each
    round of fuel is one iteration; [None] means the fuel ran out. *)
Fixpoint DoRequest_loop (fuel : nat) (attempt : Z) (lastErr : option error)
    (trace : list Event) : option (result * list Event) :=
  if MaxRetries retryConfig <? attempt then Some ((None, lastErr), trace)
  else
    match fuel with
    | O => None
    | S fuel' =>
        let delay := calculateBackoffDelay attempt retryConfig in
        match (if 0 <? attempt then ctx_done env attempt else None) with
        | Some ctxErr =>
            Some (fail (NewNetworkError ("request cancelled: " +:+ ctxErr)),
                  trace ++ [Cancelled delay])
        | None =>
            let trace1 := if 0 <? attempt then trace ++ [Slept delay] else trace in
            let trace2 := trace1 ++ [Attempted attempt] in
            match executeRequest apiReq (exchange env attempt) with
            | (resp, None) => Some ((resp, None), trace2)
            | (_, Some err) =>
                if negb (ShouldRetry retryConfig err) then
                  Some ((None, Some err), trace2)
                else if MaxRetries retryConfig <=? attempt then
                  Some ((None, Some err), trace2)
                else DoRequest_loop fuel' (Int64.add attempt 1) (Some err) trace2
            end
        end
    end.

End DoRequest.

(** [s.config.RetryConfig], defaulted when nil. *)
Definition effective_config (cfg : option RetryConfig) : RetryConfig :=
  default DefaultRetryConfig cfg.

Definition DoRequest (cfg : option RetryConfig) (env : Env) (apiReq : APIRequest)
    : option (result * list Event) :=
  let retryConfig := effective_config cfg in
  DoRequest_loop retryConfig env apiReq
    (Z.to_nat (MaxRetries retryConfig + 1)) 0 None [].

End services.

(** ** SHA-256 and HMAC, as [crypto/sha256] and [crypto/hmac] compute them *)

Module sha256.

Local Open Scope N_scope.

(** 32-bit words and bytes are natural numbers below [2^32] and [2^8]. *)
Definition w32 (x : N) : N := x mod 2 ^ 32.
Definition add32 (x y : N) : N := w32 (x + y).
Definition rotr (n x : N) : N :=
  N.lor (N.shiftr x n) (w32 (N.shiftl x (32 - n))).

Definition Ch (x y z : N) : N := N.lxor (N.land x y) (N.land (w32 (N.lxor x (2 ^ 32 - 1))) z).
Definition Maj (x y z : N) : N :=
  N.lxor (N.lxor (N.land x y) (N.land x z)) (N.land y z).
Definition Sigma0 (x : N) : N := N.lxor (N.lxor (rotr 2 x) (rotr 13 x)) (rotr 22 x).
Definition Sigma1 (x : N) : N := N.lxor (N.lxor (rotr 6 x) (rotr 11 x)) (rotr 25 x).
Definition sigma0 (x : N) : N := N.lxor (N.lxor (rotr 7 x) (rotr 18 x)) (N.shiftr x 3).
Definition sigma1 (x : N) : N := N.lxor (N.lxor (rotr 17 x) (rotr 19 x)) (N.shiftr x 10).

Definition K : list N :=
  [0x428a2f98; 0x71374491; 0xb5c0fbcf; 0xe9b5dba5]
  ++ [0x3956c25b; 0x59f111f1; 0x923f82a4; 0xab1c5ed5]
  ++ [0xd807aa98; 0x12835b01; 0x243185be; 0x550c7dc3]
  ++ [0x72be5d74; 0x80deb1fe; 0x9bdc06a7; 0xc19bf174]
  ++ [0xe49b69c1; 0xefbe4786; 0x0fc19dc6; 0x240ca1cc]
  ++ [0x2de92c6f; 0x4a7484aa; 0x5cb0a9dc; 0x76f988da]
  ++ [0x983e5152; 0xa831c66d; 0xb00327c8; 0xbf597fc7]
  ++ [0xc6e00bf3; 0xd5a79147; 0x06ca6351; 0x14292967]
  ++ [0x27b70a85; 0x2e1b2138; 0x4d2c6dfc; 0x53380d13]
  ++ [0x650a7354; 0x766a0abb; 0x81c2c92e; 0x92722c85]
  ++ [0xa2bfe8a1; 0xa81a664b; 0xc24b8b70; 0xc76c51a3]
  ++ [0xd192e819; 0xd6990624; 0xf40e3585; 0x106aa070]
  ++ [0x19a4c116; 0x1e376c08; 0x2748774c; 0x34b0bcb5]
  ++ [0x391c0cb3; 0x4ed8aa4a; 0x5b9cca4f; 0x682e6ff3]
  ++ [0x748f82ee; 0x78a5636f; 0x84c87814; 0x8cc70208]
  ++ [0x90befffa; 0xa4506ceb; 0xbef9a3f7; 0xc67178f2].

Definition init : list N :=
  [0x6a09e667; 0xbb67ae85; 0x3c6ef372; 0xa54ff53a]
  ++ [0x510e527f; 0x9b05688c; 0x1f83d9ab; 0x5be0cd19].

Definition BlockSize : nat := 64.

(** Big-endian bytes of a number, [n] of them. *)
Fixpoint be_bytes (n : nat) (x : N) : list N :=
  match n with
  | O => []
  | S n' => (N.shiftr x (8 * N.of_nat n')) mod 256 :: be_bytes n' x
  end.

Fixpoint be_word (bs : list N) (acc : N) : N :=
  match bs with
  | [] => acc
  | b :: bs' => be_word bs' (acc * 256 + b)
  end.

(** The message followed by 0x80, zeros up to 56 modulo 64, and the bit
    length in 8 bytes. *)
Definition pad (msg : list N) : list N :=
  let len := length msg in
  let zeros := ((BlockSize + 55 - len mod BlockSize) mod BlockSize)%nat in
  msg ++ [128] ++ repeat 0 zeros ++ be_bytes 8 (8 * N.of_nat len).

(** Cut a list in consecutive chunks of [n] elements. *)
Fixpoint chunks (fuel : nat) (n : nat) (l : list N) : list (list N) :=
  match fuel, l with
  | S fuel', _ :: _ => take n l :: chunks fuel' n (drop n l)
  | _, _ => []
  end.

Definition nth_w (l : list N) (i : nat) : N := nth i l 0.

(** One round: the working variables [a..h], the window of the last 16
    schedule words (its head is [W_t]) and the round constant. *)
Definition round (st : list N * list N) (k : N) : list N * list N :=
  let '(v, w) := st in
  let wt := nth_w w 0 in
  let a := nth_w v 0 in let b := nth_w v 1 in
  let c := nth_w v 2 in let d := nth_w v 3 in
  let e := nth_w v 4 in let f := nth_w v 5 in
  let g := nth_w v 6 in let h := nth_w v 7 in
  let t1 := add32 (add32 (add32 (add32 h (Sigma1 e)) (Ch e f g)) k) wt in
  let t2 := add32 (Sigma0 a) (Maj a b c) in
  let next :=
    add32 (add32 (add32 (sigma1 (nth_w w 14)) (nth_w w 9)) (sigma0 (nth_w w 1)))
          (nth_w w 0) in
  ([add32 t1 t2; a; b; c; add32 d t1; e; f; g], drop 1 w ++ [next]).

(** The compression of one 64-byte block into the hash value. *)
Definition block (hash : list N) (blk : list N) : list N :=
  let w := map (fun bs => be_word bs 0) (chunks 16 4 blk) in
  let '(v, _) := fold_left round K (hash, w) in
  map (fun p => add32 (fst p) (snd p)) (combine hash v).

Definition Sum256 (msg : list N) : list N :=
  let padded := pad msg in
  let hash := fold_left block (chunks (length padded) BlockSize padded) init in
  concat (map (be_bytes 4) hash).

End sha256.

Module hmac.

Local Open Scope N_scope.

(** [hmac.New(sha256.New, key)]: a key longer than a block is hashed
    first, then padded with zeros to the block size. *)
Definition block_key (key : list N) : list N :=
  let k := if (sha256.BlockSize <? length key)%nat then sha256.Sum256 key else key in
  k ++ repeat 0 (sha256.BlockSize - length k)%nat.

Definition Sum (key msg : list N) : list N :=
  let k := block_key key in
  let ipad := map (N.lxor 0x36) k in
  let opad := map (N.lxor 0x5c) k in
  sha256.Sum256 (opad ++ sha256.Sum256 (ipad ++ msg)).

(** [hmac.Equal]: equal lengths and equal contents (in constant time,
    which a functional model does not see). *)
Definition Equal (a b : list N) : bool := bool_decide (a = b).

End hmac.

Module hex.

Definition hextable : string := "0123456789abcdef".

Definition digit (n : N) : ascii :=
  match String.get (N.to_nat n) hextable with
  | Some c => c
  | None => "0"%char
  end.

(** [hex.EncodeToString]: two lowercase digits per byte. *)
Fixpoint EncodeToString (src : list N) : string :=
  match src with
  | [] => ""
  | b :: rest =>
      String (digit (N.shiftr b 4)) (String (digit (N.land b 15)) (EncodeToString rest))
  end.

End hex.

(** The bytes of a Go string and of a byte slice. *)
Definition bytes_of_string (s : string) : list N :=
  map N_of_ascii (list_ascii_of_string s).

Definition bytes_of_slice (b : list Byte.byte) : list N := map Byte.to_N b.

(** ** Package [utils]: webhook signature verification (utils/helpers.go) *)

Module utils.

Local Open Scope N_scope.

(** [utf8.RuneError] *)
Definition RuneError : N := 0xFFFD.

Definition between (lo hi b : N) : bool := (lo <=? b) && (b <=? hi).

(** [utf8.DecodeRuneInString]: the first rune of a byte sequence and the
    number of bytes it takes; an invalid or truncated encoding is
    [RuneError] of width 1, the empty sequence [RuneError] of width 0. *)
Definition DecodeRune (bs : list N) : N * nat :=
  match bs with
  | [] => (RuneError, 0%nat)
  | b0 :: rest =>
      if b0 <? 0x80 then (b0, 1%nat)
      else if between 0xC2 0xDF b0 then
        match rest with
        | b1 :: _ =>
            if between 0x80 0xBF b1
            then (N.lor (N.shiftl (N.land b0 0x1F) 6) (N.land b1 0x3F), 2%nat)
            else (RuneError, 1%nat)
        | _ => (RuneError, 1%nat)
        end
      else if between 0xE0 0xEF b0 then
        let lo := if b0 =? 0xE0 then 0xA0 else 0x80 in
        let hi := if b0 =? 0xED then 0x9F else 0xBF in
        match rest with
        | b1 :: b2 :: _ =>
            if between lo hi b1 && between 0x80 0xBF b2
            then (N.lor (N.shiftl (N.land b0 0x0F) 12)
                    (N.lor (N.shiftl (N.land b1 0x3F) 6) (N.land b2 0x3F)), 3%nat)
            else (RuneError, 1%nat)
        | _ => (RuneError, 1%nat)
        end
      else if between 0xF0 0xF4 b0 then
        let lo := if b0 =? 0xF0 then 0x90 else 0x80 in
        let hi := if b0 =? 0xF4 then 0x8F else 0xBF in
        match rest with
        | b1 :: b2 :: b3 :: _ =>
            if between lo hi b1 && between 0x80 0xBF b2 && between 0x80 0xBF b3
            then (N.lor (N.shiftl (N.land b0 0x07) 18)
                    (N.lor (N.shiftl (N.land b1 0x3F) 12)
                       (N.lor (N.shiftl (N.land b2 0x3F) 6) (N.land b3 0x3F))), 4%nat)
            else (RuneError, 1%nat)
        | _ => (RuneError, 1%nat)
        end
      else (RuneError, 1%nat)
  end.

(** [unicode.IsSpace]: the Latin-1 spaces, then the White_Space property. *)
Definition IsSpace (r : N) : bool :=
  if r <=? 0xFF then
    between 0x09 0x0D r || (r =? 0x20) || (r =? 0x85) || (r =? 0xA0)
  else
    (r =? 0x1680) || between 0x2000 0x200A r || between 0x2028 0x2029 r
    || (r =? 0x202F) || (r =? 0x205F) || (r =? 0x3000).

(** Whether the forward scan of [strings.TrimSpace] consumes every rune. *)
Fixpoint all_space (fuel : nat) (bs : list N) : bool :=
  match bs, fuel with
  | [], _ => true
  | _, O => false
  | _, S fuel' =>
      let '(r, size) := DecodeRune bs in
      IsSpace r && all_space fuel' (drop size bs)
  end.

(** The test [strings.TrimSpace(s) == ""]: [TrimSpace] returns the empty
    string exactly when [s] is made of white space only. *)
Definition TrimSpace_empty (s : string) : bool :=
  let bs := bytes_of_string s in all_space (length bs) bs.

(** The package's sentinel errors, each made by its own [errors.New]. *)
Inductive sentinel :=
| ErrInvalidSignature
| ErrEmptySignature
| ErrEmptySecret
| ErrEmptyPayload.

Definition sentinel_text (e : sentinel) : string :=
  match e with
  | ErrInvalidSignature => "invalid webhook signature"
  | ErrEmptySignature => "empty webhook signature"
  | ErrEmptySecret => "empty secret token"
  | ErrEmptyPayload => "empty webhook payload"
  end.

(** The hex digest the signature is compared with. *)
Definition expected (payload : list Byte.byte) (secret : string) : string :=
  hex.EncodeToString (hmac.Sum (bytes_of_string secret) (bytes_of_slice payload)).

Definition VerifyWebhookSignature (payload : list Byte.byte)
    (signature secret : string) : bool :=
  if (length payload =? 0)%nat || TrimSpace_empty signature || TrimSpace_empty secret
  then false
  else hmac.Equal (bytes_of_string signature)
                  (bytes_of_string (expected payload secret)).

(** [None] is the nil error. *)
Definition ValidateWebhookSignature (payload : list Byte.byte)
    (signature secret : string) : option sentinel :=
  if (length payload =? 0)%nat then Some ErrEmptyPayload
  else if TrimSpace_empty signature then Some ErrEmptySignature
  else if TrimSpace_empty secret then Some ErrEmptySecret
  else if negb (VerifyWebhookSignature payload signature secret)
  then Some ErrInvalidSignature
  else None.

End utils.

(** ** Package [zalobot]: the polling engine *)

Module zalobot.

(** [types.Update]; the three payload pointers are kept as raw JSON. *)
Record Update := {
  UpdateID : Z;
  Message : option string;
  PostbackEvent : option string;
  UserAction : option string
}.

Record UpdateConfig := {
  Offset : Z;
  Limit : Z;
  Timeout : Z
}.

(** [UpdateConfig.Validate] (pointer receiver): repairs the receiver in
    place and always returns nil. *)
Definition Validate (uc : UpdateConfig) : UpdateConfig * option types.error :=
  let limit1 := if Limit uc <=? 0 then 100 else Limit uc in
  let limit2 := if 100 <? limit1 then 100 else limit1 in
  let timeout := if Timeout uc <? 0 then 0 else Timeout uc in
  ({| Offset := Offset uc; Limit := limit2; Timeout := timeout |}, None).

(** A [chan types.Update] object: its buffer, capacity and closed flag. *)
Record updates_chan := {
  buf : list Update;
  cap : nat;
  closed : bool
}.

(** A channel is a reference: two channel values are the same channel
    exactly when they are the same address. *)
Definition chan := positive.

(** The polling fields of [BotAPI], the state of [b.ctx], and the channel
    objects those fields point to. *)
Record BotAPI := {
  ctx_cancelled : bool;                     (* [b.ctx] is done *)
  isPolling : bool;
  stopPollingCh : option chan;              (* [None] is the nil channel *)
  updatesChan : option chan;
  pollingWg : Z;                            (* the WaitGroup counter *)
  update_chans : gmap positive updates_chan;
  stop_chans : gmap positive bool;          (* closed? *)
  next_chan : positive                      (* the next fresh address *)
}.

(** The engine [New] returns. *)
Definition New : BotAPI := {|
  ctx_cancelled := false;
  isPolling := false;
  stopPollingCh := None;
  updatesChan := None;
  pollingWg := 0;
  update_chans := ∅;
  stop_chans := ∅;
  next_chan := 1%positive
|}.

(** Where the goroutine running [pollUpdates] stands. *)
Inductive pc :=
| AtSelect                                   (* the [select] at the top of [for] *)
| Fetching                                   (* inside [GetUpdatesWithContext] *)
| ErrWait                                    (* the [select] after a failed fetch *)
| Sending (rest : list Update) (n : nat)     (* publishing the head of [rest];
                                                [n] is [len(updates)] *)
| IdleWait                                   (* the [select] after an empty batch *)
| Returning                                  (* torn down; deferred calls pending *)
| Exited.

(** The locals of [pollUpdates]. *)
Record Loop := {
  config : UpdateConfig;
  offset : Z;
  pollInterval : Z;
  cancelled : bool;                          (* [pollCtx] is done *)
  at_ : pc
}.

Definition set_pc (l : Loop) (p : pc) : Loop :=
  {| config := config l; offset := offset l; pollInterval := pollInterval l;
     cancelled := cancelled l; at_ := p |}.

Definition set_offset (l : Loop) (o : Z) : Loop :=
  {| config := config l; offset := o; pollInterval := pollInterval l;
     cancelled := cancelled l; at_ := at_ l |}.

Definition set_cancelled (l : Loop) : Loop :=
  {| config := config l; offset := offset l; pollInterval := pollInterval l;
     cancelled := true; at_ := at_ l |}.

(** The locals as [pollUpdates] initialises them.  [pollCtx] is made by
    [context.WithCancel(b.ctx)]: it is done from the start when [b.ctx]
    is. *)
Definition pollUpdates_init (b : BotAPI) (config : UpdateConfig) : Loop :=
  {| config := config;
     offset := Offset config;
     pollInterval :=
       if 0 <? Timeout config then Int64.mul (Timeout config) types.time_Second
       else 1 * types.time_Second;
     cancelled := ctx_cancelled b;
     at_ := AtSelect |}.

Definition make_updates_chan (b : BotAPI) (capacity : nat) : chan * BotAPI :=
  (next_chan b,
   {| ctx_cancelled := ctx_cancelled b; isPolling := isPolling b;
      stopPollingCh := stopPollingCh b; updatesChan := updatesChan b;
      pollingWg := pollingWg b;
      update_chans :=
        <[next_chan b := {| buf := []; cap := capacity; closed := false |}]>
          (update_chans b);
      stop_chans := stop_chans b;
      next_chan := Pos.succ (next_chan b) |}).

Definition make_stop_chan (b : BotAPI) : chan * BotAPI :=
  (next_chan b,
   {| ctx_cancelled := ctx_cancelled b; isPolling := isPolling b;
      stopPollingCh := stopPollingCh b; updatesChan := updatesChan b;
      pollingWg := pollingWg b;
      update_chans := update_chans b;
      stop_chans := <[next_chan b := false]> (stop_chans b);
      next_chan := Pos.succ (next_chan b) |}).

Definition close_updates_chan (c : chan) (b : BotAPI) : BotAPI :=
  {| ctx_cancelled := ctx_cancelled b; isPolling := isPolling b;
     stopPollingCh := stopPollingCh b; updatesChan := updatesChan b;
     pollingWg := pollingWg b;
     update_chans :=
       alter (fun st => {| buf := buf st; cap := cap st; closed := true |}) c
             (update_chans b);
     stop_chans := stop_chans b;
     next_chan := next_chan b |}.

(** [GetUpdatesChan]: the channel returned, the engine afterwards, and the
    goroutine started by [go b.pollUpdates(config)], if any.  The whole
    body after the validation runs under [pollingMu]. *)
Definition GetUpdatesChan (config : UpdateConfig) (b : BotAPI)
    : chan * BotAPI * option Loop :=
  match Validate config with
  | (_, Some _) =>
      let '(ch, b1) := make_updates_chan b 0 in
      (ch, close_updates_chan ch b1, None)
  | (config, None) =>
      match isPolling b, updatesChan b with
      | true, Some ch => (ch, b, None)
      | _, _ =>
          let b1 :=
            match updatesChan b with
            | None =>
                let '(ch, b') := make_updates_chan b 100 in
                {| ctx_cancelled := ctx_cancelled b'; isPolling := isPolling b';
                   stopPollingCh := stopPollingCh b'; updatesChan := Some ch;
                   pollingWg := pollingWg b'; update_chans := update_chans b';
                   stop_chans := stop_chans b'; next_chan := next_chan b' |}
            | Some _ => b
            end in
          let b2 :=
            match stopPollingCh b1 with
            | None =>
                let '(ch, b') := make_stop_chan b1 in
                {| ctx_cancelled := ctx_cancelled b'; isPolling := isPolling b';
                   stopPollingCh := Some ch; updatesChan := updatesChan b';
                   pollingWg := pollingWg b'; update_chans := update_chans b';
                   stop_chans := stop_chans b'; next_chan := next_chan b' |}
            | Some _ => b1
            end in
          let b3 :=
            {| ctx_cancelled := ctx_cancelled b2; isPolling := true;
               stopPollingCh := stopPollingCh b2; updatesChan := updatesChan b2;
               pollingWg := Int64.add (pollingWg b2) 1;
               update_chans := update_chans b2;
               stop_chans := stop_chans b2; next_chan := next_chan b2 |} in
          (default 1%positive (updatesChan b3), b3, Some (pollUpdates_init b3 config))
      end
  end.

(** The critical section every exit of [pollUpdates] runs: close and
    forget the output channel, clear the running flag. *)
Definition teardown (b : BotAPI) : BotAPI :=
  let b1 := match updatesChan b with
            | Some c => close_updates_chan c b
            | None => b
            end in
  {| ctx_cancelled := ctx_cancelled b1; isPolling := false;
     stopPollingCh := stopPollingCh b1; updatesChan := None;
     pollingWg := pollingWg b1; update_chans := update_chans b1;
     stop_chans := stop_chans b1; next_chan := next_chan b1 |}.

(** What moves the goroutine one step: the outcome of a blocking operation
    or a choice made by a [select]. *)
Inductive Event :=
| EvCancel                       (* [pollCtx] is cancelled (monitor goroutine
                                    or parent context) *)
| EvDone                         (* a [select] takes [<-pollCtx.Done()] *)
| EvDefault                      (* the top [select] takes [default] *)
| EvFetched (r : list Update + types.error)
                                 (* [GetUpdatesWithContext] returns *)
| EvTimer                        (* [<-time.After(pollInterval)] fires *)
| EvSent                         (* [b.updatesChan <- update] goes through *)
| EvReceive                      (* the consumer takes an update *)
| EvReturn.                      (* the deferred [pollingWg.Done()] runs *)

(** The offset after [update] has been published. *)
Definition advance (offset : Z) (update : Update) : Z :=
  if offset <=? UpdateID update then Int64.add (UpdateID update) 1 else offset.

(** Where the loop goes once the [for range updates] is over. *)
Definition after_batch (l : Loop) (n : nat) : pc :=
  if (n =? 0)%nat && (Timeout (config l) =? 0) then IdleWait else AtSelect.

Definition exit_ (b : BotAPI) (l : Loop) : option (BotAPI * Loop) :=
  if cancelled l then Some (teardown b, set_pc l Returning) else None.

(** The send [b.updatesChan <- update]: possible when the channel is not
    nil, not closed, and its buffer has room. *)
Definition send (update : Update) (b : BotAPI) : option BotAPI :=
  c ← updatesChan b;
  st ← update_chans b !! c;
  if negb (closed st) && (length (buf st) <? cap st)%nat then
    Some {| ctx_cancelled := ctx_cancelled b; isPolling := isPolling b;
            stopPollingCh := stopPollingCh b; updatesChan := updatesChan b;
            pollingWg := pollingWg b;
            update_chans :=
              <[c := {| buf := buf st ++ [update]; cap := cap st;
                        closed := closed st |}]> (update_chans b);
            stop_chans := stop_chans b; next_chan := next_chan b |}
  else None.

(** The consumer's receive on the channel the engine publishes to. *)
Definition receive (b : BotAPI) : option BotAPI :=
  c ← updatesChan b;
  st ← update_chans b !! c;
  match buf st with
  | [] => None
  | _ :: rest =>
      Some {| ctx_cancelled := ctx_cancelled b; isPolling := isPolling b;
              stopPollingCh := stopPollingCh b; updatesChan := updatesChan b;
              pollingWg := pollingWg b;
              update_chans :=
                <[c := {| buf := rest; cap := cap st; closed := closed st |}]>
                  (update_chans b);
              stop_chans := stop_chans b; next_chan := next_chan b |}
  end.

(** One step of [pollUpdates]; [None] when the event cannot happen in
    this state. *)
Definition step (ev : Event) (s : BotAPI * Loop) : option (BotAPI * Loop) :=
  let '(b, l) := s in
  match ev, at_ l with
  | EvCancel, _ => Some (b, set_cancelled l)
  | EvReceive, _ => b' ← receive b; Some (b', l)
  | EvDone, (AtSelect | ErrWait | Sending _ _ | IdleWait) => exit_ b l
  | EvDefault, AtSelect =>
      if cancelled l then None else Some (b, set_pc l Fetching)
  | EvFetched (inr _), Fetching =>
      if cancelled l then exit_ b l else Some (b, set_pc l ErrWait)
  | EvFetched (inl updates), Fetching =>
      Some (b, set_pc l match updates with
                        | [] => after_batch l 0
                        | _ => Sending updates (length updates)
                        end)
  | EvTimer, (ErrWait | IdleWait) => Some (b, set_pc l AtSelect)
  | EvSent, Sending (update :: rest) n =>
      b' ← send update b;
      Some (b', set_pc (set_offset l (advance (offset l) update))
                  match rest with
                  | [] => after_batch l n
                  | _ => Sending rest n
                  end)
  | EvReturn, Returning =>
      Some ({| ctx_cancelled := ctx_cancelled b; isPolling := isPolling b;
               stopPollingCh := stopPollingCh b; updatesChan := updatesChan b;
               pollingWg := Int64.add (pollingWg b) (-1);
               update_chans := update_chans b;
               stop_chans := stop_chans b; next_chan := next_chan b |},
            set_pc l Exited)
  | _, _ => None
  end.

(** A run of the goroutine along a list of events. *)
Fixpoint run (evs : list Event) (s : BotAPI * Loop) : option (BotAPI * Loop) :=
  match evs with
  | [] => Some s
  | ev :: evs' => s' ← step ev s; run evs' s'
  end.

(** The critical section of [StopPolling]. *)
Definition StopPolling_locked (b : BotAPI) : BotAPI :=
  match isPolling b, stopPollingCh b with
  | true, Some c =>
      {| ctx_cancelled := ctx_cancelled b; isPolling := isPolling b;
         stopPollingCh := None; updatesChan := updatesChan b;
         pollingWg := pollingWg b; update_chans := update_chans b;
         stop_chans := <[c := true]> (stop_chans b);
         next_chan := next_chan b |}
  | _, _ => b
  end.

(** How a call of [StopPolling] stands once its critical section is over:
    [pollingWg.Wait()] returns at once when the counter is zero, and
    otherwise blocks until the polling goroutines are done. *)
Inductive stop_outcome :=
| Returned (b : BotAPI)
| Waiting (b : BotAPI).

Definition StopPolling (b : BotAPI) : stop_outcome :=
  let b' := StopPolling_locked b in
  if pollingWg b' =? 0 then Returned b' else Waiting b'.

End zalobot.


(** ** Retry configurations used below *)

Section SampleConfigurations.

Import Float64 types.

(** A configuration that lists the auth kind as retryable. *)
Definition retry_auth : RetryConfig := {|
  MaxRetries := 3;
  InitialDelay := 1 * time_Second;
  MaxDelay := 30 * time_Second;
  BackoffFactor := of_int 2;
  RetryableErrors := [ErrorTypeAuth]
|}.

(** A configuration whose initial delay exceeds its cap. *)
Definition retry_inverted : RetryConfig := {|
  MaxRetries := 3;
  InitialDelay := 60 * time_Second;
  MaxDelay := 30 * time_Second;
  BackoffFactor := of_int 2;
  RetryableErrors := [ErrorTypeNetwork; ErrorTypeRateLimit]
|}.

(** Delays of a few nanoseconds, doubled at each step. *)
Definition retry_small : RetryConfig := {|
  MaxRetries := 3;
  InitialDelay := 1;
  MaxDelay := 30;
  BackoffFactor := of_int 2;
  RetryableErrors := [ErrorTypeNetwork; ErrorTypeRateLimit]
|}.

(** A factor of one and a half on a delay of one nanosecond. *)
Definition retry_fraction : RetryConfig := {|
  MaxRetries := 3;
  InitialDelay := 1;
  MaxDelay := 100;
  BackoffFactor := binary_normalize prec emax 3 (-1) false;
  RetryableErrors := [ErrorTypeNetwork; ErrorTypeRateLimit]
|}.

(** A configuration that allows no attempt at all. *)
Definition retry_negative : RetryConfig := {|
  MaxRetries := -1;
  InitialDelay := 1 * time_Second;
  MaxDelay := 30 * time_Second;
  BackoffFactor := of_int 2;
  RetryableErrors := [ErrorTypeNetwork; ErrorTypeRateLimit]
|}.

End SampleConfigurations.

(** ** Reading the trace of a call, and a scripted server *)

Section Traces.

Import types services.

(** The number of attempts a call made. *)
Definition attempts (trace : list Event) : nat :=
  length (List.filter (fun ev => match ev with Attempted _ => true | _ => false end)
                      trace).

(** The time slept before attempt [k] is made. *)
Fixpoint slept_before (k : Z) (trace : list Event) : Z :=
  match trace with
  | [] => 0
  | Slept d :: rest => d + slept_before k rest
  | Attempted n :: rest => if n =? k then 0 else slept_before k rest
  | Cancelled _ :: rest => slept_before k rest
  end.

Definition ok_envelope : APIResponse :=
  {| OK := true; Result := "{}"; ErrorCode := 0; Description := "" |}.

(** A server that answers 429 with the given [Retry-After] once, then
    200 with a success envelope. *)
Definition env_429_200 (retry_after : string) : Env := {|
  exchange := fun attempt =>
    if attempt =? 0 then
      Response {| StatusCode := 429;
                  Header := {[ "Retry-After"%string := [retry_after] ]};
                  Body := "";
                  Unmarshal := DecodeError "unexpected end of JSON input" |}
    else
      Response {| StatusCode := 200;
                  Header := ∅;
                  Body := "{}";
                  Unmarshal := Decoded ok_envelope |};
  ctx_done := fun _ => None
|}.

Definition getMe : APIRequest := {| Method := "GET"; APIMethod := "getMe" |}.

End Traces.

(** ** Notions used to state the signature properties *)

Section SignatureNotions.

Import utils.

Local Open Scope N_scope.

(** The byte of a lowercase hexadecimal digit. *)
Definition is_hex (b : N) : bool := between 48 57 b || between 97 102 b.

(** [b] is [a] with exactly one character replaced by another one. *)
Definition one_char_change (a b : string) : Prop :=
  exists pre c c' suf,
    c <> c' /\ a = pre +:+ String c suf /\ b = pre +:+ String c' suf.

End SignatureNotions.

(** ** Notions used to state the polling properties, and sample engines *)

Section PollingNotions.

Import zalobot.

(** An update id whose successor is still a Go int. *)
Definition valid_id (u : Update) : Prop :=
  Int64.MinInt <= UpdateID u < Int64.MaxInt.

(** The updates of the current batch still to be published. *)
Definition pending (l : Loop) : list Update :=
  match at_ l with
  | Sending rest _ => rest
  | _ => []
  end.

(** The updates an event hands to the loop. *)
Definition fetched (ev : Event) : list Update :=
  match ev with
  | EvFetched (inl updates) => updates
  | _ => []
  end.

(** An update with the given id and no payload. *)
Definition update (id : Z) : Update :=
  {| UpdateID := id; Message := None; PostbackEvent := None; UserAction := None |}.

Definition poll_config : UpdateConfig := {| Offset := 0; Limit := 10; Timeout := 0 |}.

(** The engine and the goroutine right after the first [GetUpdatesChan]. *)
Definition started : BotAPI * Loop :=
  let '(_, b, l) := GetUpdatesChan poll_config New in
  (b, default (pollUpdates_init New poll_config) l).

(** The goroutine about to publish the batch 3, 5, 5, 7. *)
Definition batch : list Update := [update 3; update 5; update 5; update 7].

Definition publishing : BotAPI * Loop :=
  (fst started, set_pc (snd started) (Sending batch 4)).

(** Several start calls in a row (the mutex serialises concurrent
    callers): the channels returned, the engine afterwards, and the
    goroutines started. *)
Fixpoint calls (configs : list UpdateConfig) (b : BotAPI)
    : list chan * BotAPI * list Loop :=
  match configs with
  | [] => ([], b, [])
  | config :: rest =>
      let '(ch, b1, l) := GetUpdatesChan config b in
      let '(chs, b2, ls) := calls rest b1 in
      (ch :: chs, b2, option_list l ++ ls)
  end.

(** The engine after a whole cycle: started, stopped, goroutine gone. *)
Definition stopped : BotAPI :=
  match run [EvDefault; EvCancel; EvFetched (inr (types.OtherErr "context canceled"));
             EvReturn]
            (StopPolling_locked (fst started), snd started) with
  | Some (b, _) => b
  | None => New
  end.

(** The places where [pollUpdates] waits with [pollCtx.Done()] as one of
    the cases of its [select]. *)
Definition suspended (l : Loop) : Prop :=
  match at_ l with
  | AtSelect | ErrWait | Sending _ _ | IdleWait => True
  | _ => False
  end.

End PollingNotions.

(** ** The order of the events of a call *)

Section Schedules.

Import types services.

(** What a call has done once attempt [k] is made with no sleep cut
    short: attempt 0, then for each retry the backoff sleep and the
    attempt. *)
Fixpoint schedule (rc : RetryConfig) (k : nat) : list Event :=
  match k with
  | O => [Attempted 0]
  | S k' =>
      schedule rc k'
      ++ [Slept (calculateBackoffDelay (Z.of_nat k) rc); Attempted (Z.of_nat k)]
  end.

(** The delays slept in a trace. *)
Definition sleeps (trace : list Event) : list Z :=
  omap (fun ev => match ev with Slept d => Some d | _ => None end) trace.

End Schedules.

Section Outcomes.

Import types services.

Variable rc : RetryConfig.
Variable env : Env.
Variable apiReq : APIRequest.

(** The trace on entering the loop for attempt [a]. *)
Definition before (a : nat) : list Event :=
  match a with
  | O => []
  | S a' => schedule rc a'
  end.

(** Every attempt before [k] failed with an error that is retried. *)
Definition retried_upto (k : nat) : Prop :=
  forall j, (j < k)%nat ->
    exists e, executeRequest apiReq (exchange env (Z.of_nat j)) = (None, Some e) /\
              ShouldRetry rc e = true.

(** The call ended with attempt [k]: its result is the result of that
    attempt, and if that is an error, it is not retried or the retries
    are used up. *)
Definition ended_at (k : nat) (res : result) (trace : list Event) : Prop :=
  trace = schedule rc k /\
  res = executeRequest apiReq (exchange env (Z.of_nat k)) /\
  (forall e, res = (None, Some e) ->
     ShouldRetry rc e = false \/ Z.of_nat k = MaxRetries rc).

(** The call was cancelled in the sleep that follows attempt [k]. *)
Definition cut_after (k : nat) (res : result) (trace : list Event) : Prop :=
  Z.of_nat (S k) <= MaxRetries rc /\
  exists ctxErr,
    ctx_done env (Z.of_nat (S k)) = Some ctxErr /\
    trace = schedule rc k ++ [Cancelled (calculateBackoffDelay (Z.of_nat (S k)) rc)] /\
    res = fail (NewNetworkError ("request cancelled: " +:+ ctxErr)).

End Outcomes.

(** ** The engine together with its goroutines *)

Section Engine.

Import zalobot.

(** What can happen to an engine: a caller runs [GetUpdatesChan] or the
    critical section of [StopPolling] (both under [pollingMu]), a polling
    goroutine takes a step, or a consumer takes an update from a channel
    it was given earlier. *)
Inductive action :=
| CallGetUpdatesChan (config : UpdateConfig)
| CallStopPolling
| Go (i : nat) (ev : Event)
| Consume (c : chan).

(** The receive [<-c] of a consumer holding [c]. *)
Definition consume (c : chan) (b : BotAPI) : option BotAPI :=
  st ← update_chans b !! c;
  match buf st with
  | [] => None
  | _ :: rest =>
      Some {| ctx_cancelled := ctx_cancelled b; isPolling := isPolling b;
              stopPollingCh := stopPollingCh b; updatesChan := updatesChan b;
              pollingWg := pollingWg b;
              update_chans :=
                <[c := {| buf := rest; cap := cap st; closed := closed st |}]>
                  (update_chans b);
              stop_chans := stop_chans b; next_chan := next_chan b |}
  end.

(** The engine and every goroutine [go b.pollUpdates(config)] has started,
    oldest first. *)
Definition act (a : action) (s : BotAPI * list Loop) : option (BotAPI * list Loop) :=
  let '(b, ls) := s in
  match a with
  | CallGetUpdatesChan config =>
      let '(_, b', l) := GetUpdatesChan config b in
      Some (b', ls ++ option_list l)
  | CallStopPolling => Some (StopPolling_locked b, ls)
  | Go i ev =>
      l ← ls !! i;
      s' ← step ev (b, l);
      Some (fst s', <[i := snd s']> ls)
  | Consume c => b' ← consume c b; Some (b', ls)
  end.

Fixpoint acts (l : list action) (s : BotAPI * list Loop)
    : option (BotAPI * list Loop) :=
  match l with
  | [] => Some s
  | a :: l' => s' ← act a s; acts l' s'
  end.

(** A goroutine that has not yet run the critical section of its exit. *)
Definition live (l : Loop) : bool :=
  match at_ l with
  | Returning | Exited => false
  | _ => true
  end.

(** A goroutine whose deferred [pollingWg.Done()] has not run yet. *)
Definition running (l : Loop) : bool :=
  match at_ l with
  | Exited => false
  | _ => true
  end.

(** The channel fields of an engine are in order: the running flag is set
    exactly when there is an output channel, the output channel is open,
    of capacity 100 and not over-full, the stop channel is open, no
    channel lives at an address not handed out yet, and every output
    channel other than the current one is closed. *)
Definition channels_ok (b : BotAPI) : Prop :=
  (isPolling b = true <-> is_Some (updatesChan b)) /\
  (forall c, updatesChan b = Some c ->
     exists st, update_chans b !! c = Some st /\ closed st = false /\
                (length (buf st) <= cap st)%nat /\ cap st = 100%nat) /\
  (forall c, stopPollingCh b = Some c -> stop_chans b !! c = Some false) /\
  (forall c, is_Some (update_chans b !! c) \/ is_Some (stop_chans b !! c) ->
     (c < next_chan b)%positive) /\
  (forall c st, update_chans b !! c = Some st -> closed st = false ->
     updatesChan b = Some c).

(** What holds of an engine and its goroutines at all times: the channel
    fields are in order, one goroutine is live while the running flag is
    set and none otherwise, and the wait group counts the goroutines still
    to run [pollingWg.Done()]. *)
Definition engine_ok (s : BotAPI * list Loop) : Prop :=
  channels_ok (fst s) /\
  length (List.filter live (snd s)) = (if isPolling (fst s) then 1 else 0)%nat /\
  pollingWg (fst s) = Int64.wrap (Z.of_nat (length (List.filter running (snd s)))).

(** A session: start, fetch a batch of two, publish one, a second start
    call, stop, and the goroutine winding down while the consumer drains
    the channel. *)
Definition session : list action :=
  [ CallGetUpdatesChan poll_config;
    Go 0 EvDefault;
    Go 0 (EvFetched (inl [update 3; update 5]));
    Go 0 EvSent;
    CallGetUpdatesChan poll_config;
    Consume 1%positive;
    CallStopPolling;
    Go 0 EvCancel;
    Go 0 EvDone ].

(** The same session with the goroutine gone and a restart. *)
Definition session_over : list action := session ++ [Go 0 EvReturn].

End Engine.

(** ** The relay of the stop signal *)

Section Relay.

Import zalobot.

(** [b.cancel()], the last thing [Close] does. *)
Definition cancel (b : BotAPI) : BotAPI :=
  {| ctx_cancelled := true; isPolling := isPolling b;
     stopPollingCh := stopPollingCh b; updatesChan := updatesChan b;
     pollingWg := pollingWg b; update_chans := update_chans b;
     stop_chans := stop_chans b; next_chan := next_chan b |}.

(** Where the goroutine stands that [pollUpdates] starts to watch for the
    stop signal: started; blocked in its [select] on the channel it found
    in [b.stopPollingCh] (nil or not) and on [b.ctx.Done()]; or done,
    [pollCancel] called. *)
Inductive monitor :=
| MonStart
| MonSelect (stop : option chan)
| MonDone.

(** A call of [pollUpdates]: the loop and its monitor. *)
Record poller := {
  loop : Loop;
  mon : monitor
}.

Definition set_loop (p : poller) (l : Loop) : poller :=
  {| loop := l; mon := mon p |}.

(** Whether a case of the monitor's [select] is ready: [b.ctx] is done, or
    the channel it waits on is closed.  A nil channel is never ready. *)
Definition woken (b : BotAPI) (stop : option chan) : bool :=
  ctx_cancelled b
  || match stop with
     | Some c => default false (stop_chans b !! c)
     | None => false
     end.

(** What can happen to an engine once the monitors are told apart from the
    loops: a loop is cancelled only by its monitor or through [b.ctx]. *)
Inductive move :=
| Start (config : UpdateConfig)      (* a call of [GetUpdatesChan] *)
| Stop                               (* the critical section of [StopPolling] *)
| Cancel                             (* [b.cancel()] *)
| MonEnter (i : nat)                 (* monitor [i] reads [b.stopPollingCh]
                                        and enters its [select] *)
| MonWake (i : nat)                  (* its [select] fires: [pollCancel()] *)
| Poll (i : nat) (ev : Event)        (* loop [i] takes a step of its own *)
| Take (c : chan).                   (* a consumer takes an update *)

Definition relay (m : move) (s : BotAPI * list poller)
    : option (BotAPI * list poller) :=
  let '(b, ps) := s in
  match m with
  | Start config =>
      let '(_, b', l) := GetUpdatesChan config b in
      Some (b', ps ++ match l with
                      | Some l => [{| loop := l; mon := MonStart |}]
                      | None => []
                      end)
  | Stop => Some (StopPolling_locked b, ps)
  | Cancel =>
      Some (cancel b, map (fun p => set_loop p (set_cancelled (loop p))) ps)
  | MonEnter i =>
      p ← ps !! i;
      match mon p with
      | MonStart =>
          Some (b, <[i := {| loop := loop p; mon := MonSelect (stopPollingCh b) |}]> ps)
      | _ => None
      end
  | MonWake i =>
      p ← ps !! i;
      match mon p with
      | MonSelect stop =>
          if woken b stop
          then Some (b, <[i := {| loop := set_cancelled (loop p); mon := MonDone |}]> ps)
          else None
      | _ => None
      end
  | Poll i ev =>
      match ev with
      | EvCancel => None
      | _ =>
          p ← ps !! i;
          s' ← step ev (b, loop p);
          Some (fst s', <[i := set_loop p (snd s')]> ps)
      end
  | Take c => b' ← consume c b; Some (b', ps)
  end.

Fixpoint relays (ms : list move) (s : BotAPI * list poller)
    : option (BotAPI * list poller) :=
  match ms with
  | [] => Some s
  | m :: ms' => s' ← relay m s; relays ms' s'
  end.

(** The stop signal can no longer reach the one loop of the engine: its
    monitor waits on a nil channel, [b.stopPollingCh] is nil, so that no
    later [StopPolling] closes anything, and neither the loop nor [b.ctx]
    is cancelled. *)
Definition signal_lost (s : BotAPI * list poller) : Prop :=
  exists p,
    snd s = [p] /\ mon p = MonSelect None /\
    cancelled (loop p) = false /\ live (loop p) = true /\
    channels_ok (fst s) /\ isPolling (fst s) = true /\
    stopPollingCh (fst s) = None /\ ctx_cancelled (fst s) = false /\
    pollingWg (fst s) = 1.

(** A start call followed at once by a stop call, whose critical section
    runs before the monitor of the new loop has entered its [select]. *)
Definition stop_before_monitor : list move :=
  [Start poll_config; Stop; MonEnter 0].

(** The same two calls with the monitor in place before the stop. *)
Definition stop_after_monitor : list move :=
  [Start poll_config; MonEnter 0; Stop; MonWake 0].

End Relay.
(** ** The webhook service *)

Module webhook.

(** [types.User], [types.Attachment], [types.Message] and the event
    payloads.  A message carries the fields [convertMessageEventToMessage]
    sets; the others stay at their zero values. *)
Record User := { ID : string }.

Record Attachment := {
  AttachmentType : string;
  URL : string;
  FileID : string;
  MimeType : string;
  Size : Z
}.

Record Message := {
  MessageID : string;
  From : option User;
  Text : string;
  Attachments : list Attachment
}.

Record PostbackEvent := {
  Payload : string;
  Title : string
}.

Record UserAction := {
  ActionType : string;
  ActionUserID : string
}.

(** [types.Update] with its payloads. *)
Record Update := {
  UpdateID : Z;
  UpdateMessage : option Message;
  UpdatePostback : option PostbackEvent;
  UpdateUserAction : option UserAction
}.

(** [types.WebhookEvent]: the fields the conversion reads. *)
Record WebhookEvent := {
  EventName : string;
  Timestamp : Z;
  Data : list Byte.byte
}.

Record MessageEvent := {
  EventMessageID : string;
  EventUserID : string;
  EventText : string;
  EventAttachments : list Attachment
}.

Record UserActionEvent := {
  ActionEventUserID : string;
  Action : string
}.

(** [json.Unmarshal] at the five types the service decodes into: the value
    decoded, or the text of the error. *)
Record Unmarshal := {
  to_Update : list Byte.byte -> Update + string;
  to_WebhookEvent : list Byte.byte -> WebhookEvent + string;
  to_MessageEvent : list Byte.byte -> MessageEvent + string;
  to_PostbackEvent : list Byte.byte -> PostbackEvent + string;
  to_UserActionEvent : list Byte.byte -> UserActionEvent + string
}.

Record WebhookService := { secretToken : string }.

Definition NewWebhookService (secretToken : string) : WebhookService :=
  {| secretToken := secretToken |}.

Definition SetSecretToken (s : WebhookService) (token : string) : WebhookService :=
  {| secretToken := token |}.

Definition ValidateSignature (s : WebhookService) (payload : list Byte.byte)
    (signature : string) : option utils.sentinel :=
  utils.ValidateWebhookSignature payload signature (secretToken s).

(** [utils.RejectInvalidWebhookRequest]; an error is kept as its text. *)
Definition RejectInvalidWebhookRequest (reason : string) : string :=
  let reason := if String.eqb reason "" then "invalid webhook request"%string
                else reason in
  "webhook request rejected: " +:+ reason.

Definition convertMessageEventToMessage (event : MessageEvent) : Message :=
  {| MessageID := EventMessageID event;
     From := Some {| ID := EventUserID event |};
     Text := EventText event;
     Attachments := EventAttachments event |}.

Definition convertUserActionEventToUserAction (event : UserActionEvent)
    : UserAction :=
  {| ActionType := Action event; ActionUserID := ActionEventUserID event |}.

Definition one_of (names : list string) (name : string) : bool :=
  existsb (String.eqb name) names.

Definition convertWebhookEventToUpdate (json : Unmarshal) (event : WebhookEvent)
    : Update + string :=
  let updateID := if Timestamp event =? 0 then 1 else Timestamp event in
  if one_of ["message"; "text_message"; "message_received"]%string (EventName event)
  then
    match to_MessageEvent json (Data event) with
    | inr err => inr ("failed to parse message event: " +:+ err)
    | inl msgEvent =>
        inl {| UpdateID := updateID;
               UpdateMessage := Some (convertMessageEventToMessage msgEvent);
               UpdatePostback := None; UpdateUserAction := None |}
    end
  else if one_of ["postback"; "button_click"]%string (EventName event) then
    match to_PostbackEvent json (Data event) with
    | inr err => inr ("failed to parse postback event: " +:+ err)
    | inl postback =>
        inl {| UpdateID := updateID; UpdateMessage := None;
               UpdatePostback := Some postback; UpdateUserAction := None |}
    end
  else if one_of ["user_action"; "user_join"; "user_leave"; "user_block"]%string
                 (EventName event) then
    match to_UserActionEvent json (Data event) with
    | inr err => inr ("failed to parse user action event: " +:+ err)
    | inl actionEvent =>
        inl {| UpdateID := updateID; UpdateMessage := None; UpdatePostback := None;
               UpdateUserAction :=
                 Some (convertUserActionEventToUserAction actionEvent) |}
    end
  else inr ("unsupported event type: " +:+ EventName event).

Definition ParseUpdate (json : Unmarshal) (payload : list Byte.byte)
    : Update + string :=
  if (length payload =? 0)%nat then inr "empty webhook payload"%string
  else
    match to_Update json payload with
    | inl update =>
        if negb (UpdateID update =? 0) then inl update
        else
          match to_WebhookEvent json payload with
          | inr err => inr ("failed to parse webhook payload: " +:+ err)
          | inl webhookEvent => convertWebhookEventToUpdate json webhookEvent
          end
    | inr _ =>
        match to_WebhookEvent json payload with
        | inr err => inr ("failed to parse webhook payload: " +:+ err)
        | inl webhookEvent => convertWebhookEventToUpdate json webhookEvent
        end
    end.

Definition ProcessWebhook (json : Unmarshal) (s : WebhookService)
    (payload : list Byte.byte) (signature : string) : Update + string :=
  match ValidateSignature s payload signature with
  | Some err =>
      inr (RejectInvalidWebhookRequest
             ("signature validation failed: " +:+ utils.sentinel_text err))
  | None =>
      match ParseUpdate json payload with
      | inr err => inr ("failed to parse webhook update: " +:+ err)
      | inl update => inl update
      end
  end.

(** The [interface{}] that [HandleWebhookEvent] returns. *)
Inductive event_data :=
| OfMessage (m : Message)
| OfPostback (p : PostbackEvent)
| OfUserAction (a : UserAction)
| OfUpdate (u : Update).

Definition HandleWebhookEvent (json : Unmarshal) (s : WebhookService)
    (payload : list Byte.byte) (signature : string)
    : (string * event_data) + string :=
  match ProcessWebhook json s payload signature with
  | inr err => inr err
  | inl update =>
      match UpdateMessage update, UpdatePostback update, UpdateUserAction update with
      | Some m, _, _ => inl ("message"%string, OfMessage m)
      | None, Some p, _ => inl ("postback"%string, OfPostback p)
      | None, None, Some a => inl ("user_action"%string, OfUserAction a)
      | None, None, None => inl ("unknown"%string, OfUpdate update)
      end
  end.

(** Exactly one of the three payloads of an update is set. *)
Definition one_payload (u : Update) : Prop :=
  match UpdateMessage u, UpdatePostback u, UpdateUserAction u with
  | Some _, None, None | None, Some _, None | None, None, Some _ => True
  | _, _, _ => False
  end.

(** An update with the id 7 and no payload. *)
Definition sample_update : Update :=
  {| UpdateID := 7; UpdateMessage := None; UpdatePostback := None;
     UpdateUserAction := None |}.

(** A decoder for the samples: the one-byte payload [u] is an update with
    id 7 and no event, [m] a message event at timestamp 0, and nothing
    else decodes. *)
Definition sample_json : Unmarshal := {|
  to_Update := fun p =>
    match p with
    | [Byte.x75] => inl sample_update
    | [Byte.x6d] => inl {| UpdateID := 0; UpdateMessage := None;
                           UpdatePostback := None; UpdateUserAction := None |}
    | _ => inr "invalid character"%string
    end;
  to_WebhookEvent := fun p =>
    match p with
    | [Byte.x6d] => inl {| EventName := "message"; Timestamp := 0; Data := [Byte.x7b] |}
    | _ => inr "invalid character"%string
    end;
  to_MessageEvent := fun p =>
    inl {| EventMessageID := "m1"; EventUserID := "u1"; EventText := "hi";
           EventAttachments := [] |};
  to_PostbackEvent := fun _ => inr "invalid character"%string;
  to_UserActionEvent := fun _ => inr "invalid character"%string
|}.

End webhook.
(** ** Ranging over the runes of a string *)

Module runes.

Import utils.

Local Open Scope N_scope.

(** [for i, char := range s]: the runes of [s] with the byte index each
    starts at.  An invalid byte is the rune [RuneError] of width 1. *)
Fixpoint range (fuel : nat) (bs : list N) (i : nat) : list (nat * N) :=
  match bs, fuel with
  | [], _ => []
  | _, O => []
  | _, S fuel' =>
      let '(r, size) := DecodeRune bs in
      (i, r) :: range fuel' (drop size bs) (i + size)
  end.

Definition range_string (bs : list N) : list (nat * N) := range (length bs) bs 0.

(** [utf8.RuneCountInString] *)
Definition RuneCount (bs : list N) : nat := length (range_string bs).

(** Whether the encoding at the head of [bs] is valid. *)
Definition valid_head (bs : list N) : bool :=
  let '(r, size) := DecodeRune bs in negb ((r =? RuneError) && (size <=? 1)%nat).

(** [utf8.ValidString] *)
Fixpoint Valid (fuel : nat) (bs : list N) : bool :=
  match bs, fuel with
  | [], _ => true
  | _, O => false
  | _, S fuel' => valid_head bs && Valid fuel' (drop (snd (DecodeRune bs)) bs)
  end.

Definition ValidString (bs : list N) : bool := Valid (length bs) bs.

End runes.

(** ** The configuration of the engine *)

Module config.

Import types runes.

(** The loop that looks for the separator: the byte index of the first
    rune that is a colon, or -1. *)
Definition colonIndex (token : list N) : Z :=
  match List.find (fun ir => (snd ir =? 58)%N) (range_string token) with
  | Some (i, _) => Z.of_nat i
  | None => -1
  end.

Definition numeric (part : list N) : bool :=
  forallb (fun ir => negb ((snd ir <? 48)%N || (57 <? snd ir)%N)) (range_string part).

Definition isValidBotTokenFormat (token : string) : bool :=
  let token := bytes_of_string token in
  if (Z.of_nat (length token) <? 10) then false
  else
    let colonIndex := colonIndex token in
    if (colonIndex <=? 0) || (Z.of_nat (length token) - 1 <=? colonIndex) then false
    else
      let botIDPart := take (Z.to_nat colonIndex) token in
      if negb (numeric botIDPart) then false
      else
        let tokenPart := drop (Z.to_nat (colonIndex + 1)) token in
        if (Z.of_nat (length tokenPart) <? 10) then false else true.

(** [http.Client], as far as the configuration goes. *)
Record HTTPClient := { ClientTimeout : Z }.

Record Config := {
  BotToken : string;
  BaseURL : string;
  Debug : bool;
  Timeout : Z;                        (* a [time.Duration] *)
  Retries : Z;
  Environment : string;
  HTTPClient_ : option HTTPClient;    (* [None] is nil *)
  RetryConfig_ : option RetryConfig
}.

Definition Development : string := "development".
Definition Production : string := "production".

Definition IsValid (e : string) : bool :=
  String.eqb e Development || String.eqb e Production.

Definition validation (message : string) : ZaloBotError :=
  {| Code := 400; Message := message; Description := ""; Type_ := ErrorTypeValidation |}.

(** [Config.Validate] (pointer receiver): the configuration as the call
    leaves it, and the error. *)
Definition Validate (c : Config) : Config * option ZaloBotError :=
  if String.eqb (BotToken c) "" then (c, Some (validation "Bot token is required"))
  else if negb (isValidBotTokenFormat (BotToken c))
  then (c, Some (validation "Invalid bot token format"))
  else
    let baseURL := if String.eqb (BaseURL c) "" then "https://bot-api.zapps.me"%string
                   else BaseURL c in
    let timeout := if Timeout c =? 0 then 30 * time_Second else Timeout c in
    let retries := if Retries c =? 0 then 3 else Retries c in
    let environment := if String.eqb (Environment c) "" then Production
                       else Environment c in
    if negb (IsValid environment)
    then ({| BotToken := BotToken c; BaseURL := baseURL; Debug := Debug c;
             Timeout := timeout; Retries := retries; Environment := environment;
             HTTPClient_ := HTTPClient_ c; RetryConfig_ := RetryConfig_ c |},
          Some (validation "Invalid environment"))
    else
      ({| BotToken := BotToken c; BaseURL := baseURL; Debug := Debug c;
          Timeout := timeout; Retries := retries; Environment := environment;
          HTTPClient_ :=
            match HTTPClient_ c with
            | None => Some {| ClientTimeout := timeout |}
            | Some client => Some client
            end;
          RetryConfig_ :=
            match RetryConfig_ c with
            | None => Some DefaultRetryConfig
            | Some rc => Some rc
            end |},
       None).

(** The configuration [New] starts from, before the options. *)
Definition New_config (botToken : string) : Config :=
  {| BotToken := botToken; BaseURL := "https://bot-api.zapps.me"; Debug := false;
     Timeout := 30 * time_Second; Retries := 3; Environment := Production;
     HTTPClient_ := None; RetryConfig_ := None |}.

End config.

(** ** Message content *)

Module content.

Import runes.

Definition MaxMessageLength : Z := 5000.

(** The sentinel an error of [ValidateMessageContent] wraps. *)
Inductive content_error :=
| ErrInvalidMessageContent            (* empty *)
| ErrInvalidUTF8                      (* wraps [ErrInvalidMessageContent] *)
| ErrMessageTooLong (runeCount : Z).

Definition ValidateMessageContent (content : string) : option content_error :=
  if String.eqb content "" then Some ErrInvalidMessageContent
  else
    let bs := bytes_of_string content in
    if negb (ValidString bs) then Some ErrInvalidUTF8
    else
      let runeCount := Z.of_nat (RuneCount bs) in
      if MaxMessageLength <? runeCount then Some (ErrMessageTooLong runeCount)
      else None.

End content.
(** ** Fetching updates *)

Module updates.

Import types zalobot.

(** The envelope [GetUpdatesWithContext] decodes the body into. *)
Record envelope := {
  OK : bool;
  Result : list Update;
  ErrorCode : Z;
  Description : string
}.

Inductive unmarshal_result :=
| Decoded (apiResp : envelope)
| DecodeError (text : string).

Record HTTPResponse := {
  StatusCode : Z;
  Unmarshal : unmarshal_result
}.

(** What comes of building and sending the request and reading the body. *)
Inductive Exchange :=
| NewRequestError
| ClientDoError
| ReadBodyError
| Response (resp : HTTPResponse).

(** [url.Values] with one value for each key, in the order added. *)
Definition Values := list (string * string).

Fixpoint insert_sorted (kv : string * string) (v : Values) : Values :=
  match v with
  | [] => [kv]
  | kv' :: rest =>
      if String.leb (fst kv) (fst kv') then kv :: v else kv' :: insert_sorted kv rest
  end.

Fixpoint join_pairs (v : Values) : string :=
  match v with
  | [] => ""
  | (k, x) :: rest =>
      match rest with
      | [] => k +:+ "=" +:+ x
      | _ => k +:+ "=" +:+ x +:+ "&" +:+ join_pairs rest
      end
  end.

(** [url.Values.Encode]: the pairs by sorted key, joined by an ampersand.
    The keys and values here are letters and digits, which the escaping
    of [Encode] leaves alone. *)
Definition Encode (v : Values) : string :=
  join_pairs (fold_right insert_sorted [] v).

Definition params (config : UpdateConfig) : Values :=
  (if 0 <? Offset config then [("offset"%string, pretty (Offset config))] else [])
  ++ (if 0 <? Limit config then [("limit"%string, pretty (Limit config))] else [])
  ++ (if 0 <? Timeout config then [("timeout"%string, pretty (Timeout config))]
      else []).

(** The URL requested, given [b.authService.GetAPIEndpoint("getUpdates")]
    and the validated configuration. *)
Definition request_url (endpoint : string) (config : UpdateConfig) : string :=
  if (0 <? length (params config))%nat
  then endpoint +:+ "?" +:+ Encode (params config)
  else endpoint.

(** [GetUpdatesWithContext], given the endpoint and what the HTTP client
    makes of a URL. *)
Definition GetUpdatesWithContext (endpoint : string) (client : string -> Exchange)
    (config : UpdateConfig) : list Update + error :=
  match Validate config with
  | (_, Some err) => inr err
  | (config, None) =>
      match client (request_url endpoint config) with
      | NewRequestError => inr (ZaloErr (NewNetworkError "failed to create request"))
      | ClientDoError => inr (ZaloErr (NewNetworkError "request failed"))
      | ReadBodyError => inr (ZaloErr (NewNetworkError "failed to read response"))
      | Response resp =>
          match Unmarshal resp with
          | DecodeError text =>
              inr (ZaloErr (NewAPIError (StatusCode resp) "failed to parse response"
                              text))
          | Decoded apiResp =>
              if negb (OK apiResp)
              then inr (ZaloErr (NewAPIError (ErrorCode apiResp) (Description apiResp)
                                   "getUpdates failed"))
              else inl (Result apiResp)
          end
      end
  end.

(** A server that answers every request with HTTP 429 and an error
    envelope. *)
Definition always_429 (url : string) : Exchange :=
  Response {| StatusCode := 429;
              Unmarshal := Decoded {| OK := false; Result := []; ErrorCode := 429;
                                      Description := "Too Many Requests" |} |}.

End updates.
(** * Properties *)

(** ** Machine integers *)

Lemma wrap_in_range z : Int64.in_range (Int64.wrap z).
Proof.
  unfold Int64.in_range, Int64.wrap, Int64.MinInt, Int64.MaxInt, Int64.modulus.
  pose proof (Z.mod_pos_bound (z + 2 ^ 63) (2 ^ 64) ltac:(lia)). lia.
Qed.

Lemma wrap_small z : Int64.in_range z -> Int64.wrap z = z.
Proof.
  unfold Int64.in_range, Int64.wrap, Int64.MinInt, Int64.MaxInt, Int64.modulus.
  intros H. rewrite Z.mod_small by lia. lia.
Qed.

(** ** The retry policy *)

Section RetryPolicy.

Import Float64 types.

Lemma existsb_eqb_In (t : ErrorType) (l : list ErrorType) :
  existsb (fun r => String.eqb t r) l = true <-> In t l.
Proof.
  rewrite existsb_exists. split.
  - intros (r & Hin & Heq). apply String.eqb_eq in Heq. now subst.
  - intros Hin. exists t. split; [assumption | apply String.eqb_refl].
Qed.

Lemma IsRetryable_auth_validation (e : ZaloBotError) :
  Type_ e = ErrorTypeAuth \/ Type_ e = ErrorTypeValidation ->
  IsRetryable e = false.
Proof.
  unfold IsRetryable. intros [-> | ->]; reflexivity.
Qed.

(** C5, counterexample: with [ErrorTypeAuth] in [RetryableErrors], an
    auth error is retried. *)
Lemma ShouldRetry_auth_listed :
  Type_ (NewAuthError "denied") = ErrorTypeAuth /\
  ShouldRetry retry_auth (ZaloErr (NewAuthError "denied")) = true.
Proof. split; reflexivity. Qed.

(** C5, amended: an error of kind auth or validation is refused a retry
    exactly when its kind is not listed in the configuration's
    [RetryableErrors]; in particular it is never retried under a
    configuration that lists neither kind, such as the default one. *)
Theorem ShouldRetry_auth_validation (rc : RetryConfig) (e : ZaloBotError) :
  Type_ e = ErrorTypeAuth \/ Type_ e = ErrorTypeValidation ->
  (ShouldRetry rc (ZaloErr e) = false <-> ~ In (Type_ e) (RetryableErrors rc)).
Proof.
  intros Hkind. unfold ShouldRetry.
  destruct (existsb _ _) eqn:Hex.
  - apply existsb_eqb_In in Hex. split; [discriminate | tauto].
  - rewrite (IsRetryable_auth_validation e Hkind). split; [| reflexivity].
    intros _ Hin. apply existsb_eqb_In in Hin. congruence.
Qed.

Lemma ShouldRetry_auth_validation_witness :
  ShouldRetry DefaultRetryConfig (ZaloErr (NewValidationError "bad input")) = false.
Proof.
  apply (ShouldRetry_auth_validation DefaultRetryConfig (NewValidationError "bad input")).
  - right. reflexivity.
  - simpl. intros [H | [H | []]]; discriminate H.
Defined.

(** *** [NextDelay] *)

Lemma NextDelay_loop_S rc n d :
  NextDelay_loop rc (S n) d =
  if MaxDelay rc <? scale (BackoffFactor rc) d then MaxDelay rc
  else NextDelay_loop rc n (scale (BackoffFactor rc) d).
Proof. reflexivity. Qed.

Lemma NextDelay_as_loop rc n :
  0 <= n -> NextDelay rc n = NextDelay_loop rc (Z.to_nat n) (InitialDelay rc).
Proof.
  intros Hn. unfold NextDelay. destruct (Z.leb_spec n 0) as [H0 | H0]; [| reflexivity].
  assert (n = 0) as -> by lia. reflexivity.
Qed.

(** After at least one iteration the loop has capped its result. *)
Lemma NextDelay_loop_capped rc n d :
  NextDelay_loop rc (S n) d <= MaxDelay rc.
Proof.
  revert d. induction n as [| n IH]; intros d; rewrite NextDelay_loop_S.
  - destruct (Z.ltb_spec (MaxDelay rc) (scale (BackoffFactor rc) d)); simpl; lia.
  - destruct (Z.ltb_spec (MaxDelay rc) (scale (BackoffFactor rc) d)); [lia | apply IH].
Qed.

(** If a step never shrinks a delay between [lo] and the cap, the loop's
    results stay between its start and the cap, and grow with the number
    of iterations. *)
Lemma NextDelay_loop_mono rc lo :
  (forall x, lo <= x <= MaxDelay rc -> x <= scale (BackoffFactor rc) x) ->
  forall n d, lo <= d <= MaxDelay rc ->
    d <= NextDelay_loop rc n d <= MaxDelay rc /\
    NextDelay_loop rc n d <= NextDelay_loop rc (S n) d.
Proof.
  intros Hstep. induction n as [| n IH]; intros d Hd.
  - rewrite NextDelay_loop_S. simpl. specialize (Hstep d Hd).
    destruct (Z.ltb_spec (MaxDelay rc) (scale (BackoffFactor rc) d)); lia.
  - rewrite (NextDelay_loop_S rc (S n)). rewrite (NextDelay_loop_S rc n).
    specialize (Hstep d Hd).
    destruct (Z.ltb_spec (MaxDelay rc) (scale (BackoffFactor rc) d)) as [Hc | Hc];
      [lia |].
    destruct (IH (scale (BackoffFactor rc) d) ltac:(lia)) as [IH1 IH2]. lia.
Qed.

(** C6, counterexample: attempt 0 returns [InitialDelay] as it is, above
    the cap when the configuration has [InitialDelay > MaxDelay]. *)
Lemma NextDelay_0_above_cap :
  NextDelay retry_inverted 0 = 60 * time_Second /\
  ~ NextDelay retry_inverted 0 <= MaxDelay retry_inverted.
Proof. split; [reflexivity | vm_compute; intros H; apply H; reflexivity]. Qed.

(** A shrinking factor makes the sequence decrease below the cap. *)
Example NextDelay_shrinks :
  map (NextDelay {| MaxRetries := 3; InitialDelay := 8; MaxDelay := 100;
                    BackoffFactor := half; RetryableErrors := [] |}) [0; 1; 2; 3]
  = [8; 4; 2; 1].
Proof. reflexivity. Qed.

(** C6, amended: [NextDelay n] is at most [MaxDelay] for every [n >= 1],
    and for [n = 0] too when [InitialDelay <= MaxDelay]; the sequence is
    non-decreasing when, in addition, one backoff step
    [time.Duration(float64(d) * BackoffFactor)] never returns less than
    [d] for a delay [d] between [InitialDelay] and [MaxDelay]. *)
Theorem NextDelay_bounded_monotone (rc : RetryConfig) :
  (forall n, 1 <= n -> NextDelay rc n <= MaxDelay rc) /\
  (InitialDelay rc <= MaxDelay rc ->
     (forall n, 0 <= n -> NextDelay rc n <= MaxDelay rc) /\
     ((forall d, InitialDelay rc <= d <= MaxDelay rc ->
                 d <= scale (BackoffFactor rc) d) ->
      forall n, 0 <= n -> NextDelay rc n <= NextDelay rc (n + 1))).
Proof.
  assert (Hcap : forall n, 1 <= n -> NextDelay rc n <= MaxDelay rc).
  { intros n Hn. rewrite NextDelay_as_loop by lia.
    destruct (Z.to_nat n) as [| k] eqn:Hk; [lia | apply NextDelay_loop_capped]. }
  split; [exact Hcap |]. intros Hle. split.
  - intros n Hn. destruct (Z.eq_dec n 0) as [-> | Hne]; [exact Hle | apply Hcap; lia].
  - intros Hstep n Hn. rewrite !NextDelay_as_loop by lia.
    replace (Z.to_nat (n + 1)) with (S (Z.to_nat n)) by lia.
    apply (NextDelay_loop_mono rc (InitialDelay rc) Hstep). lia.
Qed.

End RetryPolicy.

(** ** The two backoff computations *)

Section Backoff.

Import Float64 types services.

Lemma forall_range (P : Z -> bool) (lo : Z) (n : nat) :
  forallb P (map (fun k => lo + Z.of_nat k) (seq 0 n)) = true ->
  forall d, lo <= d < lo + Z.of_nat n -> P d = true.
Proof.
  intros Hall d Hd. rewrite forallb_forall in Hall. apply Hall.
  apply in_map_iff. exists (Z.to_nat (d - lo)). split; [lia |].
  apply in_seq. lia.
Qed.

Lemma NextDelay_bounded_monotone_witness :
  NextDelay retry_small 5 <= MaxDelay retry_small /\
  NextDelay retry_small 3 <= NextDelay retry_small (3 + 1).
Proof.
  pose proof (NextDelay_bounded_monotone retry_small) as [_ H].
  assert (Hle : InitialDelay retry_small <= MaxDelay retry_small)
    by (vm_compute; discriminate).
  destruct (H Hle) as [Hb Hm]. split.
  - apply Hb. lia.
  - apply Hm; [| lia]. intros d Hd. apply Z.leb_le.
    apply (forall_range (fun d => d <=? scale (BackoffFactor retry_small) d) 1 30);
      [vm_compute; reflexivity |].
    change (InitialDelay retry_small) with 1 in Hd.
    change (MaxDelay retry_small) with 30 in Hd. lia.
Defined.

Lemma one_eq : one = S754_finite false 4503599627370496 (-52).
Proof. vm_compute. reflexivity. Qed.

Lemma SFeqb_one (x : float64) : eqb x one = true -> x = one.
Proof.
rewrite one_eq. unfold eqb, SFeqb.
destruct x as [s | s | | s m e]; cbn [SFcompare]; try destruct s; try discriminate.
destruct (e ?= -52) eqn:He; try discriminate.
destruct (Pos.compare_cont Eq m 4503599627370496) eqn:Hm; try discriminate.
intros _. apply Z.compare_eq in He. apply Pos.compare_eq in Hm.
now subst.
Qed.

Lemma Pow_int_1 (x : float64) : Pow_int x 1 = x.
Proof.
unfold Pow_int.
replace (eqb (of_int 1) (of_int 0)) with false by (vm_compute; reflexivity).
replace (eqb (of_int 1) one) with true by (vm_compute; reflexivity).
cbn [orb].
destruct (eqb x one) eqn:Hx; [| reflexivity].
symmetry. apply SFeqb_one, Hx.
Qed.

(** C9, counterexample: with an initial delay of 1ns, a factor of 1.5 and
    a cap of 100ns, [NextDelay] gives 1 for attempt 2 (it truncates after
    every multiplication) and [calculateBackoffDelay] gives 2 (it
    truncates once). *)
Lemma delays_disagree :
NextDelay retry_fraction 2 = 1 /\
calculateBackoffDelay 2 retry_fraction = 2 /\
NextDelay retry_fraction 2 <> calculateBackoffDelay 2 retry_fraction.
Proof. repeat split; vm_compute; congruence. Qed.

(** C9, amended: for every retry configuration the two delay functions
    agree on the attempts up to 1: both give the initial delay for an
    attempt of 0 or below, and for attempt 1 the initial delay times the
    factor, truncated and capped. *)
Theorem delays_agree_upto_1 (rc : RetryConfig) (n : Z) :
n <= 1 ->
NextDelay rc n = calculateBackoffDelay n rc /\
(n <= 0 -> NextDelay rc n = InitialDelay rc) /\
(n = 1 ->
 NextDelay rc n =
   let d := to_int64 (mul (of_int (InitialDelay rc)) (BackoffFactor rc)) in
   if MaxDelay rc <? d then MaxDelay rc else d).
Proof.
intros Hn. unfold NextDelay, calculateBackoffDelay.
destruct (Z.leb_spec n 0) as [H0 | H0].
- repeat split; try reflexivity. lia.
- assert (n = 1) as -> by lia. rewrite Pow_int_1.
  change (Z.to_nat 1) with 1%nat. cbn [NextDelay_loop].
  unfold scale. repeat split; try reflexivity; try lia.
Qed.

Lemma delays_agree_upto_1_witness :
NextDelay DefaultRetryConfig 1 = calculateBackoffDelay 1 DefaultRetryConfig.
Proof.
assert (H : 1 <= 1) by lia.
exact (proj1 (delays_agree_upto_1 DefaultRetryConfig 1 H)).
Defined.

End Backoff.

(** ** The request executor *)

Section Executor.

Import Float64 types services.

(** One exchange either yields a response or an error, never neither. *)
Lemma executeRequest_cases (apiReq : APIRequest) (x : Exchange) :
  (exists resp, executeRequest apiReq x = (Some resp, None)) \/
  (exists err, executeRequest apiReq x = (None, Some err)).
Proof.
  unfold executeRequest, fail, GetError, IsError.
  destruct x as [t | t | t | t | resp]; try (right; eexists; reflexivity).
  destruct (StatusCode resp =? 429); [right; eexists; reflexivity |].
  destruct (_ || _); [right; eexists; reflexivity |].
  destruct (Unmarshal resp) as [a | t].
  - destruct (OK a); cbn [negb]; [left; eexists; reflexivity |].
    destruct (ErrorCode a =? 429); [right; eexists; reflexivity |].
    destruct (_ || _); right; eexists; reflexivity.
  - destruct (500 <=? StatusCode resp); right; eexists; reflexivity.
Qed.

Lemma DoRequest_loop_eq rc env apiReq fuel attempt lastErr trace :
  DoRequest_loop rc env apiReq fuel attempt lastErr trace =
  if MaxRetries rc <? attempt then Some ((None, lastErr), trace)
  else
    match fuel with
    | O => None
    | S fuel' =>
        let delay := calculateBackoffDelay attempt rc in
        match (if 0 <? attempt then ctx_done env attempt else None) with
        | Some ctxErr =>
            Some (fail (NewNetworkError ("request cancelled: " +:+ ctxErr)),
                  trace ++ [Cancelled delay])
        | None =>
            let trace1 := if 0 <? attempt then trace ++ [Slept delay] else trace in
            let trace2 := trace1 ++ [Attempted attempt] in
            match executeRequest apiReq (exchange env attempt) with
            | (resp, None) => Some ((resp, None), trace2)
            | (_, Some err) =>
                if negb (ShouldRetry rc err) then Some ((None, Some err), trace2)
                else if MaxRetries rc <=? attempt then Some ((None, Some err), trace2)
                else DoRequest_loop rc env apiReq fuel' (Int64.add attempt 1)
                       (Some err) trace2
            end
        end
    end.
Proof. destruct fuel; reflexivity. Qed.

(** C3, the failing input: with [MaxRetries = -1] the loop body never
    runs, and [DoRequest] returns a nil response together with a nil
    error, without a single attempt, whatever the server would answer. *)
Theorem DoRequest_nil_nil (env : Env) (apiReq : APIRequest) :
  DoRequest (Some retry_negative) env apiReq = Some ((None, None), []).
Proof. reflexivity. Qed.

(** With enough fuel the loop returns. *)
Lemma DoRequest_loop_total rc env apiReq :
  MaxRetries rc <= Int64.MaxInt ->
  forall fuel attempt lastErr trace,
    0 <= attempt ->
    MaxRetries rc - attempt + 1 <= Z.of_nat fuel ->
    exists r, DoRequest_loop rc env apiReq fuel attempt lastErr trace = Some r.
Proof.
  intros Hmax. induction fuel as [| fuel IH]; intros attempt lastErr trace H0 Hf;
    rewrite DoRequest_loop_eq.
  - destruct (Z.ltb_spec (MaxRetries rc) attempt); [eauto | lia].
  - destruct (Z.ltb_spec (MaxRetries rc) attempt); [eauto |]. cbv zeta.
    destruct (if 0 <? attempt then _ else _); [eauto |].
    destruct (executeRequest _ _) as [resp [err |]]; [| eauto].
    destruct (negb _); [eauto |].
    destruct (Z.leb_spec (MaxRetries rc) attempt); [eauto |].
    assert (Int64.add attempt 1 = attempt + 1) as ->.
    { apply wrap_small. unfold Int64.in_range, Int64.MinInt, Int64.MaxInt in *. lia. }
    apply IH; lia.
Qed.

(** [DoRequest] always returns (for a [MaxRetries] that is a Go int). *)
Lemma DoRequest_total cfg env apiReq :
  MaxRetries (effective_config cfg) <= Int64.MaxInt ->
  exists r, DoRequest cfg env apiReq = Some r.
Proof.
  intros Hmax. unfold DoRequest. apply DoRequest_loop_total; [assumption | lia | lia].
Qed.

Lemma DoRequest_loop_not_nil_nil rc env apiReq :
  forall fuel attempt lastErr trace res trace',
    DoRequest_loop rc env apiReq fuel attempt lastErr trace = Some (res, trace') ->
    lastErr <> None \/ attempt <= MaxRetries rc ->
    res <> (None, None).
Proof.
  induction fuel as [| fuel IH]; intros attempt lastErr trace res trace';
    rewrite DoRequest_loop_eq; intros Hrun Hpre.
  - destruct (Z.ltb_spec (MaxRetries rc) attempt); [| discriminate].
    injection Hrun as <- _. destruct Hpre; [congruence | lia].
  - destruct (Z.ltb_spec (MaxRetries rc) attempt).
    { injection Hrun as <- _. destruct Hpre; [congruence | lia]. }
    cbv zeta in Hrun. destruct (if 0 <? attempt then _ else _).
    { injection Hrun as <- _. discriminate. }
    destruct (executeRequest_cases apiReq (exchange env attempt))
      as [(resp & Hex) | (err & Hex)]; rewrite Hex in Hrun.
    { injection Hrun as <- _. discriminate. }
    destruct (negb _). { injection Hrun as <- _. discriminate. }
    destruct (MaxRetries rc <=? attempt). { injection Hrun as <- _. discriminate. }
    eapply IH; [exact Hrun | left; discriminate].
Qed.

(** As soon as one attempt is allowed the result is never nil twice. *)
Lemma DoRequest_not_nil_nil cfg env apiReq res trace :
  0 <= MaxRetries (effective_config cfg) ->
  DoRequest cfg env apiReq = Some (res, trace) ->
  res <> (None, None).
Proof.
  intros Hmax Hrun. unfold DoRequest in Hrun.
  eapply DoRequest_loop_not_nil_nil; [exact Hrun | right; exact Hmax].
Qed.

(** The error returned is the one of the attempt made last, unless the
    call ended in a cancelled backoff sleep. *)
Lemma DoRequest_loop_last_error rc env apiReq :
  forall fuel attempt lastErr trace err trace',
    DoRequest_loop rc env apiReq fuel attempt lastErr trace
      = Some ((None, Some err), trace') ->
    (forall e, lastErr = Some e ->
       exists k t, trace = t ++ [Attempted k] /\
                   executeRequest apiReq (exchange env k) = (None, Some e)) ->
    (exists k t, trace' = t ++ [Attempted k] /\
                 executeRequest apiReq (exchange env k) = (None, Some err)) \/
    (exists d t, trace' = t ++ [Cancelled d]).
Proof.
  induction fuel as [| fuel IH]; intros attempt lastErr trace err trace';
    rewrite DoRequest_loop_eq; intros Hrun Hinv.
  - destruct (MaxRetries rc <? attempt); [| discriminate].
    injection Hrun as -> <-. left. apply Hinv. reflexivity.
  - destruct (MaxRetries rc <? attempt).
    { injection Hrun as -> <-. left. apply Hinv. reflexivity. }
    cbv zeta in Hrun. destruct (if 0 <? attempt then _ else _).
    { injection Hrun as _ <-. right. eauto. }
    destruct (executeRequest_cases apiReq (exchange env attempt))
      as [(resp & Hex) | (e & Hex)]; rewrite Hex in Hrun.
    { discriminate. }
    destruct (negb _). { injection Hrun as -> <-. left. eauto. }
    destruct (MaxRetries rc <=? attempt). { injection Hrun as -> <-. left. eauto. }
    eapply IH; [exact Hrun |]. intros e' [= <-]. eauto.
Qed.

Lemma DoRequest_last_error cfg env apiReq err trace :
  DoRequest cfg env apiReq = Some ((None, Some err), trace) ->
  (exists k t, trace = t ++ [Attempted k] /\
               executeRequest apiReq (exchange env k) = (None, Some err)) \/
  (exists d t, trace = t ++ [Cancelled d]).
Proof.
  intros Hrun. unfold DoRequest in Hrun.
  eapply DoRequest_loop_last_error; [exact Hrun | discriminate].
Qed.

(** The backoff sleep is cancellable: when [ctx.Done()] is taken before a
    retry, the call returns the cancellation error at once. *)
Lemma DoRequest_loop_cancel rc env apiReq fuel attempt lastErr trace ctxErr :
  0 < attempt <= MaxRetries rc ->
  ctx_done env attempt = Some ctxErr ->
  DoRequest_loop rc env apiReq (S fuel) attempt lastErr trace =
  Some (fail (NewNetworkError ("request cancelled: " +:+ ctxErr)),
        trace ++ [Cancelled (calculateBackoffDelay attempt rc)]).
Proof.
  intros [H0 Hmax] Hctx. rewrite DoRequest_loop_eq.
  destruct (Z.ltb_spec (MaxRetries rc) attempt); [lia |].
  destruct (Z.ltb_spec 0 attempt); [| lia]. cbv zeta. now rewrite Hctx.
Qed.

(** A call cancelled during its first backoff sleep returns the
    cancellation error, not the error of the attempt that failed. *)
Example DoRequest_cancelled (apiReq : APIRequest) :
  DoRequest None
    {| exchange := fun _ => ClientDoError "connection refused";
       ctx_done := fun _ => Some "context canceled" |} apiReq
  = Some (fail (NewNetworkError "request cancelled: context canceled"),
          [Attempted 0; Cancelled (2 * time_Second)]).
Proof. vm_compute. reflexivity. Qed.

Lemma ShouldRetry_rate_limit (m : string) :
  ShouldRetry DefaultRetryConfig (ZaloErr (NewRateLimitError m)) = true.
Proof. reflexivity. Qed.

Lemma executeRequest_429 apiReq resp :
  StatusCode resp = 429 ->
  exists m, executeRequest apiReq (Response resp) = fail (NewRateLimitError m).
Proof.
  intros H. unfold executeRequest. rewrite H. change (429 =? 429) with true.
  cbv iota. eauto.
Qed.

Lemma executeRequest_200 apiReq resp a :
  StatusCode resp = 200 -> Unmarshal resp = Decoded a -> OK a = true ->
  executeRequest apiReq (Response resp) = (Some a, None).
Proof.
  intros H Hu Hok. unfold executeRequest. rewrite H, Hu, Hok. reflexivity.
Qed.

(** The sleep is the backoff delay, whatever the hint: with
    [Retry-After: 5] the header is parsed as five seconds, and the
    executor still sleeps the two seconds of the backoff before the
    second attempt. *)
Lemma retry_after_is_no_floor :
  exists trace,
    DoRequest None (env_429_200 "5") getMe = Some ((Some ok_envelope, None), trace) /\
    RetryAfter (ParseRateLimitHeaders {[ "Retry-After"%string := ["5"%string] ]})
      = 5 * time_Second /\
    slept_before 1 trace = 2 * time_Second /\
    slept_before 1 trace < 5 * time_Second.
Proof.
  eexists. split; [vm_compute; reflexivity |].
  split; [vm_compute; reflexivity |].
  split; [vm_compute; reflexivity | vm_compute; reflexivity].
Qed.

(** Under the default retry configuration (set explicitly or left nil),
    a 429 (whatever its [Retry-After]) followed by a 200 with a success
    envelope gives exactly two attempts with a sleep of two seconds
    between them, the backoff delay of attempt 1, and the success
    envelope as the result. *)
Lemma DoRequest_429_then_200 (cfg : option RetryConfig) (env : Env)
    (apiReq : APIRequest) (r0 r1 : HTTPResponse) (a : APIResponse) :
  cfg = None \/ cfg = Some DefaultRetryConfig ->
  exchange env 0 = Response r0 ->
  StatusCode r0 = 429 ->
  exchange env 1 = Response r1 ->
  StatusCode r1 = 200 ->
  Unmarshal r1 = Decoded a ->
  OK a = true ->
  ctx_done env 1 = None ->
  exists trace,
    DoRequest cfg env apiReq = Some ((Some a, None), trace) /\
    trace = [Attempted 0; Slept (calculateBackoffDelay 1 DefaultRetryConfig);
             Attempted 1] /\
    calculateBackoffDelay 1 DefaultRetryConfig = 2 * time_Second /\
    attempts trace = 2%nat /\
    slept_before 1 trace = 2 * time_Second.
Proof.
  intros Hcfg Hx0 Hs0 Hx1 Hs1 Hu1 Hok Hctx.
  assert (Heff : effective_config cfg = DefaultRetryConfig)
    by (destruct Hcfg as [-> | ->]; reflexivity).
  eexists. split; [| repeat split; vm_compute; reflexivity].
  unfold DoRequest. rewrite Heff.
  change (Z.to_nat (MaxRetries DefaultRetryConfig + 1)) with 4%nat.
  rewrite DoRequest_loop_eq.
  change (MaxRetries DefaultRetryConfig <? 0) with false.
  change (0 <? 0) with false. cbv iota zeta.
  rewrite Hx0. destruct (executeRequest_429 apiReq r0 Hs0) as [m ->]. unfold fail.
  rewrite ShouldRetry_rate_limit.
  change (MaxRetries DefaultRetryConfig <=? 0) with false.
  change (Int64.add 0 1) with 1. cbv iota. cbn [negb].
  rewrite DoRequest_loop_eq.
  change (MaxRetries DefaultRetryConfig <? 1) with false.
  change (0 <? 1) with true. cbv iota zeta.
  rewrite Hctx, Hx1, (executeRequest_200 apiReq r1 a Hs1 Hu1 Hok).
  reflexivity.
Qed.

Lemma DoRequest_429_then_200_witness :
  exists trace,
    DoRequest None (env_429_200 "2") getMe = Some ((Some ok_envelope, None), trace) /\
    trace = [Attempted 0; Slept (calculateBackoffDelay 1 DefaultRetryConfig);
             Attempted 1] /\
    calculateBackoffDelay 1 DefaultRetryConfig = 2 * time_Second /\
    attempts trace = 2%nat /\
    slept_before 1 trace = 2 * time_Second.
Proof.
  eapply (DoRequest_429_then_200 None (env_429_200 "2") getMe _ _ ok_envelope);
    [left; reflexivity | reflexivity | reflexivity | reflexivity
    | reflexivity | reflexivity | reflexivity | reflexivity].
Defined.




End Executor.

(** ** Webhook signatures *)

Section Signature.

Import utils.

Local Open Scope N_scope.

(** *** The digest is 64 hexadecimal digits *)

Lemma be_bytes_length n x : length (sha256.be_bytes n x) = n.
Proof. induction n as [| n IH]; simpl; [reflexivity | now rewrite IH]. Qed.

Lemma round_length st k : length (fst (sha256.round st k)) = 8%nat.
Proof. destruct st as [v w]. reflexivity. Qed.

Lemma rounds_length ks : ks <> [] ->
  forall st, length (fst (fold_left sha256.round ks st)) = 8%nat.
Proof.
  induction ks as [| k ks IH]; [congruence |]. intros _ st. simpl fold_left.
  destruct ks as [| k' ks'].
  - apply round_length.
  - apply IH. discriminate.
Qed.

Lemma block_length hash blk :
  length hash = 8%nat -> length (sha256.block hash blk) = 8%nat.
Proof.
  intros Hh. unfold sha256.block.
  pose proof (rounds_length sha256.K ltac:(unfold sha256.K; cbn [app]; discriminate)
                (hash, map (fun bs => sha256.be_word bs 0) (sha256.chunks 16 4 blk)))
    as Hv.
  destruct (fold_left sha256.round sha256.K _) as [v w]. simpl in Hv.
  rewrite length_map, length_combine. lia.
Qed.

Lemma fold_left_length {A B} (f : list A -> B -> list A) (n : nat) :
  (forall h b, length h = n -> length (f h b) = n) ->
  forall bs h, length h = n -> length (fold_left f bs h) = n.
Proof.
  intros Hf. induction bs as [| b bs IH]; intros h Hh; cbn [fold_left];
    [assumption |].
  apply IH, Hf, Hh.
Qed.

Lemma blocks_length blks hash :
  length hash = 8%nat -> length (fold_left sha256.block blks hash) = 8%nat.
Proof. apply fold_left_length. exact block_length. Qed.

Lemma concat_be_bytes_length (hash : list N) :
  length (concat (map (sha256.be_bytes 4) hash)) = (4 * length hash)%nat.
Proof.
  induction hash as [| h hash IH]; [reflexivity |].
  cbn [map concat]. rewrite length_app, be_bytes_length, IH. cbn [length]. lia.
Qed.

Lemma Sum256_length msg : length (sha256.Sum256 msg) = 32%nat.
Proof.
  unfold sha256.Sum256. rewrite concat_be_bytes_length, blocks_length; reflexivity.
Qed.

Lemma hmac_Sum_length key msg : length (hmac.Sum key msg) = 32%nat.
Proof. unfold hmac.Sum. apply Sum256_length. Qed.

Lemma digit_is_hex n : is_hex (N_of_ascii (hex.digit n)) = true.
Proof.
  unfold hex.digit. generalize (N.to_nat n). intros k.
  do 17 (destruct k as [| k]; [reflexivity |]). reflexivity.
Qed.

Lemma EncodeToString_length src :
  String.length (hex.EncodeToString src) = (2 * length src)%nat.
Proof. induction src as [| b src IH]; simpl; [reflexivity | rewrite IH; lia]. Qed.

Lemma EncodeToString_hex src :
  Forall (fun b => is_hex b = true) (bytes_of_string (hex.EncodeToString src)).
Proof.
  induction src as [| b src IH]; [constructor |].
  cbn [hex.EncodeToString]. unfold bytes_of_string in *. cbn [list_ascii_of_string map].
  repeat constructor; try apply digit_is_hex. exact IH.
Qed.

Lemma expected_length payload secret :
  String.length (expected payload secret) = 64%nat.
Proof. unfold expected. now rewrite EncodeToString_length, hmac_Sum_length. Qed.

(** *** White space *)

Ltac bool_cases :=
  unfold between in *;
  repeat match goal with
    | H : _ && _ = true |- _ => apply andb_true_iff in H; destruct H
    | H : (_ <=? _) = true |- _ => apply N.leb_le in H
    | H : (_ <=? _) = false |- _ => apply N.leb_gt in H
    | H : (_ <? _) = true |- _ => apply N.ltb_lt in H
    | H : (_ <? _) = false |- _ => apply N.ltb_ge in H
    | H : (_ =? _) = true |- _ => apply N.eqb_eq in H
    | H : (_ =? _) = false |- _ => apply N.eqb_neq in H
    end.

Ltac not_hex :=
  unfold is_hex, between;
  repeat match goal with
    | |- context [?a <=? ?b] => destruct (N.leb_spec a b)
    end; cbn [andb orb]; try reflexivity; lia.

Lemma RuneError_not_space : IsSpace RuneError = false.
Proof. reflexivity. Qed.

(** A byte that is a white space rune on its own is no hex digit. *)
Lemma ascii_space_not_hex b : b < 0x80 -> IsSpace b = true -> is_hex b = false.
Proof.
  intros Hb. unfold IsSpace, between.
  destruct (N.leb_spec b 0xFF); [| lia].
  repeat match goal with
    | |- context [?a <=? ?b] => destruct (N.leb_spec a b)
    | |- context [?a =? ?b] => destruct (N.eqb_spec a b)
    end; cbn [andb orb]; try discriminate; intros _; not_hex.
Qed.

(** The bytes of a white space rune are never hex digits. *)
Lemma DecodeRune_space bs r size :
  DecodeRune bs = (r, size) -> IsSpace r = true ->
  (1 <= size)%nat /\ Forall (fun b => is_hex b = false) (take size bs).
Proof.
  intros Hd Hs. unfold DecodeRune in Hd.
  repeat case_match; simplify_eq;
    try (rewrite RuneError_not_space in Hs; discriminate);
    (split; [lia |]); bool_cases;
    [ repeat constructor; apply ascii_space_not_hex; assumption | .. ];
    repeat constructor; not_hex.
Qed.

Lemma all_space_no_hex fuel : forall bs,
  all_space fuel bs = true -> Forall (fun b => is_hex b = false) bs.
Proof.
  induction fuel as [| fuel IH]; intros bs Hall.
  - destruct bs; [constructor | discriminate].
  - destruct bs as [| b bs']; [constructor |].
    cbn [all_space] in Hall.
    destruct (DecodeRune (b :: bs')) as [r size] eqn:Hd.
    apply andb_true_iff in Hall as [Hs Hrest].
    destruct (DecodeRune_space _ _ _ Hd Hs) as [_ Htake].
    rewrite <- (take_drop size (b :: bs')). apply Forall_app. split; [exact Htake |].
    apply IH, Hrest.
Qed.

(** A string that holds a hex digit is not blank. *)
Lemma hex_not_blank (s : string) (b : N) :
  In b (bytes_of_string s) -> is_hex b = true -> TrimSpace_empty s = false.
Proof.
  intros Hin Hb. unfold TrimSpace_empty.
  destruct (all_space _ _) eqn:Hall; [| reflexivity].
  apply all_space_no_hex in Hall. rewrite Forall_forall in Hall.
  apply list_elem_of_In in Hin. rewrite (Hall b Hin) in Hb. discriminate.
Qed.

(** *** [ValidateWebhookSignature] *)

Lemma bytes_of_string_app (a b : string) :
  bytes_of_string (a +:+ b) = bytes_of_string a ++ bytes_of_string b.
Proof.
  unfold bytes_of_string. induction a as [| c a IH]; [reflexivity |].
  simpl. f_equal. exact IH.
Qed.

Lemma bytes_of_string_length (s : string) :
  length (bytes_of_string s) = String.length s.
Proof.
  unfold bytes_of_string. induction s as [| c s IH]; [reflexivity |].
  simpl. f_equal. exact IH.
Qed.

Lemma bytes_of_string_inj (a b : string) :
  bytes_of_string a = bytes_of_string b -> a = b.
Proof.
  unfold bytes_of_string. revert b.
  induction a as [| c a IH]; intros [| d b]; cbn [list_ascii_of_string map];
    try discriminate; [reflexivity |].
  intros [= Hc Hrest]. f_equal; [| now apply IH].
  rewrite <- (ascii_N_embedding c), <- (ascii_N_embedding d). now rewrite Hc.
Qed.

Lemma hmac_Equal_strings (a b : string) :
  hmac.Equal (bytes_of_string a) (bytes_of_string b) = true <-> a = b.
Proof.
  unfold hmac.Equal. rewrite bool_decide_eq_true. split.
  - apply bytes_of_string_inj.
  - now intros ->.
Qed.

Lemma one_char_change_neq a b : one_char_change a b -> a <> b.
Proof.
  intros (pre & c & c' & suf & Hc & -> & ->) Heq. apply Hc.
  induction pre as [| p pre IH]; cbn [String.append] in Heq.
  - now injection Heq.
  - injection Heq as Heq. now apply IH.
Qed.

(** Changing one character of a digest leaves a string that is still
    not blank. *)
Lemma one_char_change_not_blank payload secret sig' :
  one_char_change (expected payload secret) sig' -> TrimSpace_empty sig' = false.
Proof.
  intros (pre & c & c' & suf & _ & Ha & ->).
  pose proof (expected_length payload secret) as Hlen.
  pose proof (EncodeToString_hex
                (hmac.Sum (bytes_of_string secret) (bytes_of_slice payload))) as Hhex.
  fold (expected payload secret) in Hhex. rewrite Ha in Hhex, Hlen.
  rewrite bytes_of_string_app in Hhex. apply Forall_app in Hhex as [Hpre Hsuf].
  change (String c suf) with (String c "" +:+ suf) in Hsuf.
  rewrite bytes_of_string_app in Hsuf. apply Forall_app in Hsuf as [_ Hsuf].
  rewrite <- bytes_of_string_length, bytes_of_string_app in Hlen.
  change (String c suf) with (String c "" +:+ suf) in Hlen.
  rewrite bytes_of_string_app, !length_app in Hlen. cbn [bytes_of_string] in Hlen.
  destruct (bytes_of_string pre) as [| b bs] eqn:Hp.
  - destruct (bytes_of_string suf) as [| b bs] eqn:Hsf;
      [cbn in Hlen; lia |].
    apply (hex_not_blank _ b).
    + rewrite bytes_of_string_app.
      change (String c' suf) with (String c' "" +:+ suf).
      rewrite bytes_of_string_app, Hsf. apply in_or_app. right.
      apply in_or_app. right. left. reflexivity.
    + now inversion Hsuf.
  - apply (hex_not_blank _ b).
    + rewrite bytes_of_string_app, Hp. left. reflexivity.
    + now inversion Hpre.
Qed.

(** C4, counterexample: a secret made of one space is not empty, and the
    signature is the digest of the payload under it, yet the call fails,
    with the empty-secret error. *)
Lemma blank_secret_rejected :
  let payload := [Byte.x78] in
  let secret := " "%string in
  let signature :=
    "75824c7fe6890887edf27ff0a27cf4c05949a671b43bb3cae7c6f941335781d4"%string in
  payload <> [] /\ signature <> ""%string /\ secret <> ""%string /\
  signature = expected payload secret /\
  ValidateWebhookSignature payload signature secret = Some ErrEmptySecret.
Proof.
  cbv zeta. split; [discriminate |]. split; [discriminate |].
  split; [discriminate |]. split; vm_compute; reflexivity.
Qed.

(** C4, amended: "empty" for the signature and the secret means empty
    once trimmed of white space.  Signature verification returns nil
    exactly when the payload is not empty, the signature and the secret
    are not blank, and the signature is the hex digest; otherwise it
    fails with the first that applies of the four sentinel errors, which
    are pairwise distinct: empty payload, blank signature, blank secret,
    mismatch.  Changing one character of an accepted signature gives the
    mismatch error. *)
Theorem ValidateWebhookSignature_cases (payload : list Byte.byte)
    (signature secret : string) :
  let validate := ValidateWebhookSignature payload in
  (validate signature secret = None <->
     payload <> [] /\ TrimSpace_empty signature = false /\
     TrimSpace_empty secret = false /\ signature = expected payload secret) /\
  (validate signature secret = Some ErrEmptyPayload <-> payload = []) /\
  (validate signature secret = Some ErrEmptySignature <->
     payload <> [] /\ TrimSpace_empty signature = true) /\
  (validate signature secret = Some ErrEmptySecret <->
     payload <> [] /\ TrimSpace_empty signature = false /\
     TrimSpace_empty secret = true) /\
  (validate signature secret = Some ErrInvalidSignature <->
     payload <> [] /\ TrimSpace_empty signature = false /\
     TrimSpace_empty secret = false /\ signature <> expected payload secret) /\
  NoDup [ErrEmptyPayload; ErrEmptySignature; ErrEmptySecret; ErrInvalidSignature] /\
  TrimSpace_empty "" = true /\
  (forall signature',
     validate signature secret = None ->
     one_char_change signature signature' ->
     validate signature' secret = Some ErrInvalidSignature).
Proof.
  cbv zeta.
  assert (Hmain : forall sig,
    ValidateWebhookSignature payload sig secret =
    match payload with
    | [] => Some ErrEmptyPayload
    | _ :: _ =>
        if TrimSpace_empty sig then Some ErrEmptySignature
        else if TrimSpace_empty secret then Some ErrEmptySecret
        else if bool_decide (sig = expected payload secret) then None
        else Some ErrInvalidSignature
    end).
  { intros sig. unfold ValidateWebhookSignature, VerifyWebhookSignature.
    destruct payload as [| b p]; [reflexivity |]. cbn [length Nat.eqb orb].
    destruct (TrimSpace_empty sig); [reflexivity |].
    destruct (TrimSpace_empty secret); [reflexivity |]. cbn [orb].
    destruct (hmac.Equal _ _) eqn:He.
    - apply hmac_Equal_strings in He. now rewrite bool_decide_eq_true_2.
    - rewrite bool_decide_eq_false_2; [reflexivity |].
      intros Heq. apply hmac_Equal_strings in Heq. congruence. }
  assert (Hnil : ValidateWebhookSignature payload signature secret = None <->
     payload <> [] /\ TrimSpace_empty signature = false /\
     TrimSpace_empty secret = false /\ signature = expected payload secret).
  { rewrite Hmain. destruct payload as [| b p]; [split; [discriminate | tauto] |].
    destruct (TrimSpace_empty signature);
      [split; [discriminate | intros (_ & ? & _); discriminate] |].
    destruct (TrimSpace_empty secret);
      [split; [discriminate | intros (_ & _ & ? & _); discriminate] |].
    case_bool_decide; split; try discriminate; try tauto.
    intros _. repeat split; [discriminate | assumption]. }
  split; [exact Hnil |].
  repeat split.
  - rewrite Hmain. destruct payload; [reflexivity |]. repeat case_match; discriminate.
  - intros ->. reflexivity.
  - rewrite Hmain in H. destruct payload; [discriminate | discriminate].
  - rewrite Hmain in H. destruct payload; [discriminate |].
    destruct (TrimSpace_empty signature); [reflexivity |].
    repeat case_match; discriminate.
  - intros (Hp & Hs). rewrite Hmain. destruct payload; [congruence |]. now rewrite Hs.
  - rewrite Hmain in H. destruct payload; [discriminate | discriminate].
  - rewrite Hmain in H. destruct payload; [discriminate |].
    destruct (TrimSpace_empty signature); [discriminate | reflexivity].
  - rewrite Hmain in H. destruct payload; [discriminate |].
    destruct (TrimSpace_empty signature); [discriminate |].
    destruct (TrimSpace_empty secret); [reflexivity |].
    repeat case_match; discriminate.
  - intros (Hp & Hs & Hk). rewrite Hmain. destruct payload; [congruence |].
    now rewrite Hs, Hk.
  - rewrite Hmain in H. destruct payload; [discriminate | discriminate].
  - rewrite Hmain in H. destruct payload; [discriminate |].
    destruct (TrimSpace_empty signature); [discriminate | reflexivity].
  - rewrite Hmain in H. destruct payload; [discriminate |].
    destruct (TrimSpace_empty signature); [discriminate |].
    destruct (TrimSpace_empty secret); [discriminate | reflexivity].
  - rewrite Hmain in H. destruct payload; [discriminate |].
    destruct (TrimSpace_empty signature); [discriminate |].
    destruct (TrimSpace_empty secret); [discriminate |].
    case_bool_decide; [discriminate | assumption].
  - intros (Hp & Hs & Hk & Hne). rewrite Hmain. destruct payload; [congruence |].
    rewrite Hs, Hk. now rewrite bool_decide_eq_false_2.
  - repeat constructor; rewrite ?list_elem_of_In; cbn [In];
      intros H; repeat destruct H as [H | H]; try discriminate; assumption.
  - intros sig' Hok Hchg. apply Hnil in Hok as (Hp & Hs & Hk & ->).
    rewrite Hmain. destruct payload; [congruence |].
    rewrite (one_char_change_not_blank _ _ _ Hchg), Hk.
    rewrite bool_decide_eq_false_2; [reflexivity |].
    intros ->. now apply (one_char_change_neq _ _ Hchg).
Qed.

(** The secret "s": the digest is accepted, and the digest with its
    first character changed from c to d is a mismatch. *)
Lemma ValidateWebhookSignature_cases_witness :
  ValidateWebhookSignature [Byte.x78]
    "defb105ee22996fb167ed606478d2931b87aa3ab99b4b04b68c4fc16c8b49a30" "s"
  = Some ErrInvalidSignature.
Proof.
  pose proof (ValidateWebhookSignature_cases [Byte.x78]
    "cefb105ee22996fb167ed606478d2931b87aa3ab99b4b04b68c4fc16c8b49a30" "s") as H.
  cbv zeta in H. destruct H as (_ & _ & _ & _ & _ & _ & _ & H).
  apply H.
  - vm_compute. reflexivity.
  - exists ""%string, "c"%char, "d"%char,
      "efb105ee22996fb167ed606478d2931b87aa3ab99b4b04b68c4fc16c8b49a30"%string.
    split; [discriminate | split; reflexivity].
Defined.

End Signature.

(** ** The polling engine *)

Section Polling.

Import zalobot.

Lemma advance_max (offset : Z) (u : Update) :
  valid_id u -> advance offset u = Z.max offset (UpdateID u + 1).
Proof.
  unfold valid_id, advance, Int64.add. intros Hu.
  rewrite wrap_small by (unfold Int64.in_range; lia).
  destruct (Z.leb_spec offset (UpdateID u)); lia.
Qed.

Lemma step_offset ev b l b' l' :
  step ev (b, l) = Some (b', l') ->
  offset l' = offset l \/
  exists u rest n, ev = EvSent /\ at_ l = Sending (u :: rest) n /\
                   offset l' = advance (offset l) u.
Proof.
  unfold step, exit_. intros H.
  destruct ev; repeat case_match; simplify_option_eq; eauto 10.
Qed.

Lemma step_pending ev b l b' l' :
  step ev (b, l) = Some (b', l') ->
  forall u, In u (pending l') -> In u (pending l) \/ In u (fetched ev).
Proof.
  unfold step, exit_, pending, after_batch. intros H u.
  destruct ev; repeat case_match; simplify_option_eq;
    cbn [at_ set_pc set_offset set_cancelled fetched In] in *;
    try tauto; try congruence.
  all: repeat match goal with
         | H1 : at_ ?l = _, H2 : at_ ?l = _ |- _ => rewrite H1 in H2; simplify_eq
         end; cbn [In] in *; tauto.
Qed.

Lemma step_monotone ev b l b' l' :
  step ev (b, l) = Some (b', l') ->
  Forall valid_id (pending l) ->
  offset l <= offset l'.
Proof.
  intros Hstep Hvalid.
  destruct (step_offset _ _ _ _ _ Hstep) as [-> | (u & rest & n & _ & Hat & ->)];
    [lia |].
  unfold pending in Hvalid. rewrite Hat in Hvalid.
  rewrite advance_max by (now inversion Hvalid). lia.
Qed.

Lemma run_monotone evs : forall s s',
  run evs s = Some s' ->
  Forall valid_id (pending (snd s)) ->
  Forall (fun ev => Forall valid_id (fetched ev)) evs ->
  offset (snd s) <= offset (snd s').
Proof.
  induction evs as [| ev evs IH]; intros [b l] s' Hrun Hp Hf; cbn [run] in Hrun.
  - injection Hrun as <-. lia.
  - destruct (step ev (b, l)) as [[b1 l1] |] eqn:Hstep; [| discriminate].
    cbn in Hrun. apply Forall_cons in Hf as [Hev Hf].
    pose proof (step_monotone _ _ _ _ _ Hstep Hp) as H1.
    assert (Hp1 : Forall valid_id (pending l1)).
    { apply Forall_forall. intros u Hu. apply list_elem_of_In in Hu.
      destruct (step_pending _ _ _ _ _ Hstep u Hu) as [Hin | Hin];
        [rewrite Forall_forall in Hp; apply Hp
        | rewrite Forall_forall in Hev; apply Hev];
        now apply list_elem_of_In. }
    specialize (IH (b1, l1) s' Hrun Hp1 Hf). cbn [snd] in *. lia.
Qed.

(** Publishing a whole batch folds [advance] over it. *)
Lemma run_sends us : forall b l n b' l',
  at_ l = Sending us n ->
  run (repeat EvSent (length us)) (b, l) = Some (b', l') ->
  offset l' = fold_left advance us (offset l).
Proof.
  induction us as [| u us IH]; intros b l n b' l' Hat Hrun.
  - cbn in Hrun. now injection Hrun as _ <-.
  - cbn [length repeat run] in Hrun.
    destruct (step EvSent (b, l)) as [[b1 l1] |] eqn:Hstep; [| discriminate].
    cbn in Hrun. unfold step in Hstep. rewrite Hat in Hstep.
    destruct (send u b) as [b2 |]; [| discriminate]. cbn in Hstep.
    injection Hstep as <- <-. cbn [fold_left].
    destruct us as [| u' us'].
    + cbn in Hrun. now injection Hrun as _ <-.
    + apply (IH _ _ n) in Hrun; [| reflexivity]. exact Hrun.
Qed.

(** C1, counterexample: an update whose id is the largest Go int.  Its
    successor wraps around, and the offset falls from 0 to [-2^63]. *)
Lemma offset_wraps :
  exists b' l',
    run [EvDefault; EvFetched (inl [update Int64.MaxInt]); EvSent] started
      = Some (b', l') /\
    offset (snd started) = 0 /\
    offset l' = Int64.MinInt /\
    offset l' < offset (snd started) /\
    offset l' <> Z.max (offset (snd started)) (Int64.MaxInt + 1).
Proof.
  eexists _, _. split; [vm_compute; reflexivity |].
  repeat split; vm_compute; congruence.
Qed.

(** C1, amended: as long as every update id handed to the loop is below
    the largest Go int, the offset never decreases, along any run of
    the loop; a published update moves it to [max(offset, id + 1)];
    nothing but a publish changes it, so a failed poll cycle leaves it as
    it is; and from an offset of at most 3, publishing a batch with the
    ids 3, 5, 5, 7 leaves it at 8. *)
Theorem offset_monotone :
  (forall evs s s',
     run evs s = Some s' ->
     Forall valid_id (pending (snd s)) ->
     Forall (fun ev => Forall valid_id (fetched ev)) evs ->
     offset (snd s) <= offset (snd s')) /\
  (forall b l u rest n b' l',
     at_ l = Sending (u :: rest) n -> valid_id u ->
     step EvSent (b, l) = Some (b', l') ->
     offset l' = Z.max (offset l) (UpdateID u + 1)) /\
  (forall ev b l b' l',
     ev <> EvSent ->
     step ev (b, l) = Some (b', l') ->
     offset l' = offset l) /\
  (forall b l err,
     at_ l = Fetching -> cancelled l = false ->
     step (EvFetched (inr err)) (b, l) = Some (b, set_pc l ErrWait)) /\
  (forall b l us n b' l',
     at_ l = Sending us n ->
     map UpdateID us = [3; 5; 5; 7] ->
     offset l <= 3 ->
     run [EvSent; EvSent; EvSent; EvSent] (b, l) = Some (b', l') ->
     offset l' = 8).
Proof.
  split; [exact run_monotone |]. split; [| split; [| split]].
  - intros b l u rest n b' l' Hat Hu Hstep.
    destruct (step_offset _ _ _ _ _ Hstep) as [Heq | (u' & r' & n' & _ & Hat' & ->)].
    + unfold step in Hstep. rewrite Hat in Hstep.
      destruct (send u b); [| discriminate]. cbn in Hstep.
      injection Hstep as _ <-. cbn [offset set_pc set_offset].
      now apply advance_max.
    + rewrite Hat in Hat'. injection Hat' as <- _ _. now apply advance_max.
  - intros ev b l b' l' Hev Hstep.
    destruct (step_offset _ _ _ _ _ Hstep) as [Heq | (u & r & n & -> & _)];
      [exact Heq | congruence].
  - intros b l err Hat Hc. unfold step. now rewrite Hat, Hc.
  - intros b l us n b' l' Hat Hids Hoff Hrun.
    destruct us as [| u1 [| u2 [| u3 [| u4 [| u5 us]]]]]; try discriminate Hids.
    injection Hids as H1 H2 H3 H4.
    rewrite (run_sends [u1; u2; u3; u4] b l n b' l' Hat Hrun).
    cbn [fold_left].
    rewrite !advance_max by (unfold valid_id, Int64.MinInt, Int64.MaxInt; lia).
    lia.
Qed.

Lemma offset_monotone_witness :
  match run [EvDefault; EvFetched (inl batch); EvSent; EvSent; EvSent; EvSent]
            started with
  | Some s' => offset (snd started) <= offset (snd s')
  | None => False
  end /\
  match run [EvSent; EvSent; EvSent; EvSent] publishing with
  | Some s' => offset (snd s') = 8
  | None => False
  end.
Proof.
  destruct offset_monotone as (Hmono & _ & _ & _ & Hbatch). split.
  - destruct (run _ started) as [s' |] eqn:Hrun;
      [| vm_compute in Hrun; discriminate].
    apply (Hmono _ _ _ Hrun).
    + exact (List.Forall_nil _).
    + unfold batch.
      repeat first [ exact (List.Forall_nil _) | apply List.Forall_cons ];
        unfold valid_id; vm_compute; split; congruence.
  - destruct (run _ publishing) as [[b' l'] |] eqn:Hrun;
      [| vm_compute in Hrun; discriminate].
    apply (Hbatch (fst publishing) (snd publishing) batch 4%nat b' l');
      [reflexivity | reflexivity | vm_compute; discriminate | exact Hrun].
Defined.

(** *** Starting *)

Lemma Validate_nil (uc : UpdateConfig) : snd (Validate uc) = None.
Proof. reflexivity. Qed.

(** Whatever the engine was, after [GetUpdatesChan] it is polling, and
    the channel returned is the one it publishes to. *)
Lemma GetUpdatesChan_polling (config : UpdateConfig) (b : BotAPI) :
  forall ch b' l,
    GetUpdatesChan config b = (ch, b', l) ->
    isPolling b' = true /\ updatesChan b' = Some ch.
Proof.
  intros ch b' l. unfold GetUpdatesChan.
  cbv beta delta [Validate] zeta iota.
  destruct (isPolling b) eqn:Hp, (updatesChan b) as [c |] eqn:Hc;
    [ intros [= <- <- <-]; auto | ..];
    unfold make_updates_chan, make_stop_chan; cbn -[Int64.add];
    destruct (stopPollingCh b); cbn -[Int64.add]; intros [= <- <- <-];
    cbn -[Int64.add]; rewrite ?Hc; auto.
Qed.

Lemma GetUpdatesChan_running (config : UpdateConfig) (b : BotAPI) (ch : chan) :
  isPolling b = true -> updatesChan b = Some ch ->
  GetUpdatesChan config b = (ch, b, None).
Proof.
  intros Hp Hc. unfold GetUpdatesChan. cbv beta delta [Validate] zeta iota.
  now rewrite Hp, Hc.
Qed.

Lemma calls_running configs : forall b ch,
  isPolling b = true -> updatesChan b = Some ch ->
  calls configs b = (repeat ch (length configs), b, []).
Proof.
  induction configs as [| config rest IH]; intros b ch Hp Hc; [reflexivity |].
  cbn [calls]. rewrite (GetUpdatesChan_running config b ch Hp Hc).
  now rewrite (IH b ch Hp Hc).
Qed.

(** C2: while the engine is polling, [GetUpdatesChan] returns the channel
    the engine publishes to, changes nothing and starts no goroutine,
    for every configuration; so a call that follows another one returns
    the very channel the first call returned, and any number of start
    calls on an engine that was not polling start one loop and return
    one channel. *)
Theorem GetUpdatesChan_idempotent :
  (forall config b ch,
     isPolling b = true -> updatesChan b = Some ch ->
     GetUpdatesChan config b = (ch, b, None)) /\
  (forall config1 config2 b0 ch1 b1 l1,
     GetUpdatesChan config1 b0 = (ch1, b1, l1) ->
     GetUpdatesChan config2 b1 = (ch1, b1, None)) /\
  (forall config configs b0 chs b' ls,
     isPolling b0 = false ->
     calls (config :: configs) b0 = (chs, b', ls) ->
     length ls = 1%nat /\
     exists ch, chs = repeat ch (S (length configs)) /\ updatesChan b' = Some ch
                /\ isPolling b' = true).
Proof.
  split; [exact GetUpdatesChan_running |]. split.
  - intros config1 config2 b0 ch1 b1 l1 H1.
    destruct (GetUpdatesChan_polling _ _ _ _ _ H1) as [Hp Hc].
    now apply GetUpdatesChan_running.
  - intros config configs b0 chs b' ls Hidle Hcalls. cbn [calls] in Hcalls.
    destruct (GetUpdatesChan config b0) as [[ch b1] l] eqn:H1.
    destruct (GetUpdatesChan_polling _ _ _ _ _ H1) as [Hp Hc].
    rewrite (calls_running configs b1 ch Hp Hc) in Hcalls.
    injection Hcalls as <- <- <-.
    assert (Hl : exists l0, l = Some l0).
    { unfold GetUpdatesChan in H1. cbv beta delta [Validate] zeta iota in H1.
      rewrite Hidle in H1. injection H1 as _ _ <-. eauto. }
    destruct Hl as [l0 ->]. split; [reflexivity |]. exists ch. auto.
Qed.

Lemma GetUpdatesChan_idempotent_witness :
  GetUpdatesChan poll_config (fst started) = (1%positive, fst started, None) /\
  fst (fst (calls [poll_config; poll_config; poll_config] New)) = [1; 1; 1]%positive.
Proof.
  destruct GetUpdatesChan_idempotent as (Hrun & _ & Hcalls). split.
  - apply Hrun; reflexivity.
  - destruct (calls _ New) as [[chs b'] ls] eqn:Hc.
    assert (Hidle : isPolling New = false) by reflexivity.
    destruct (Hcalls _ _ _ _ _ _ Hidle Hc) as (_ & ch & -> & _).
    vm_compute in Hc. injection Hc as Hc _ _ _ _. subst ch. reflexivity.
Defined.

(** *** Stopping *)

(** C8: on an engine that is not polling, the critical section of
    [StopPolling] changes nothing, and with no polling goroutine left to
    wait for the call returns at once, the engine (not polling, no
    channel) being as it was; this holds for the engine [New] returns. *)
Theorem StopPolling_idle :
  (forall b, isPolling b = false -> StopPolling_locked b = b) /\
  (forall b, isPolling b = false -> pollingWg b = 0 -> StopPolling b = Returned b) /\
  StopPolling New = Returned New /\
  (isPolling New = false /\ updatesChan New = None).
Proof.
  assert (Hl : forall b, isPolling b = false -> StopPolling_locked b = b).
  { intros b Hp. unfold StopPolling_locked. now rewrite Hp. }
  split; [exact Hl |]. split; [| split; [reflexivity | split; reflexivity]].
  intros b Hp Hwg. unfold StopPolling. now rewrite (Hl b Hp), Hwg.
Qed.

Lemma StopPolling_idle_witness :
  StopPolling stopped = Returned stopped /\
  isPolling stopped = false /\ updatesChan stopped = None.
Proof.
  destruct StopPolling_idle as (_ & H & _). split.
  - apply H; reflexivity.
  - split; reflexivity.
Defined.

(** *** Cancellation, one goroutine at a time *)

(** X18: Once [pollCtx] is cancelled, the [Done] case can be taken at each of
    them, and taking it closes the channel, forgets it, and clears the
    running flag. *)
Lemma cancel_tears_down b l :
  suspended l -> cancelled l = true ->
  step EvDone (b, l) = Some (teardown b, set_pc l Returning) /\
  isPolling (teardown b) = false /\
  updatesChan (teardown b) = None /\
  (forall c st, updatesChan b = Some c -> update_chans b !! c = Some st ->
     exists st', update_chans (teardown b) !! c = Some st' /\ closed st' = true).
Proof.
  intros Hs Hc. unfold suspended in Hs. split; [| split; [| split]].
  - unfold step, exit_. destruct (at_ l); try contradiction; now rewrite Hc.
  - reflexivity.
  - reflexivity.
  - intros c st Hch Hst. unfold teardown. rewrite Hch.
    cbn [update_chans close_updates_chan]. rewrite lookup_alter_eq, Hst.
    eexists. split; reflexivity.
Qed.

(** X19: A cancelled goroutine that has not returned can always move on. *)
Lemma cancelled_progress b l :
  cancelled l = true -> at_ l <> Exited ->
  exists ev s', ev <> EvCancel /\ ev <> EvReceive /\ step ev (b, l) = Some s'.
Proof.
  intros Hc Hat.
  assert (Hdone : exit_ b l = Some (teardown b, set_pc l Returning))
    by (unfold exit_; now rewrite Hc).
  destruct (at_ l) eqn:Hpc; try congruence.
  - exists EvDone. eexists. repeat split; try discriminate.
    unfold step. rewrite Hpc. exact Hdone.
  - exists (EvFetched (inr (types.OtherErr "context canceled"))). eexists.
    repeat split; try discriminate. unfold step. rewrite Hpc, Hc. exact Hdone.
  - exists EvDone. eexists. repeat split; try discriminate.
    unfold step. rewrite Hpc. exact Hdone.
  - exists EvDone. eexists. repeat split; try discriminate.
    unfold step. rewrite Hpc. exact Hdone.
  - exists EvDone. eexists. repeat split; try discriminate.
    unfold step. rewrite Hpc. exact Hdone.
  - exists EvReturn. eexists. repeat split; try discriminate.
    unfold step. rewrite Hpc. reflexivity.
Qed.

(** A full buffer admits no send: with the consumer away, the [Done]
    case is the only way out of the publish. *)
Lemma full_channel_blocks u b c st :
  updatesChan b = Some c -> update_chans b !! c = Some st ->
  (cap st <= length (buf st))%nat ->
  send u b = None.
Proof.
  intros Hc Hst Hfull. unfold send. rewrite Hc. cbn [mbind option_bind].
  rewrite Hst. cbn [mbind option_bind].
  assert ((length (buf st) <? cap st)%nat = false) as ->
    by (apply Nat.ltb_ge; lia).
  now rewrite andb_false_r.
Qed.

End Polling.

(** ** More on the request executor *)

Section ExecutorMore.

Import Float64 types services.

(** X1: [executeRequest] hands back a response exactly when the status is none
    of 429, 401, 403 and the body decodes to an envelope with [ok] set;
    no other status is looked at, and the response is that envelope. *)
Theorem executeRequest_success_iff (apiReq : APIRequest) (x : Exchange)
    (a : APIResponse) :
  executeRequest apiReq x = (Some a, None) <->
  exists resp,
    x = Response resp /\
    StatusCode resp <> 429 /\ StatusCode resp <> 401 /\ StatusCode resp <> 403 /\
    Unmarshal resp = Decoded a /\ OK a = true.
Proof.
  unfold executeRequest, fail, GetError, IsError. split.
  - destruct x as [t | t | t | t | resp]; try discriminate.
    destruct (Z.eqb_spec (StatusCode resp) 429); [discriminate |].
    destruct (Z.eqb_spec (StatusCode resp) 401); [discriminate |].
    destruct (Z.eqb_spec (StatusCode resp) 403); [discriminate |]. cbn [orb].
    destruct (Unmarshal resp) as [a' | t] eqn:Hu.
    + destruct (OK a') eqn:Hok; cbn [negb].
      * intros [= <-]. exists resp. repeat split; assumption.
      * repeat case_match; discriminate.
    + destruct (500 <=? StatusCode resp); discriminate.
  - intros (resp & -> & H429 & H401 & H403 & Hu & Hok).
    destruct (Z.eqb_spec (StatusCode resp) 429); [contradiction |].
    destruct (Z.eqb_spec (StatusCode resp) 401); [contradiction |].
    destruct (Z.eqb_spec (StatusCode resp) 403); [contradiction |]. cbn [orb].
    now rewrite Hu, Hok.
Qed.

(** A 500 whose body is a success envelope is a success. *)
Lemma executeRequest_success_iff_witness :
  executeRequest getMe
    (Response {| StatusCode := 500; Header := ∅; Body := "{}";
                 Unmarshal := Decoded ok_envelope |})
  = (Some ok_envelope, None).
Proof.
  apply executeRequest_success_iff. eexists. split; [reflexivity |].
  cbn [StatusCode Unmarshal]. repeat split; discriminate.
Defined.

(** X2: Once the body of a response has been read, its status is looked at
    before the body is decoded: 429 is a rate-limit error with code 429,
    and 401 and 403 are both an auth error with code 401, whatever the
    headers and the body hold.  The body is read before that: a response
    whose body cannot be read is a network error, whatever its status. *)
Theorem executeRequest_status_before_decoding (apiReq : APIRequest) :
  (forall resp, StatusCode resp = 429 ->
     exists e, executeRequest apiReq (Response resp) = (None, Some (ZaloErr e)) /\
               Type_ e = ErrorTypeRateLimit /\ Code e = 429) /\
  (forall resp, StatusCode resp = 401 \/ StatusCode resp = 403 ->
     exists e, executeRequest apiReq (Response resp) = (None, Some (ZaloErr e)) /\
               Type_ e = ErrorTypeAuth /\ Code e = 401) /\
  (forall text,
     exists e, executeRequest apiReq (ReadBodyError text) = (None, Some (ZaloErr e)) /\
               Type_ e = ErrorTypeNetwork /\
               Message e = ("failed to read response body: " +:+ text)%string).
Proof.
  unfold executeRequest, fail. split; [| split].
  - intros resp ->. cbn. eexists. repeat split.
  - intros resp [-> | ->]; cbn; eexists; repeat split.
  - intros text. eexists. repeat split.
Qed.

Lemma executeRequest_status_before_decoding_witness :
  exists e,
    executeRequest getMe
      (Response {| StatusCode := 403; Header := ∅; Body := "{}";
                   Unmarshal := Decoded ok_envelope |})
    = (None, Some (ZaloErr e)) /\ Type_ e = ErrorTypeAuth /\ Code e = 401.
Proof.
  apply (proj1 (proj2 (executeRequest_status_before_decoding getMe)) _).
  right. reflexivity.
Defined.

(** X3: An envelope gives an error exactly when [ok] is not set, and the error
    follows its [error_code]: 429 is a rate-limit error, 401 and 403 an
    auth error, anything else an API error that keeps the code. *)
Theorem GetError_kinds (r : APIResponse) :
  (GetError r = None <-> OK r = true) /\
  (OK r = false ->
   exists e, GetError r = Some (ZaloErr e) /\ Message e = Description r /\
     (if ErrorCode r =? 429 then Type_ e = ErrorTypeRateLimit /\ Code e = 429
      else if (ErrorCode r =? 401) || (ErrorCode r =? 403)
      then Type_ e = ErrorTypeAuth /\ Code e = 401
      else Type_ e = ErrorTypeAPI /\ Code e = ErrorCode r)).
Proof.
  unfold GetError, IsError. split.
  - destruct (OK r); cbn [negb]; [tauto |].
    repeat case_match; split; discriminate.
  - intros ->. cbn [negb].
    destruct (ErrorCode r =? 429); [eexists; repeat split |].
    destruct ((ErrorCode r =? 401) || (ErrorCode r =? 403)); eexists; repeat split.
Qed.

Lemma GetError_kinds_witness :
  exists e,
    GetError {| OK := false; Result := ""; ErrorCode := 503;
                Description := "unavailable" |} = Some (ZaloErr e) /\
    Type_ e = ErrorTypeAPI /\ Code e = 503.
Proof.
  destruct (proj2 (GetError_kinds {| OK := false; Result := ""; ErrorCode := 503;
                                     Description := "unavailable" |}) eq_refl)
    as (e & He & _ & Hk).
  exists e. split; [exact He | exact Hk].
Defined.

(** *** The shape of a call *)

Lemma calculateBackoffDelay_capped (attempt : Z) (rc : RetryConfig) :
  1 <= attempt -> calculateBackoffDelay attempt rc <= MaxDelay rc.
Proof.
  intros H. unfold calculateBackoffDelay.
  destruct (Z.leb_spec attempt 0); [lia |].
  destruct (Z.ltb_spec (MaxDelay rc) (to_int64 (mul (of_int (InitialDelay rc))
                                         (Pow_int (BackoffFactor rc) attempt)))); lia.
Qed.

Lemma schedule_step rc a :
  (if 0 <? Z.of_nat a
   then before rc a ++ [Slept (calculateBackoffDelay (Z.of_nat a) rc)]
   else before rc a) ++ [Attempted (Z.of_nat a)] = schedule rc a.
Proof.
  destruct a as [| a]; [reflexivity |].
  destruct (Z.ltb_spec 0 (Z.of_nat (S a))); [| lia].
  cbn [before schedule]. now rewrite <- app_assoc.
Qed.

Lemma DoRequest_loop_schedule rc env apiReq :
  MaxRetries rc <= Int64.MaxInt ->
  forall fuel a lastErr res trace,
    Z.of_nat a <= MaxRetries rc ->
    retried_upto rc env apiReq a ->
    DoRequest_loop rc env apiReq fuel (Z.of_nat a) lastErr (before rc a)
      = Some (res, trace) ->
    exists k : nat,
      Z.of_nat k <= MaxRetries rc /\ retried_upto rc env apiReq k /\
      (ended_at rc env apiReq k res trace \/ cut_after rc env k res trace).
Proof.
  intros Hmax. induction fuel as [| fuel IH]; intros a lastErr res trace Ha Hprev;
    rewrite DoRequest_loop_eq; destruct (Z.ltb_spec (MaxRetries rc) (Z.of_nat a));
    try lia; [discriminate |].
  cbv zeta.
  destruct (if 0 <? Z.of_nat a then ctx_done env (Z.of_nat a) else None)
    as [ctxErr |] eqn:Hctx.
  - intros [= <- <-]. destruct a as [| a']; [discriminate Hctx |].
    destruct (Z.ltb_spec 0 (Z.of_nat (S a'))); [| lia].
    exists a'. split; [lia |]. split; [intros j Hj; apply Hprev; lia |].
    right. split; [lia |]. exists ctxErr. auto.
  - rewrite schedule_step.
    destruct (executeRequest apiReq (exchange env (Z.of_nat a))) as [resp [err |]] eqn:Hex.
    + assert (Hresp : resp = None).
      { destruct (executeRequest_cases apiReq (exchange env (Z.of_nat a)))
          as [(r & Hr) | (e & He)]; rewrite Hex in *; congruence. }
      subst resp.
      destruct (ShouldRetry rc err) eqn:Hsr; cbn [negb].
      * destruct (Z.leb_spec (MaxRetries rc) (Z.of_nat a)).
        -- intros [= <- <-]. exists a. split; [lia |]. split; [exact Hprev |].
           left. repeat split; [now rewrite Hex | intros e' _; right; lia].
        -- replace (Int64.add (Z.of_nat a) 1) with (Z.of_nat (S a))
             by (unfold Int64.add; rewrite wrap_small;
                 [lia | unfold Int64.in_range, Int64.MinInt, Int64.MaxInt in *; lia]).
           change (schedule rc a) with (before rc (S a)).
           apply IH; [lia |].
           intros j Hj. destruct (Nat.eq_dec j a) as [-> | Hne];
             [eauto | apply Hprev; lia].
      * intros [= <- <-]. exists a. split; [lia |]. split; [exact Hprev |].
        left. repeat split; [now rewrite Hex |].
        intros e' [= <-]. left. exact Hsr.
    + intros [= <- <-]. exists a. split; [lia |]. split; [exact Hprev |].
      left. repeat split; [now rewrite Hex | discriminate].
Qed.

Lemma DoRequest_trace (cfg : option RetryConfig) (env : Env)
    (apiReq : APIRequest) (res : result) (trace : list Event) :
  0 <= MaxRetries (effective_config cfg) <= Int64.MaxInt ->
  DoRequest cfg env apiReq = Some (res, trace) ->
  exists k : nat,
    Z.of_nat k <= MaxRetries (effective_config cfg) /\
    retried_upto (effective_config cfg) env apiReq k /\
    (ended_at (effective_config cfg) env apiReq k res trace \/
     cut_after (effective_config cfg) env k res trace).
Proof.
  intros [H0 Hmax] Hrun.
  exact (DoRequest_loop_schedule _ env apiReq Hmax _ 0%nat None res trace H0
           (fun j Hj => ltac:(lia)) Hrun).
Qed.

(** X4: A call with a [MaxRetries] between 0 and the largest Go int runs
    attempt 0, then for every retry sleeps the backoff delay of that
    retry and makes the attempt, in this order; every attempt but the
    last failed with an error that is retried; it ends with the result of
    its last attempt (a response, an error that is not retried, or the
    error of attempt [MaxRetries]), or with the cancellation error when a
    sleep is cut short. *)
Theorem DoRequest_schedule (cfg : option RetryConfig) (env : Env)
    (apiReq : APIRequest) (res : result) (trace : list Event) :
  let rc := effective_config cfg in
  0 <= MaxRetries rc <= Int64.MaxInt ->
  DoRequest cfg env apiReq = Some (res, trace) ->
  exists k : nat,
    Z.of_nat k <= MaxRetries rc /\ retried_upto rc env apiReq k /\
    (ended_at rc env apiReq k res trace \/ cut_after rc env k res trace).
Proof.
  cbv zeta. intros [H0 Hmax] Hrun. unfold DoRequest in Hrun.
  eapply (DoRequest_loop_schedule _ env apiReq Hmax _ 0%nat None res trace);
    [exact H0 | intros j Hj; lia | exact Hrun].
Qed.

Lemma DoRequest_schedule_witness :
  exists k : nat,
    Z.of_nat k <= 3 /\
    (ended_at DefaultRetryConfig (env_429_200 "2") getMe k (Some ok_envelope, None)
       (schedule DefaultRetryConfig 1) \/
     cut_after DefaultRetryConfig (env_429_200 "2") k (Some ok_envelope, None)
       (schedule DefaultRetryConfig 1)).
Proof.
  assert (Hm : 0 <= MaxRetries (effective_config None) <= Int64.MaxInt)
    by (split; vm_compute; discriminate).
  assert (Hrun : DoRequest None (env_429_200 "2") getMe
                 = Some ((Some ok_envelope, None), schedule DefaultRetryConfig 1))
    by (vm_compute; reflexivity).
  destruct (DoRequest_schedule None (env_429_200 "2") getMe _ _ Hm Hrun)
    as (k & Hk & _ & Hcase).
  exists k. split; [exact Hk | exact Hcase].
Defined.

(** *** How many attempts, how long the sleeps *)

Lemma attempts_app t1 t2 : attempts (t1 ++ t2) = (attempts t1 + attempts t2)%nat.
Proof. unfold attempts. now rewrite List.filter_app, length_app. Qed.

Lemma sleeps_app t1 t2 : sleeps (t1 ++ t2) = sleeps t1 ++ sleeps t2.
Proof. unfold sleeps. apply omap_app. Qed.

Lemma attempts_schedule rc k : attempts (schedule rc k) = S k.
Proof.
  induction k as [| k IH]; [reflexivity |].
  cbn [schedule]. rewrite attempts_app, IH. cbn. lia.
Qed.

Lemma sleeps_schedule rc k :
  length (sleeps (schedule rc k)) = k /\
  Forall (fun d => d <= MaxDelay rc) (sleeps (schedule rc k)).
Proof.
  induction k as [| k [IHl IHf]]; [split; [reflexivity | constructor] |].
  cbn [schedule]. rewrite sleeps_app. split.
  - rewrite length_app, IHl. cbn. lia.
  - apply Forall_app. split; [exact IHf |].
    repeat constructor. apply calculateBackoffDelay_capped. lia.
Qed.

(** X5: A call always returns (for a [MaxRetries] that is a Go int), after at
    most [MaxRetries + 1] attempts and one sleep less than attempts, and
    no sleep is longer than [MaxDelay]. *)
Theorem DoRequest_bounds (cfg : option RetryConfig) (env : Env)
    (apiReq : APIRequest) :
  let rc := effective_config cfg in
  MaxRetries rc <= Int64.MaxInt ->
  exists res trace,
    DoRequest cfg env apiReq = Some (res, trace) /\
    Z.of_nat (attempts trace) <= Z.max 0 (MaxRetries rc + 1) /\
    (length (sleeps trace) <= attempts trace)%nat /\
    Forall (fun d => d <= MaxDelay rc) (sleeps trace).
Proof.
  cbv zeta. intros Hmax.
  destruct (DoRequest_total cfg env apiReq Hmax) as [[res trace] Hrun].
  exists res, trace. split; [exact Hrun |].
  destruct (Z.ltb_spec (MaxRetries (effective_config cfg)) 0) as [Hneg | Hpos].
  - unfold DoRequest in Hrun. rewrite DoRequest_loop_eq in Hrun.
    destruct (Z.ltb_spec (MaxRetries (effective_config cfg)) 0); [| lia].
    injection Hrun as _ <-. cbn. repeat split; [lia | lia | constructor].
  - destruct (DoRequest_trace cfg env apiReq res trace (conj Hpos Hmax) Hrun)
      as (k & Hk & _ & [(-> & _) | (_ & ctxErr & _ & -> & _)]).
    + rewrite attempts_schedule. destruct (sleeps_schedule (effective_config cfg) k)
        as [Hl Hf]. rewrite Hl. repeat split; [lia | lia | exact Hf].
    + rewrite attempts_app, sleeps_app, attempts_schedule.
      destruct (sleeps_schedule (effective_config cfg) k) as [Hl Hf].
      cbn [attempts sleeps omap List.filter length app]. rewrite app_nil_r, Hl.
      repeat split; [lia | lia | exact Hf].
Qed.

Lemma DoRequest_bounds_witness :
  exists res trace,
    DoRequest None (env_429_200 "2") getMe = Some (res, trace) /\
    Z.of_nat (attempts trace) <= Z.max 0 (MaxRetries DefaultRetryConfig + 1) /\
    (length (sleeps trace) <= attempts trace)%nat /\
    Forall (fun d => d <= MaxDelay DefaultRetryConfig) (sleeps trace).
Proof.
  apply (DoRequest_bounds None (env_429_200 "2") getMe). vm_compute. discriminate.
Defined.

(** *** What a call returns *)

Lemma executeRequest_Some_OK (apiReq : APIRequest) (x : Exchange) (a : APIResponse) :
  executeRequest apiReq x = (Some a, None) -> OK a = true.
Proof.
  unfold executeRequest, fail. intros H.
  destruct x as [t | t | t | t | resp]; try discriminate.
  destruct (StatusCode resp =? 429); [discriminate |].
  destruct (_ || _); [discriminate |].
  destruct (Unmarshal resp) as [r | t]; [| destruct (500 <=? _); discriminate].
  destruct (OK r) eqn:Hok; cbn [negb] in H.
  - now injection H as <-.
  - destruct (GetError r); discriminate.
Qed.

Lemma DoRequest_loop_success rc env apiReq :
  forall fuel attempt lastErr trace a trace',
    DoRequest_loop rc env apiReq fuel attempt lastErr trace
      = Some ((Some a, None), trace') ->
    exists k, executeRequest apiReq (exchange env k) = (Some a, None).
Proof.
  induction fuel as [| fuel IH]; intros attempt lastErr trace a trace';
    rewrite DoRequest_loop_eq; destruct (MaxRetries rc <? attempt);
    try discriminate.
  cbv zeta. destruct (if 0 <? attempt then _ else _); [discriminate |].
  destruct (executeRequest apiReq (exchange env attempt)) as [resp [err |]] eqn:Hex.
  - destruct (negb _); [discriminate |].
    destruct (MaxRetries rc <=? attempt); [discriminate |]. apply IH.
  - intros [= -> _]. eauto.
Qed.

(** X6: A response is returned only with a nil error and only when some
    attempt got an envelope with [ok] set, which is the response; and a
    nil response comes with a nil error exactly when [MaxRetries] is
    negative, in which case nothing was attempted. *)
Theorem DoRequest_results (cfg : option RetryConfig) (env : Env)
    (apiReq : APIRequest) :
  let rc := effective_config cfg in
  (forall a err trace,
     DoRequest cfg env apiReq = Some ((Some a, err), trace) ->
     err = None /\ OK a = true /\
     exists k, executeRequest apiReq (exchange env k) = (Some a, None)) /\
  (forall trace,
     DoRequest cfg env apiReq = Some ((None, None), trace) <->
     MaxRetries rc < 0 /\ trace = []).
Proof.
  cbv zeta. split.
  - intros a err trace Hrun.
    assert (Herr : err = None).
    { destruct err as [e |]; [| reflexivity]. exfalso.
      unfold DoRequest in Hrun. revert Hrun.
      generalize (Z.to_nat (MaxRetries (effective_config cfg) + 1)) 0
        (@None error) (@nil Event).
      induction n as [| fuel IH]; intros attempt lastErr tr;
        rewrite DoRequest_loop_eq;
        destruct (MaxRetries (effective_config cfg) <? attempt); try discriminate.
      cbv zeta. destruct (if 0 <? attempt then _ else _); [discriminate |].
      destruct (executeRequest apiReq (exchange env attempt)) as [resp [err |]];
        [| discriminate].
      destruct (negb _); [discriminate |].
      destruct (MaxRetries (effective_config cfg) <=? attempt); [discriminate |].
      apply IH. }
    subst err. split; [reflexivity |].
    destruct (DoRequest_loop_success _ _ _ _ _ _ _ _ _ Hrun) as [k Hk].
    split; [| eauto].
    exact (executeRequest_Some_OK _ _ _ Hk).
  - intros trace. split.
    + intros Hrun.
      destruct (Z.ltb_spec (MaxRetries (effective_config cfg)) 0) as [Hneg | Hpos].
      * split; [exact Hneg |]. unfold DoRequest in Hrun.
        rewrite DoRequest_loop_eq in Hrun.
        destruct (Z.ltb_spec (MaxRetries (effective_config cfg)) 0); [| lia].
        now injection Hrun as <-.
      * exfalso. now apply (DoRequest_not_nil_nil cfg env apiReq _ _ Hpos Hrun).
    + intros [Hneg ->]. unfold DoRequest. rewrite DoRequest_loop_eq.
      destruct (Z.ltb_spec (MaxRetries (effective_config cfg)) 0); [reflexivity | lia].
Qed.

Lemma DoRequest_results_witness :
  OK ok_envelope = true /\
  DoRequest (Some retry_negative) (env_429_200 "2") getMe = Some ((None, None), []).
Proof.
  destruct (DoRequest_results None (env_429_200 "2") getMe) as [Hok _].
  destruct (DoRequest_results (Some retry_negative) (env_429_200 "2") getMe)
    as [_ Hnil].
  split.
  - assert (Hrun : DoRequest None (env_429_200 "2") getMe
                   = Some ((Some ok_envelope, None), schedule DefaultRetryConfig 1))
      by (vm_compute; reflexivity).
    exact (proj1 (proj2 (Hok _ _ _ Hrun))).
  - apply Hnil. split; [vm_compute; reflexivity | reflexivity].
Defined.

(** X7: The first attempt decides when it succeeds or fails with an error that
    is not retried: the call returns its result at once, without a sleep
    and without a second attempt. *)
Theorem DoRequest_first_attempt (cfg : option RetryConfig) (env : Env)
    (apiReq : APIRequest) (res : result) :
  let rc := effective_config cfg in
  0 <= MaxRetries rc ->
  executeRequest apiReq (exchange env 0) = res ->
  (forall e, snd res = Some e -> ShouldRetry rc e = false) ->
  DoRequest cfg env apiReq = Some (res, [Attempted 0]).
Proof.
  cbv zeta. intros Hmax Hex Hstop. unfold DoRequest.
  destruct (Z.to_nat (MaxRetries (effective_config cfg) + 1)) as [| fuel] eqn:Hf;
    [lia |].
  rewrite DoRequest_loop_eq.
  destruct (Z.ltb_spec (MaxRetries (effective_config cfg)) 0); [lia |].
  change (0 <? 0) with false. cbv iota zeta. subst res.
  destruct (executeRequest_cases apiReq (exchange env 0)) as [(r & Hr) | (e & He)];
    rewrite Hr || rewrite He; [reflexivity |].
  rewrite He in Hstop. now rewrite (Hstop e eq_refl).
Qed.

(** An HTTP 401 under the default configuration: one attempt. *)
Lemma DoRequest_first_attempt_witness :
  DoRequest None
    {| exchange := fun _ =>
         Response {| StatusCode := 401; Header := ∅; Body := "";
                     Unmarshal := DecodeError "unexpected end of JSON input" |};
       ctx_done := fun _ => None |} getMe
  = Some (fail (NewAuthError "authentication failed: HTTP 401"), [Attempted 0]).
Proof.
  apply DoRequest_first_attempt.
  - vm_compute. discriminate.
  - vm_compute. reflexivity.
  - intros e [= <-]. reflexivity.
Defined.

(** X8: When every attempt fails with an error that is retried and no sleep is
    cut short, the call makes all [MaxRetries + 1] attempts, sleeping
    before each retry, and returns the error of the last one. *)
Theorem DoRequest_exhausted (cfg : option RetryConfig) (env : Env)
    (apiReq : APIRequest) :
  let rc := effective_config cfg in
  0 <= MaxRetries rc <= Int64.MaxInt ->
  (forall k, 0 < k <= MaxRetries rc -> ctx_done env k = None) ->
  (forall k, 0 <= k <= MaxRetries rc ->
     exists e, executeRequest apiReq (exchange env k) = (None, Some e) /\
               ShouldRetry rc e = true) ->
  DoRequest cfg env apiReq
  = Some (executeRequest apiReq (exchange env (MaxRetries rc)),
          schedule rc (Z.to_nat (MaxRetries rc))).
Proof.
  cbv zeta. intros Hmax Hctx Hfail.
  destruct (DoRequest_total cfg env apiReq (proj2 Hmax)) as [[res trace] Hrun].
  rewrite Hrun.
  destruct (DoRequest_trace cfg env apiReq res trace Hmax Hrun)
    as (k & Hk & _ & [(-> & -> & Hlast) | (Hle & ctxErr & Hc & _)]).
  - destruct (Hfail (Z.of_nat k) ltac:(lia)) as (e & He & Hsr).
    destruct (Hlast e He) as [Hno | Heq]; [congruence |].
    rewrite <- Heq, Nat2Z.id. reflexivity.
  - rewrite Hctx in Hc by lia. discriminate.
Qed.

Lemma DoRequest_exhausted_witness :
  DoRequest None
    {| exchange := fun _ => ClientDoError "connection refused";
       ctx_done := fun _ => None |} getMe
  = Some (fail (NewNetworkError "request failed: connection refused"),
          schedule DefaultRetryConfig 3).
Proof.
  apply (DoRequest_exhausted None
           {| exchange := fun _ => ClientDoError "connection refused";
              ctx_done := fun _ => None |} getMe).
  - split; vm_compute; discriminate.
  - reflexivity.
  - intros k _. eexists. split; reflexivity.
Defined.

(** *** Which failures are retried by default *)

(** X9: Under the default configuration an error is retried exactly when it
    is a network error, a rate-limit error, or an API error with a code
    from 500 to 599; an error that is not a [ZaloBotError] always is. *)
Theorem ShouldRetry_default (err : error) :
  ShouldRetry DefaultRetryConfig err = true <->
  match err with
  | OtherErr _ => True
  | ZaloErr e =>
      Type_ e = ErrorTypeNetwork \/ Type_ e = ErrorTypeRateLimit \/
      (Type_ e = ErrorTypeAPI /\ 500 <= Code e < 600)
  end.
Proof.
  destruct err as [e | t]; [| split; reflexivity || trivial].
  unfold ShouldRetry, IsRetryable. cbn [DefaultRetryConfig RetryableErrors existsb].
  destruct (String.eqb_spec (Type_ e) ErrorTypeNetwork) as [-> | Hn];
    [cbn; intuition |].
  destruct (String.eqb_spec (Type_ e) ErrorTypeRateLimit) as [-> | Hr];
    [cbn; intuition |].
  cbn [orb]. destruct (String.eqb_spec (Type_ e) ErrorTypeAPI) as [-> | Ha].
  - rewrite andb_true_iff, Z.leb_le, Z.ltb_lt. intuition; discriminate.
  - split; [discriminate | intuition].
Qed.

Lemma ShouldRetry_default_api (code : Z) (m d : string) :
  ShouldRetry DefaultRetryConfig (ZaloErr (NewAPIError code m d))
  = (500 <=? code) && (code <? 600).
Proof. reflexivity. Qed.

Lemma ShouldRetry_default_auth (m : string) :
  ShouldRetry DefaultRetryConfig (ZaloErr (NewAuthError m)) = false.
Proof. reflexivity. Qed.

(** X10: What a failed exchange means for the retry loop under the default
    configuration: transport failures and 429 are retried, a body that
    cannot be marshalled and 401 or 403 are not, and a response that
    cannot be decoded is retried exactly for a status from 500 to 599. *)
Theorem default_retries_by_exchange (apiReq : APIRequest) :
  let retried x :=
    match executeRequest apiReq x with
    | (_, Some err) => ShouldRetry DefaultRetryConfig err
    | (_, None) => false
    end in
  (forall t, retried (MarshalError t) = false) /\
  (forall t, retried (NewRequestError t) = true /\ retried (ClientDoError t) = true
             /\ retried (ReadBodyError t) = true) /\
  (forall resp, StatusCode resp = 429 -> retried (Response resp) = true) /\
  (forall resp, StatusCode resp = 401 \/ StatusCode resp = 403 ->
                retried (Response resp) = false) /\
  (forall resp t,
     StatusCode resp <> 429 -> StatusCode resp <> 401 -> StatusCode resp <> 403 ->
     Unmarshal resp = DecodeError t ->
     (retried (Response resp) = true <-> 500 <= StatusCode resp < 600)).
Proof.
  cbv zeta. split; [reflexivity |]. split; [intros t; repeat split |].
  split; [| split].
  - intros resp Hs. destruct (executeRequest_429 apiReq resp Hs) as [m ->].
    apply ShouldRetry_rate_limit.
  - intros resp Hs. unfold executeRequest.
    assert ((StatusCode resp =? 429) = false) as ->
      by (apply Z.eqb_neq; lia).
    assert ((StatusCode resp =? 401) || (StatusCode resp =? 403) = true) as ->
      by (destruct Hs as [-> | ->]; reflexivity).
    apply ShouldRetry_default_auth.
  - intros resp t H429 H401 H403 Hu. unfold executeRequest, fail.
    destruct (Z.eqb_spec (StatusCode resp) 429); [contradiction |].
    destruct (Z.eqb_spec (StatusCode resp) 401); [contradiction |].
    destruct (Z.eqb_spec (StatusCode resp) 403); [contradiction |].
    cbn [orb]. rewrite Hu.
    destruct (Z.leb_spec 500 (StatusCode resp)); rewrite ShouldRetry_default_api,
      andb_true_iff, Z.leb_le, Z.ltb_lt; lia.
Qed.

Lemma default_retries_by_exchange_witness :
  match executeRequest getMe
          (Response {| StatusCode := 502; Header := ∅; Body := "Bad Gateway";
                       Unmarshal := DecodeError "invalid character" |}) with
  | (_, Some err) => ShouldRetry DefaultRetryConfig err
  | (_, None) => false
  end = true.
Proof.
  destruct (default_retries_by_exchange getMe) as (_ & _ & _ & _ & H).
  apply (H _ "invalid character"%string); cbn [StatusCode Unmarshal];
    try discriminate; [reflexivity | lia].
Defined.

End ExecutorMore.
(** ** The engine and its goroutines *)

Section EngineInvariant.

Import zalobot.

Lemma wrap_add_l a b : Int64.add (Int64.wrap a) b = Int64.wrap (a + b).
Proof.
  unfold Int64.add, Int64.wrap, Int64.modulus.
  replace ((a + 2 ^ 63) mod 2 ^ 64 - 2 ^ 63 + b + 2 ^ 63)
    with ((a + 2 ^ 63) mod 2 ^ 64 + b) by lia.
  rewrite Zplus_mod_idemp_l. f_equal. f_equal. lia.
Qed.

Lemma filter_insert_count {A} (f : A -> bool) (ls : list A) : forall i l l',
  ls !! i = Some l ->
  (length (List.filter f (<[i := l']> ls)) + Nat.b2n (f l)
   = length (List.filter f ls) + Nat.b2n (f l'))%nat.
Proof.
  induction ls as [| x ls IH]; intros [| i] l l' H; try discriminate.
  - injection H as ->. cbn. destruct (f l), (f l'); cbn; lia.
  - change (ls !! i = Some l) in H. specialize (IH i l l' H).
    change (<[S i := l']> (x :: ls)) with (x :: <[i := l']> ls).
    cbn [List.filter]. destruct (f x); cbn [length]; lia.
Qed.

Lemma Validate_fst_snd (config : UpdateConfig) :
  Validate config = (fst (Validate config), None).
Proof. reflexivity. Qed.

(** *** The channel fields *)

Ltac fields :=
  cbn [make_updates_chan make_stop_chan isPolling updatesChan stopPollingCh
       update_chans stop_chans next_chan
       pollingWg ctx_cancelled closed buf cap length].

Lemma send_ok u b b' :
  send u b = Some b' -> channels_ok b ->
  channels_ok b' /\ isPolling b' = isPolling b /\ pollingWg b' = pollingWg b.
Proof.
  unfold send. intros H (H1 & H2 & H3 & H4 & H5).
  destruct (updatesChan b) as [c |] eqn:Hc; [| discriminate]. cbn [mbind option_bind] in H.
  destruct (update_chans b !! c) as [st |] eqn:Hst; [| discriminate]. cbn [mbind option_bind] in H.
  destruct (negb (closed st) && (length (buf st) <? cap st)%nat) eqn:Hroom;
    [| discriminate].
  injection H as <-. apply andb_true_iff in Hroom as [Hopen Hlt].
  apply Nat.ltb_lt in Hlt.
  destruct (H2 c eq_refl) as (st0 & Hst0 & Hcl & _ & Hcap).
  rewrite Hst in Hst0. injection Hst0 as <-.
  repeat split; fields.
  - exact (proj1 H1).
  - exact (proj2 H1).
  - intros c0 [= <-]. eexists. rewrite lookup_insert_eq. split; [reflexivity |].
    fields. rewrite length_app. cbn [length]. repeat split; [exact Hcl | lia | exact Hcap].
  - exact H3.
  - intros c0 [Hs | Hs]; apply H4; [left | right; exact Hs].
    destruct (decide (c0 = c)) as [-> | Hne]; [now exists st |].
    now rewrite lookup_insert_ne in Hs.
  - intros c0 st0 Hs Hopen0.
    destruct (decide (c0 = c)) as [-> | Hne]; [reflexivity |].
    rewrite lookup_insert_ne in Hs by congruence.
    exact (H5 c0 st0 Hs Hopen0).
Qed.

Lemma consume_ok c b b' :
  consume c b = Some b' -> channels_ok b ->
  channels_ok b' /\ isPolling b' = isPolling b /\ pollingWg b' = pollingWg b.
Proof.
  unfold consume. intros H (H1 & H2 & H3 & H4 & H5).
  destruct (update_chans b !! c) as [st |] eqn:Hst; [| discriminate]. cbn [mbind option_bind] in H.
  destruct (buf st) as [| u rest] eqn:Hbuf; [discriminate |].
  injection H as <-.
  repeat split; fields.
  - exact (proj1 H1).
  - exact (proj2 H1).
  - intros c0 Hc0. destruct (H2 c0 Hc0) as (st0 & Hst0 & Hcl & Hlen & Hcap).
    destruct (decide (c0 = c)) as [-> | Hne].
    + rewrite Hst in Hst0. injection Hst0 as <-.
      eexists. rewrite lookup_insert_eq. split; [reflexivity |].
      rewrite Hbuf in Hlen. fields. cbn [length] in Hlen. repeat split; [exact Hcl | lia | exact Hcap].
    + exists st0. now rewrite lookup_insert_ne.
  - exact H3.
  - intros c0 [Hs | Hs]; apply H4; [left | right; exact Hs].
    destruct (decide (c0 = c)) as [-> | Hne]; [now exists st |].
    now rewrite lookup_insert_ne in Hs.
  - intros c0 st0 Hs Hopen0.
    destruct (decide (c0 = c)) as [-> | Hne].
    + rewrite lookup_insert_eq in Hs. injection Hs as <-. exact (H5 c st Hst Hopen0).
    + rewrite lookup_insert_ne in Hs by congruence. exact (H5 c0 st0 Hs Hopen0).
Qed.

Lemma receive_consume b :
  receive b = c ← updatesChan b; consume c b.
Proof. reflexivity. Qed.

Lemma receive_ok b b' :
  receive b = Some b' -> channels_ok b ->
  channels_ok b' /\ isPolling b' = isPolling b /\ pollingWg b' = pollingWg b.
Proof.
  rewrite receive_consume. destruct (updatesChan b) as [c |]; [| discriminate].
  apply consume_ok.
Qed.

Lemma teardown_ok b :
  channels_ok b ->
  channels_ok (teardown b) /\ isPolling (teardown b) = false /\
  pollingWg (teardown b) = pollingWg b.
Proof.
  intros (H1 & H2 & H3 & H4 & H5). unfold teardown, close_updates_chan.
  destruct (updatesChan b) as [c |] eqn:Hc; repeat split; fields;
    try discriminate; try (intros []; discriminate); try exact H3.
  - intros c0 [Hs | Hs]; apply H4; [left | right; exact Hs].
    destruct (decide (c0 = c)) as [-> | Hne].
    + rewrite lookup_alter_eq in Hs. now apply fmap_is_Some in Hs.
    + now rewrite lookup_alter_ne in Hs.
  - intros c0 st0 Hs Hopen0. exfalso.
    destruct (decide (c0 = c)) as [-> | Hne].
    + rewrite lookup_alter_eq in Hs.
      destruct (update_chans b !! c) as [st |]; [| discriminate].
      injection Hs as <-. discriminate Hopen0.
    + rewrite lookup_alter_ne in Hs by congruence.
      pose proof (H5 c0 st0 Hs Hopen0). congruence.
  - exact H4.
  - intros c0 st0 Hs Hopen0. exact (H5 c0 st0 Hs Hopen0).
Qed.

Lemma StopPolling_locked_ok b :
  channels_ok b ->
  channels_ok (StopPolling_locked b) /\
  isPolling (StopPolling_locked b) = isPolling b /\
  pollingWg (StopPolling_locked b) = pollingWg b.
Proof.
  intros Hok. unfold StopPolling_locked.
  destruct (isPolling b) eqn:Hp; [| now rewrite Hp].
  destruct (stopPollingCh b) as [c |] eqn:Hc; [| now rewrite Hp].
  destruct Hok as (H1 & H2 & H3 & H4 & H5).
  repeat split; fields; try exact H2; try exact H5; try discriminate;
    try (intros _; exact (proj1 H1 Hp)).
  intros c0 [Hs | Hs]; apply H4; [left; exact Hs | right].
  destruct (decide (c0 = c)) as [-> | Hne]; [exists false; exact (H3 c Hc) |].
  now rewrite lookup_insert_ne in Hs.
Qed.

(** A start call on an engine that is polling changes nothing; on one that
    is not, it makes a new output channel at a fresh address and starts
    one goroutine. *)
Lemma GetUpdatesChan_cases (config : UpdateConfig) (b : BotAPI) :
  channels_ok b ->
  (isPolling b = true /\
   exists c, updatesChan b = Some c /\ GetUpdatesChan config b = (c, b, None)) \/
  (isPolling b = false /\
   exists b',
     GetUpdatesChan config b
       = (next_chan b, b', Some (pollUpdates_init b' (fst (Validate config)))) /\
     channels_ok b' /\ isPolling b' = true /\
     updatesChan b' = Some (next_chan b) /\
     update_chans b !! next_chan b = None /\
     update_chans b' !! next_chan b
       = Some {| buf := []; cap := 100; closed := false |} /\
     pollingWg b' = Int64.add (pollingWg b) 1).
Proof.
  intros (H1 & H2 & H3 & H4 & H5). unfold GetUpdatesChan.
  rewrite (Validate_fst_snd config).
  destruct (isPolling b) eqn:Hp.
  - left. split; [reflexivity |].
    destruct (proj1 H1 eq_refl) as [c Hc]. exists c. now rewrite Hc.
  - right. split; [reflexivity |].
    destruct (updatesChan b) as [c |] eqn:Hc.
    { assert (false = true) by (apply H1; eauto). discriminate. }
    assert (Hfresh : update_chans b !! next_chan b = None).
    { destruct (update_chans b !! next_chan b) eqn:E; [| reflexivity].
      assert (next_chan b < next_chan b)%positive by (apply H4; left; eauto).
      lia. }
    assert (Hfresh' : stop_chans b !! next_chan b = None).
    { destruct (stop_chans b !! next_chan b) eqn:E; [| reflexivity].
      assert (next_chan b < next_chan b)%positive by (apply H4; right; eauto).
      lia. }
    cbn [make_updates_chan stopPollingCh].
    destruct (stopPollingCh b) as [sc |] eqn:Hsc.
    + eexists. split; [reflexivity |].
      repeat split; fields;
        [ eauto | | exact H3 | | | exact Hfresh | apply lookup_insert_eq ].
      * intros c0 [= <-]. eexists. rewrite lookup_insert_eq.
        repeat split. fields. lia.
      * intros c0 [Hs | Hs].
        -- destruct (decide (c0 = next_chan b)) as [-> | Hne]; [lia |].
           rewrite lookup_insert_ne in Hs by congruence.
           assert (c0 < next_chan b)%positive by (apply H4; now left). lia.
        -- assert (c0 < next_chan b)%positive by (apply H4; now right). lia.
      * intros c0 st0 Hs Hopen0.
        destruct (decide (c0 = next_chan b)) as [-> | Hne]; [reflexivity |].
        rewrite lookup_insert_ne in Hs by congruence.
        pose proof (H5 c0 st0 Hs Hopen0). discriminate.
    + eexists. split; [reflexivity |].
      repeat split; fields;
        [ eauto | | | | | exact Hfresh | apply lookup_insert_eq ].
      * intros c0 [= <-]. eexists. rewrite lookup_insert_eq.
        repeat split. fields. lia.
      * intros c0 [= <-]. apply lookup_insert_eq.
      * intros c0 [Hs | Hs].
        -- destruct (decide (c0 = next_chan b)) as [-> | Hne]; [lia |].
           rewrite lookup_insert_ne in Hs by congruence.
           assert (c0 < next_chan b)%positive by (apply H4; now left). lia.
        -- destruct (decide (c0 = Pos.succ (next_chan b))) as [-> | Hne]; [lia |].
           rewrite lookup_insert_ne in Hs by congruence.
           assert (c0 < next_chan b)%positive by (apply H4; now right). lia.
      * intros c0 st0 Hs Hopen0.
        destruct (decide (c0 = next_chan b)) as [-> | Hne]; [reflexivity |].
        rewrite lookup_insert_ne in Hs by congruence.
        pose proof (H5 c0 st0 Hs Hopen0). discriminate.
Qed.

(** *** One step of a goroutine *)

Lemma step_kinds ev b l b' l' :
  step ev (b, l) = Some (b', l') ->
  (live l' = live l /\ running l' = running l /\
   (b' = b \/ (exists u, send u b = Some b') \/ receive b = Some b')) \/
  (live l = true /\ at_ l' = Returning /\ b' = teardown b) \/
  (at_ l = Returning /\ at_ l' = Exited /\
   isPolling b' = isPolling b /\ updatesChan b' = updatesChan b /\
   stopPollingCh b' = stopPollingCh b /\ update_chans b' = update_chans b /\
   stop_chans b' = stop_chans b /\ next_chan b' = next_chan b /\
   pollingWg b' = Int64.add (pollingWg b) (-1)).
Proof.
  unfold step, exit_. intros H.
  destruct ev; destruct (at_ l) eqn:Hat; try discriminate;
    repeat match type of H with
           | context [if ?x then _ else _] => destruct x eqn:?
           | context [match ?x with _ => _ end] => destruct x eqn:?
           end;
    simplify_option_eq;
    unfold live, running, after_batch;
    cbn [at_ set_pc set_offset set_cancelled config];
    rewrite ?Hat;
    first [ right; left; repeat split; reflexivity
          | right; right; repeat split; reflexivity
          | left; split; [| split]; [ | | now eauto 6 ];
            try destruct (_ && _); reflexivity ].
Qed.

Lemma acts_app l1 : forall l2 s,
  acts (l1 ++ l2) s = s' ← acts l1 s; acts l2 s'.
Proof.
  induction l1 as [| a l1 IH]; intros l2 s; [reflexivity |].
  cbn [app acts]. destruct (act a s) as [s1 |]; [apply IH | reflexivity].
Qed.

Lemma act_ok a s s' : act a s = Some s' -> engine_ok s -> engine_ok s'.
Proof.
  destruct s as [b ls], s' as [b' ls']. unfold engine_ok. cbn [fst snd].
  intros H (Hch & Hlive & Hwg). destruct a as [config | | i ev | c]; cbn [act] in H.
  - destruct (GetUpdatesChan_cases config b Hch)
      as [(Hp & c & Hc & E) | (Hp & b1 & E & Hch1 & Hp1 & _ & _ & _ & Hwg1)];
      rewrite E in H; injection H as <- <-.
    + cbn [option_list]. now rewrite app_nil_r.
    + cbn [option_list]. rewrite !List.filter_app, !length_app.
      cbn. rewrite Hp1, Hwg1, Hwg, wrap_add_l, Hlive, Hp.
      split; [exact Hch1 |]. split; [reflexivity |]. f_equal. lia.
  - injection H as <- <-.
    destruct (StopPolling_locked_ok b Hch) as (Hch1 & Hp1 & Hwg1).
    now rewrite Hp1, Hwg1.
  - destruct (ls !! i) as [l |] eqn:Hl; [| discriminate]. cbn [mbind option_bind] in H.
    destruct (step ev (b, l)) as [[b1 l1] |] eqn:Hstep; [| discriminate].
    cbn [mbind option_bind fst snd] in H. injection H as <- <-.
    pose proof (filter_insert_count live ls i l l1 Hl) as Hcl.
    pose proof (filter_insert_count running ls i l l1 Hl) as Hcr.
    destruct (step_kinds _ _ _ _ _ Hstep)
      as [(El & Er & Hb) | [(Hlv & Hat & ->) | (Hat & Hat1 & Ep & Eu & Es & Euc & Esc & En & Ew)]].
    + rewrite El in Hcl. rewrite Er in Hcr.
      assert (Hb' : channels_ok b1 /\ isPolling b1 = isPolling b /\
                    pollingWg b1 = pollingWg b).
      { destruct Hb as [-> | [(u & Hs) | Hr]]; [now split | |].
        - exact (send_ok _ _ _ Hs Hch).
        - exact (receive_ok _ _ Hr Hch). }
      destruct Hb' as (Hch1 & -> & ->).
      split; [exact Hch1 |]. split; [lia |]. rewrite Hwg. f_equal. lia.
    + destruct (teardown_ok b Hch) as (Hch1 & Hp1 & Hwg1).
      rewrite Hp1, Hwg1. split; [exact Hch1 |].
      assert (Hr : running l = true /\ running l1 = true /\ live l1 = false).
      { unfold running, live in *. rewrite Hat. destruct (at_ l); now try discriminate. }
      destruct Hr as (Hr & Hr1 & Hl1). rewrite Hlv, Hl1 in Hcl.
      rewrite Hr, Hr1 in Hcr. cbn in Hcl, Hcr.
      destruct (isPolling b); split; try lia; rewrite Hwg; f_equal; lia.
    + assert (Hr : live l = false /\ live l1 = false /\ running l = true /\
                   running l1 = false).
      { unfold running, live. now rewrite Hat, Hat1. }
      destruct Hr as (Hl0 & Hl1 & Hr0 & Hr1). rewrite Hl0, Hl1 in Hcl.
      rewrite Hr0, Hr1 in Hcr. cbn in Hcl, Hcr.
      split; [| split].
      * unfold channels_ok. rewrite Ep, Eu, Es, Euc, Esc, En. exact Hch.
      * rewrite Ep. lia.
      * rewrite Ew, Hwg, wrap_add_l. f_equal. lia.
  - destruct (consume c b) as [b1 |] eqn:Hcons; [| discriminate].
    cbn [mbind option_bind fst snd] in H. injection H as <- <-.
    destruct (consume_ok _ _ _ Hcons Hch) as (Hch1 & -> & ->). now split.
Qed.

Lemma New_ok : engine_ok (New, []).
Proof.
  repeat split; cbn; try discriminate; try (intros []; discriminate).
  intros c [[x Hx] | [x Hx]]; rewrite lookup_empty in Hx; discriminate.
Qed.

Lemma acts_ok l : forall s s', acts l s = Some s' -> engine_ok s -> engine_ok s'.
Proof.
  induction l as [| a l IH]; intros s s' H Hok; cbn [acts] in H.
  - now injection H as <-.
  - destruct (act a s) as [s1 |] eqn:Ha; [| discriminate].
    exact (IH _ _ H (act_ok _ _ _ Ha Hok)).
Qed.

Lemma acts_length l : forall s s',
  acts l s = Some s' -> (length (snd s') <= length (snd s) + length l)%nat.
Proof.
  induction l as [| a l IH]; intros [b ls] s' H; cbn [acts] in H.
  - injection H as <-. cbn. lia.
  - destruct (act a (b, ls)) as [[b1 ls1] |] eqn:Ha; [| discriminate].
    cbn [mbind option_bind] in H. specialize (IH _ _ H). cbn [snd length] in *.
    enough (length ls1 <= S (length ls))%nat by lia. clear IH H.
    destruct a as [config | | i ev | c]; cbn [act] in Ha.
    + destruct (GetUpdatesChan config b) as [[ch b2] [l0 |]];
        injection Ha as <- <-; rewrite length_app; cbn; lia.
    + injection Ha as <- <-. lia.
    + destruct (ls !! i); [| discriminate]. cbn [mbind option_bind fst snd] in Ha.
      destruct (step ev (b, l0)); [| discriminate]. cbn [mbind option_bind fst snd] in Ha.
      injection Ha as <- <-. rewrite length_insert. lia.
    + destruct (consume c b); [| discriminate]. cbn [mbind option_bind fst snd] in Ha.
      injection Ha as <- <-. lia.
Qed.

Lemma filter_witness {A} (f : A -> bool) (ls : list A) i x :
  ls !! i = Some x -> f x = true -> (1 <= length (List.filter f ls))%nat.
Proof.
  intros Hl Hf.
  assert (Hin : In x (List.filter f ls)).
  { apply List.filter_In. split; [| exact Hf].
    apply list_elem_of_In. eapply list_elem_of_lookup_2. exact Hl. }
  destruct (List.filter f ls); [destruct Hin | cbn; lia].
Qed.

Lemma exited_counts (ls : list Loop) :
  Forall (fun lp => at_ lp = Exited) ls <->
  length (List.filter running ls) = 0%nat.
Proof.
  induction ls as [| lp ls IH]; [split; [reflexivity | constructor] |].
  cbn [List.filter]. unfold running at 1 3. split.
  - intros H. apply Forall_cons in H as [-> H]. now apply IH.
  - destruct (at_ lp) eqn:E; cbn [length]; try discriminate.
    intros H. constructor; [exact E | now apply IH].
Qed.

Lemma exited_not_live (ls : list Loop) :
  Forall (fun lp => at_ lp = Exited) ls -> List.filter live ls = [].
Proof.
  induction 1 as [| lp ls E _ IH]; [reflexivity |].
  cbn [List.filter]. unfold live at 1. now rewrite E.
Qed.

(** *** What holds in every state an engine can reach *)

(** X14: At most one polling goroutine is live at a time: exactly one while
    the running flag is set, none while it is clear; and the flag is set
    exactly when the engine holds an output channel. *)
Theorem engine_single_poller (l : list action) (b : BotAPI) (ls : list Loop) :
  acts l (New, []) = Some (b, ls) ->
  length (List.filter live ls) = (if isPolling b then 1 else 0)%nat /\
  (isPolling b = true <-> is_Some (updatesChan b)).
Proof.
  intros H. destruct (acts_ok _ _ _ H New_ok) as ((H1 & _) & Hlive & _).
  exact (conj Hlive H1).
Qed.

Lemma engine_single_poller_witness :
  exists b ls,
    acts (take 7 session) (New, []) = Some (b, ls) /\
    length (List.filter live ls) = (if isPolling b then 1 else 0)%nat /\
    (isPolling b = true <-> is_Some (updatesChan b)).
Proof.
  destruct (acts (take 7 session) (New, [])) as [[b ls] |] eqn:H.
  - exists b, ls. split; [reflexivity |].
    exact (engine_single_poller (take 7 session) b ls H).
  - vm_compute in H. discriminate H.
Defined.

(** X15: The channel operations of the engine never meet a nil or closed
    channel: while a goroutine is live, the output channel it sends to,
    and closes on its way out, is there, open, of capacity 100 and not
    over-full; the stop channel [StopPolling] closes is open; and every
    output channel other than the current one is closed. *)
Theorem engine_channels_open (l : list action) (b : BotAPI) (ls : list Loop) :
  acts l (New, []) = Some (b, ls) ->
  (forall i lp, ls !! i = Some lp -> live lp = true ->
     exists c st, updatesChan b = Some c /\ update_chans b !! c = Some st /\
                  closed st = false /\ cap st = 100%nat /\
                  (length (buf st) <= 100)%nat) /\
  (forall c, stopPollingCh b = Some c -> stop_chans b !! c = Some false) /\
  (forall c st, update_chans b !! c = Some st -> updatesChan b <> Some c ->
     closed st = true).
Proof.
  intros H.
  destruct (acts_ok _ _ _ H New_ok) as ((H1 & H2 & H3 & _ & H5) & Hlive & _).
  cbn [fst snd] in *. split; [| split; [exact H3 |]].
  - intros i lp Hl Hlv. pose proof (filter_witness live ls i lp Hl Hlv) as Hge.
    destruct (isPolling b); [| lia].
    destruct (proj1 H1 eq_refl) as [c Hc].
    destruct (H2 c Hc) as (st & Hst & Hcl & Hlen & Hcap).
    exists c, st. repeat split; try assumption. lia.
  - intros c st Hst Hne. destruct (closed st) eqn:Hcl; [reflexivity |].
    destruct (Hne (H5 c st Hst Hcl)).
Qed.

Lemma engine_channels_open_witness :
  exists b ls,
    acts (take 4 session) (New, []) = Some (b, ls) /\
    exists c st, updatesChan b = Some c /\ update_chans b !! c = Some st /\
                 closed st = false /\ cap st = 100%nat /\
                 (length (buf st) <= 100)%nat.
Proof.
  destruct (acts (take 4 session) (New, [])) as [[b ls] |] eqn:H.
  - exists b, ls. split; [reflexivity |].
    destruct (ls !! 0%nat) as [lp |] eqn:Hl.
    + destruct (live lp) eqn:Hlv.
      * exact (proj1 (engine_channels_open (take 4 session) b ls H) 0%nat lp Hl Hlv).
      * exfalso. vm_compute in H. injection H as <- <-.
        vm_compute in Hl. injection Hl as <-. discriminate Hlv.
    + exfalso. vm_compute in H. injection H as <- <-. discriminate Hl.
  - vm_compute in H. discriminate H.
Defined.

(** X16: [StopPolling] comes back from [pollingWg.Wait()] only once every
    polling goroutine the engine ever started has returned, and then the
    engine is not polling and holds no output channel; and once they all
    have returned it does come back, leaving the engine as it is.  (For
    fewer than [2^31] goroutines: the counter of a wait group has 32
    bits.) *)
Theorem StopPolling_returns_when_exited (l : list action) (b : BotAPI)
    (ls : list Loop) :
  acts l (New, []) = Some (b, ls) ->
  Z.of_nat (length l) < 2 ^ 31 ->
  (forall b', StopPolling b = Returned b' ->
     Forall (fun lp => at_ lp = Exited) ls /\
     b' = b /\ isPolling b = false /\ updatesChan b = None) /\
  (Forall (fun lp => at_ lp = Exited) ls -> StopPolling b = Returned b).
Proof.
  intros H Hlen.
  destruct (acts_ok _ _ _ H New_ok) as (Hch & Hlive & Hwg). cbn [fst snd] in *.
  pose proof (acts_length _ _ _ H) as Hls. cbn [snd length] in Hls.
  pose proof (List.filter_length_le running ls) as Hle.
  rewrite wrap_small in Hwg by (unfold Int64.in_range, Int64.MinInt, Int64.MaxInt; lia).
  destruct (StopPolling_locked_ok b Hch) as (_ & _ & Hwg').
  assert (Hno : Forall (fun lp => at_ lp = Exited) ls ->
                isPolling b = false /\ updatesChan b = None /\ StopPolling_locked b = b).
  { intros Hex. rewrite (exited_not_live _ Hex) in Hlive. cbn in Hlive.
    destruct (isPolling b) eqn:Hp; [discriminate |].
    split; [reflexivity |]. split.
    - destruct (updatesChan b) as [c |] eqn:Hc; [| reflexivity].
      destruct Hch as (H1 & _). rewrite Hp in H1.
      assert (false = true) by (apply H1; eauto). discriminate.
    - unfold StopPolling_locked. now rewrite Hp. }
  unfold StopPolling. rewrite Hwg', Hwg. split.
  - intros b' Hret.
    destruct (Z.eqb_spec (Z.of_nat (length (List.filter running ls))) 0) as [E | E];
      [| discriminate].
    assert (Hex : Forall (fun lp => at_ lp = Exited) ls) by (apply exited_counts; lia).
    destruct (Hno Hex) as (Hp & Hu & Hsame). rewrite Hsame in Hret.
    injection Hret as <-. now repeat split.
  - intros Hex. destruct (Hno Hex) as (_ & _ & ->).
    apply exited_counts in Hex. now rewrite Hex.
Qed.

Lemma StopPolling_returns_when_exited_witness :
  exists b ls,
    acts session_over (New, []) = Some (b, ls) /\
    StopPolling b = Returned b.
Proof.
  destruct (acts session_over (New, [])) as [[b ls] |] eqn:H.
  - exists b, ls. split; [reflexivity |].
    apply (StopPolling_returns_when_exited session_over b ls H);
      [vm_compute; reflexivity |].
    vm_compute in H. injection H as _ <-. repeat constructor.
  - vm_compute in H. discriminate H.
Defined.

(** X17: A start call on an engine that is not polling, in whatever state it
    can be by then, returns a channel that did not exist before, open,
    empty and of capacity 100, and starts one goroutine; every channel
    handed out earlier is closed and stays as it is. *)
Theorem restart_fresh_channel (l : list action) (b : BotAPI) (ls : list Loop)
    (config : UpdateConfig) :
  acts l (New, []) = Some (b, ls) ->
  isPolling b = false ->
  exists c b' lp,
    GetUpdatesChan config b = (c, b', Some lp) /\
    update_chans b !! c = None /\
    update_chans b' !! c = Some {| buf := []; cap := 100; closed := false |} /\
    updatesChan b' = Some c /\ isPolling b' = true /\
    forall c0 st, update_chans b !! c0 = Some st ->
      closed st = true /\ update_chans b' !! c0 = Some st.
Proof.
  intros H Hp.
  destruct (acts_ok _ _ _ H New_ok) as (Hch & _). cbn [fst] in Hch.
  destruct (GetUpdatesChan_cases config b Hch)
    as [(Hp' & _) | (_ & b' & E & Hch' & Hp1 & Hu1 & Hfresh & Hnew & _)];
    [congruence |].
  exists (next_chan b), b', (pollUpdates_init b' (fst (Validate config))).
  split; [exact E |]. split; [exact Hfresh |]. split; [exact Hnew |].
  split; [exact Hu1 |]. split; [exact Hp1 |]. intros c0 st Hst. split.
  - destruct Hch as (H1 & _ & _ & _ & H5).
    destruct (closed st) eqn:Hcl; [reflexivity |].
    pose proof (H5 c0 st Hst Hcl) as Hc.
    assert (false = true) by (rewrite <- Hp; apply H1; eauto). discriminate.
  - assert (Hne : c0 <> next_chan b) by (intros ->; congruence).
    revert E. unfold GetUpdatesChan. rewrite (Validate_fst_snd config), Hp.
    destruct (updatesChan b) as [c |] eqn:Hc.
    { destruct Hch as (H1 & _). assert (false = true)
        by (rewrite <- Hp; apply H1; eauto). discriminate. }
    fields. destruct (stopPollingCh b); fields; intros [= <-]; fields;
      now rewrite lookup_insert_ne by congruence.
Qed.

Lemma restart_fresh_channel_witness :
  exists b ls c b' lp,
    acts session_over (New, []) = Some (b, ls) /\
    GetUpdatesChan poll_config b = (c, b', Some lp) /\
    update_chans b !! c = None /\
    update_chans b !! 1%positive
      = Some {| buf := []; cap := 100; closed := true |}.
Proof.
  destruct (acts session_over (New, [])) as [[b ls] |] eqn:H.
  - assert (Hp : isPolling b = false)
      by (vm_compute in H; now injection H as <- _).
    destruct (restart_fresh_channel session_over b ls poll_config H Hp)
      as (c & b' & lp & E & Hfresh & _).
    exists b, ls, c, b', lp. repeat split; try assumption.
    vm_compute in H. now injection H as <- _.
  - vm_compute in H. discriminate H.
Defined.

End EngineInvariant.
(** ** The relay of the stop signal *)

Section RelayOfStop.

Import zalobot.

Lemma send_same u b b' :
  send u b = Some b' ->
  stopPollingCh b' = stopPollingCh b /\ ctx_cancelled b' = ctx_cancelled b.
Proof.
  unfold send. intros H.
  destruct (updatesChan b) as [c |]; [| discriminate]. cbn [mbind option_bind] in H.
  destruct (update_chans b !! c) as [st |]; [| discriminate].
  cbn [mbind option_bind] in H.
  destruct (_ && _); [| discriminate]. now injection H as <-.
Qed.

Lemma consume_same c b b' :
  consume c b = Some b' ->
  stopPollingCh b' = stopPollingCh b /\ ctx_cancelled b' = ctx_cancelled b.
Proof.
  unfold consume. intros H.
  destruct (update_chans b !! c) as [st |]; [| discriminate].
  cbn [mbind option_bind] in H.
  destruct (buf st); [discriminate |]. now injection H as <-.
Qed.

Lemma receive_same b b' :
  receive b = Some b' ->
  stopPollingCh b' = stopPollingCh b /\ ctx_cancelled b' = ctx_cancelled b.
Proof.
  rewrite receive_consume. destruct (updatesChan b) as [c |]; [| discriminate].
  apply consume_same.
Qed.

(** A loop that is not cancelled never takes a [Done] case. *)
Lemma Done_needs_cancel b l : cancelled l = false -> step EvDone (b, l) = None.
Proof.
  intros Hc. unfold step, exit_. rewrite Hc. now destruct (at_ l).
Qed.

(** A step of its own leaves a loop that is live and not cancelled so,
    and changes the engine by a send or a receive at most. *)
Lemma step_uncancelled ev b l b' l' :
  step ev (b, l) = Some (b', l') ->
  ev <> EvCancel -> cancelled l = false -> live l = true ->
  cancelled l' = false /\ live l' = true /\
  (b' = b \/ (exists u, send u b = Some b') \/ receive b = Some b').
Proof.
  unfold step, exit_, live. intros H Hev Hc Hl. rewrite Hc in H.
  destruct ev; try congruence; destruct (at_ l) eqn:Hat; try discriminate;
    repeat match type of H with
           | context [match ?x with _ => _ end] => destruct x eqn:?
           end;
    simplify_option_eq;
    unfold after_batch; cbn [at_ set_pc set_offset set_cancelled cancelled config];
    rewrite ?Hat;
    (split; [assumption |]; split; [try destruct (_ && _); reflexivity |]);
    eauto 6.
Qed.

Lemma signal_lost_StopPolling (s : BotAPI * list poller) :
  signal_lost s -> StopPolling (fst s) = Waiting (fst s).
Proof.
  intros (p & _ & _ & _ & _ & _ & Hp & Hs & _ & Hwg).
  unfold StopPolling, StopPolling_locked. now rewrite Hp, Hs, Hwg.
Qed.

(** Once the signal is lost it stays lost, whatever the callers, the
    consumers, the loop and the monitor do, short of cancelling [b.ctx]. *)
Ltac still_lost := repeat first [assumption | reflexivity | split].

Lemma signal_lost_relay (m : move) (s s' : BotAPI * list poller) :
  m <> Cancel -> relay m s = Some s' -> signal_lost s -> signal_lost s'.
Proof.
  destruct s as [b ps], s' as [b' ps']. unfold signal_lost. cbn [fst snd].
  intros Hm H (p & -> & Hmon & Hc & Hl & Hch & Hp & Hs & Hctx & Hwg).
  destruct m as [config | | | i | i | i ev | c]; cbn [relay] in H.
  - destruct (GetUpdatesChan_cases config b Hch)
      as [(_ & c & _ & E) | (Hp' & _)]; [| congruence].
    rewrite E in H. injection H as <- <-. exists p. still_lost.
  - injection H as <- <-. exists p.
    unfold StopPolling_locked. rewrite Hp, Hs. still_lost.
  - congruence.
  - destruct i as [| i]; [| discriminate]. cbn in H. rewrite Hmon in H. discriminate.
  - destruct i as [| i]; [| discriminate]. cbn in H. rewrite Hmon in H.
    unfold woken in H. rewrite Hctx in H. discriminate.
  - assert (Hev : ev <> EvCancel) by (intros ->; discriminate).
    assert (H' : (p0 ← [p] !! i; s' ← step ev (b, loop p0);
                  Some (fst s', <[i := set_loop p0 (snd s')]> [p]))
                 = Some (b', ps')) by (destruct ev; congruence).
    clear H. destruct i as [| i]; [| discriminate]. cbn [lookup list_lookup] in H'.
    cbn [mbind option_bind] in H'.
    destruct (step ev (b, loop p)) as [[b1 l1] |] eqn:Hstep; [| discriminate].
    cbn [mbind option_bind fst snd] in H'. injection H' as <- <-.
    destruct (step_uncancelled _ _ _ _ _ Hstep Hev Hc Hl) as (Hc1 & Hl1 & Hb).
    exists (set_loop p l1). cbn [set_loop loop mon].
    split; [reflexivity |]. split; [exact Hmon |].
    split; [exact Hc1 |]. split; [exact Hl1 |].
    destruct Hb as [-> | [(u & Hsend) | Hrecv]]; [still_lost | |].
    + destruct (send_ok _ _ _ Hsend Hch) as (Hch1 & -> & ->).
      destruct (send_same _ _ _ Hsend) as [-> ->]. still_lost.
    + destruct (receive_ok _ _ Hrecv Hch) as (Hch1 & -> & ->).
      destruct (receive_same _ _ Hrecv) as [-> ->]. still_lost.
  - destruct (consume c b) as [b1 |] eqn:Hcons; [| discriminate].
    cbn [mbind option_bind] in H. injection H as <- <-.
    destruct (consume_ok _ _ _ Hcons Hch) as (Hch1 & -> & ->).
    destruct (consume_same _ _ _ Hcons) as [-> ->]. exists p. still_lost.
Qed.

Lemma signal_lost_relays (ms : list move) : forall s s',
  Forall (fun m => m <> Cancel) ms ->
  relays ms s = Some s' -> signal_lost s -> signal_lost s'.
Proof.
  induction ms as [| m ms IH]; intros s s' Hms H Hlost; cbn [relays] in H.
  - now injection H as <-.
  - apply Forall_cons in Hms as [Hm Hms].
    destruct (relay m s) as [s1 |] eqn:Hrel; [| discriminate].
    exact (IH _ _ Hms H (signal_lost_relay _ _ _ Hm Hrel Hlost)).
Qed.

(** With the monitor in its [select] on the channel [StopPolling] closes,
    the signal gets through at every place where the loop waits: the
    stop call closes the channel, the monitor wakes and cancels the
    context of the loop, and the loop takes its [Done] case, which closes
    the output channel and clears the running flag. *)
Lemma stop_signal_relayed (b : BotAPI) (p : poller) (c : chan) :
  isPolling b = true -> stopPollingCh b = Some c ->
  mon p = MonSelect (Some c) -> suspended (loop p) ->
  relays [Stop; MonWake 0; Poll 0 EvDone] (b, [p])
  = Some (teardown (StopPolling_locked b),
          [{| loop := set_pc (set_cancelled (loop p)) Returning; mon := MonDone |}]).
Proof.
  intros Hp Hs Hmon Hsusp.
  assert (Hw : woken (StopPolling_locked b) (Some c) = true).
  { unfold woken, StopPolling_locked. rewrite Hp, Hs. cbn [stop_chans ctx_cancelled].
    rewrite lookup_insert_eq. apply orb_true_r. }
  assert (H1 : relay (MonWake 0) (StopPolling_locked b, [p])
               = Some (StopPolling_locked b,
                       [{| loop := set_cancelled (loop p); mon := MonDone |}])).
  { cbn [relay lookup list_lookup mbind option_bind]. now rewrite Hmon, Hw. }
  assert (H2 : relay (Poll 0 EvDone)
                 (StopPolling_locked b,
                  [{| loop := set_cancelled (loop p); mon := MonDone |}])
               = Some (teardown (StopPolling_locked b),
                       [{| loop := set_pc (set_cancelled (loop p)) Returning;
                           mon := MonDone |}])).
  { cbn [relay lookup list_lookup mbind option_bind loop].
    unfold step, exit_, suspended in *. cbn [at_ set_cancelled cancelled].
    destruct (at_ (loop p)); try contradiction; reflexivity. }
  cbn [relays]. change (relay Stop (b, [p])) with (Some (StopPolling_locked b, [p])).
  cbn [mbind option_bind]. rewrite H1. cbn [mbind option_bind]. rewrite H2.
  reflexivity.
Qed.

(** A start call, the monitor in place, a stop call: the loop ends. *)
Example stop_after_monitor_ends :
  exists b p,
    relays (stop_after_monitor ++ [Poll 0 EvDone; Poll 0 EvReturn]) (New, [])
      = Some (b, [p]) /\
    at_ (loop p) = Exited /\ isPolling b = false /\ updatesChan b = None /\
    StopPolling b = Returned b.
Proof. eexists _, _. split; [vm_compute; reflexivity |]. repeat split. Qed.

(** C10: the stop signal is lost when the critical section of
    [StopPolling] runs before the monitor goroutine of the loop has read
    [b.stopPollingCh]: the stop call closes the channel and sets the
    field to nil, the monitor then waits on a nil channel, and from there
    on, whatever callers, consumers, loop and monitor do (short of
    cancelling [b.ctx], which only [Close] does, after its own
    [StopPolling] has returned), the loop is never cancelled, its [Done]
    case is never ready, the output channel stays open, the running flag
    stays set, and [StopPolling] waits. *)
Theorem stop_signal_lost :
  exists b p,
    relays stop_before_monitor (New, []) = Some (b, [p]) /\
    mon p = MonSelect None /\
    forall ms b' ps',
      Forall (fun m => m <> Cancel) ms ->
      relays ms (b, [p]) = Some (b', ps') ->
      exists p',
        ps' = [p'] /\ cancelled (loop p') = false /\ live (loop p') = true /\
        step EvDone (b', loop p') = None /\
        isPolling b' = true /\
        (exists c st, updatesChan b' = Some c /\ update_chans b' !! c = Some st /\
                      closed st = false) /\
        StopPolling b' = Waiting b'.
Proof.
  destruct (relays stop_before_monitor (New, [])) as [[b ps] |] eqn:Hrun;
    [| vm_compute in Hrun; discriminate Hrun].
  assert (Hstart : relays [Start poll_config] (New, [])
                   = Some (fst started, [{| loop := snd started; mon := MonStart |}]))
    by reflexivity.
  assert (Hok : channels_ok (fst started)).
  { destruct (GetUpdatesChan_cases poll_config New (proj1 New_ok))
      as [(Hp & _) | (_ & b1 & E & Hch & _)]; [discriminate |].
    unfold started. now rewrite E. }
  assert (Hlost : signal_lost (b, ps)).
  { unfold stop_before_monitor in Hrun.
    change [Start poll_config; Stop; MonEnter 0]
      with ([Start poll_config] ++ [Stop; MonEnter 0]) in Hrun.
    assert (Hrest : relays [Stop; MonEnter 0]
                      (fst started, [{| loop := snd started; mon := MonStart |}])
                    = Some (b, ps)) by (rewrite <- Hrun; reflexivity).
    cbn [relays relay mbind option_bind lookup list_lookup mon] in Hrest.
    injection Hrest as <- <-.
    exists {| loop := snd started; mon := MonSelect None |}. cbn [fst snd loop mon].
    split; [reflexivity |]. split; [reflexivity |].
    split; [reflexivity |]. split; [reflexivity |].
    split; [exact (proj1 (StopPolling_locked_ok _ Hok)) |].
    repeat split; reflexivity. }
  destruct Hlost as (p & Hps & Hrest). cbn [snd] in Hps. subst ps.
  exists b, p. split; [reflexivity |]. split; [exact (proj1 Hrest) |].
  intros ms b' ps' Hms Hrel.
  assert (Hlost : signal_lost (b, [p])) by (exists p; now split).
  pose proof (signal_lost_relays ms _ _ Hms Hrel Hlost) as Hlost'.
  pose proof (signal_lost_StopPolling _ Hlost') as Hwait.
  destruct Hlost' as (p' & Hps' & _ & Hc & Hl & Hch & Hp & _).
  cbn [fst snd] in *. exists p'. split; [exact Hps' |].
  split; [exact Hc |]. split; [exact Hl |].
  split; [exact (Done_needs_cancel _ _ Hc) |]. split; [exact Hp |].
  split; [| exact Hwait].
  destruct Hch as (H1 & H2 & _). destruct (proj1 H1 Hp) as [c Hc'].
  destruct (H2 c Hc') as (st & Hst & Hcl & _). eauto.
Qed.

End RelayOfStop.
(** ** The polling loop, one batch at a time *)

Section PollingMore.

Import zalobot.

(** X11: [Validate] always returns nil and leaves a configuration with a limit
    from 1 to 100 and a timeout that is not negative; it keeps the offset,
    changes nothing in a configuration that is already so, and running it
    twice is running it once. *)
Theorem Validate_normalises (uc : UpdateConfig) :
  let uc' := fst (Validate uc) in
  snd (Validate uc) = None /\
  1 <= Limit uc' <= 100 /\ 0 <= Timeout uc' /\ Offset uc' = Offset uc /\
  (1 <= Limit uc <= 100 -> 0 <= Timeout uc -> uc' = uc) /\
  Validate uc' = Validate uc.
Proof.
  destruct uc as [o lim t]. unfold Validate. cbn [fst snd Offset Limit Timeout].
  repeat (match goal with
          | |- context [?a <? ?b] =>
              lazymatch b with
              | context [if _ then _ else _] => fail
              | _ => destruct (Z.ltb_spec a b)
              end
          | |- context [?a <=? ?b] =>
              lazymatch a with
              | context [if _ then _ else _] => fail
              | _ => destruct (Z.leb_spec a b)
              end
          end; try lia);
    repeat split; try lia; intros; try lia; repeat f_equal; lia.
Qed.

Lemma Validate_fields (uc : UpdateConfig) :
  1 <= Limit (fst (Validate uc)) <= 100 /\
  Timeout (fst (Validate uc)) = Z.max 0 (Timeout uc) /\
  Offset (fst (Validate uc)) = Offset uc.
Proof.
  unfold Validate. cbn [fst Limit Timeout Offset].
  destruct (Z.leb_spec (Limit uc) 0); destruct (Z.ltb_spec (Timeout uc) 0);
    repeat match goal with
           | |- context [?a <? ?b] => destruct (Z.ltb_spec a b)
           end; lia.
Qed.

(** X12: The goroutine a start call starts polls from the configured offset
    with the repaired limit and timeout, from the top of its loop; it
    waits one second between polls without a timeout, and the timeout
    otherwise (as long as that many seconds fit a [time.Duration]).  Its
    context is done from the start exactly when the context of the engine
    is, and then it fetches nothing: the only way on is the [Done] case,
    which tears the engine down again. *)
Theorem GetUpdatesChan_starts_normalised (config : UpdateConfig) (b : BotAPI) :
  isPolling b = false ->
  exists c b' lp,
    GetUpdatesChan config b = (c, b', Some lp) /\
    offset lp = Offset config /\
    1 <= Limit (zalobot.config lp) <= 100 /\
    Timeout (zalobot.config lp) = Z.max 0 (Timeout config) /\
    at_ lp = AtSelect /\
    cancelled lp = ctx_cancelled b /\
    (ctx_cancelled b = true ->
     step EvDefault (b', lp) = None /\
     step EvDone (b', lp) = Some (teardown b', set_pc lp Returning)) /\
    (Timeout config <= 9223372036 ->
     pollInterval lp = Z.max 1 (Timeout config) * types.time_Second).
Proof.
  intros Hp.
  assert (E : exists c b',
             GetUpdatesChan config b
             = (c, b', Some (pollUpdates_init b' (fst (Validate config)))) /\
             ctx_cancelled b' = ctx_cancelled b).
  { unfold GetUpdatesChan. rewrite Validate_fst_snd, Hp.
    destruct (updatesChan b); cbn [make_updates_chan stopPollingCh];
      destruct (stopPollingCh b); eexists _, _; split; reflexivity. }
  destruct E as (c & b' & E & Hctx).
  exists c, b', (pollUpdates_init b' (fst (Validate config))). split; [exact E |].
  destruct (Validate_fields config) as (Hl & Hmax & Ho).
  unfold step, exit_, pollUpdates_init.
  cbn [offset zalobot.config cancelled at_ pollInterval]. rewrite Hctx.
  split; [exact Ho |]. split; [exact Hl |]. split; [exact Hmax |].
  split; [reflexivity |]. split; [reflexivity |]. split.
  - intros ->. split; reflexivity.
  - intros Hfit. rewrite Hmax. unfold types.time_Second, Int64.mul.
    destruct (Z.ltb_spec 0 (Z.max 0 (Timeout config))).
    + rewrite wrap_small by (unfold Int64.in_range, Int64.MinInt, Int64.MaxInt; lia).
      f_equal. lia.
    + f_equal. lia.
Qed.

(** A start call on an engine that was closed: the loop is cancelled from
    the start and its first step is the teardown. *)
Lemma GetUpdatesChan_starts_normalised_witness :
  exists c b' lp,
    GetUpdatesChan {| Offset := 42; Limit := 1000; Timeout := -5 |} (cancel New)
      = (c, b', Some lp) /\
    offset lp = 42 /\ Limit (config lp) = 100 /\ Timeout (config lp) = 0 /\
    cancelled lp = true /\
    step EvDone (b', lp) = Some (teardown b', set_pc lp Returning).
Proof.
  destruct (GetUpdatesChan_starts_normalised
              {| Offset := 42; Limit := 1000; Timeout := -5 |} (cancel New) eq_refl)
    as (c & b' & lp & E & Ho & Hl & Ht & _ & Hc & Hdone & _).
  exists c, b', lp. split; [exact E |]. split; [exact Ho |].
  split; [injection E as _ _ <-; reflexivity |]. split; [exact Ht |].
  split; [exact Hc | exact (proj2 (Hdone eq_refl))].
Defined.

Lemma after_batch_config l l' n :
  config l' = config l -> after_batch l' n = after_batch l n.
Proof. unfold after_batch. now intros ->. Qed.

Lemma advance_fold_max us : forall o,
  Forall valid_id us ->
  fold_left advance us o
  = fold_left Z.max (map (fun u => UpdateID u + 1) us) o.
Proof.
  induction us as [| u us IH]; intros o H; [reflexivity |].
  apply Forall_cons in H as [Hu H]. cbn [fold_left map].
  rewrite advance_max by exact Hu. now apply IH.
Qed.

(** X13: With room in the channel for a whole batch, the loop publishes all of
    it: every update of the batch is appended to the channel in the order
    fetched, none is left out or held back whatever its id and the
    offset, and the offset ends as the largest of the old offset and the
    successors of the ids. *)
Theorem publish_batch (us : list Update) : forall (n : nat) (b : BotAPI)
    (l : Loop) (c : chan) (st : updates_chan),
  us <> [] ->
  at_ l = Sending us n ->
  updatesChan b = Some c ->
  update_chans b !! c = Some st ->
  closed st = false ->
  (length (buf st) + length us <= cap st)%nat ->
  exists b' l',
    run (repeat EvSent (length us)) (b, l) = Some (b', l') /\
    update_chans b' !! c
      = Some {| buf := buf st ++ us; cap := cap st; closed := false |} /\
    offset l' = fold_left advance us (offset l) /\
    at_ l' = after_batch l n /\
    (Forall valid_id us ->
     offset l' = fold_left Z.max (map (fun u => UpdateID u + 1) us) (offset l)).
Proof.
  induction us as [| u rest IH]; intros n b l c st Hne Hat Hc Hst Hcl Hroom;
    [congruence |].
  cbn [length] in Hroom.
  assert (Hsend : send u b
    = Some {| ctx_cancelled := ctx_cancelled b; isPolling := isPolling b;
              stopPollingCh := stopPollingCh b; updatesChan := updatesChan b;
              pollingWg := pollingWg b;
              update_chans :=
                <[c := {| buf := buf st ++ [u]; cap := cap st;
                          closed := closed st |}]> (update_chans b);
              stop_chans := stop_chans b; next_chan := next_chan b |}).
  { unfold send. rewrite Hc. cbn [mbind option_bind]. rewrite Hst.
    cbn [mbind option_bind]. rewrite Hcl.
    assert ((length (buf st) <? cap st)%nat = true) as ->
      by (apply Nat.ltb_lt; lia). reflexivity. }
  cbn [length repeat run]. unfold step at 1. rewrite Hat, Hsend.
  cbn [mbind option_bind].
  destruct rest as [| u' rest'].
  - eexists _, _. split; [reflexivity |].
    cbn [update_chans offset at_ set_pc set_offset fold_left].
    rewrite lookup_insert_eq, Hcl. repeat split.
    intros Hv. apply Forall_cons in Hv as [Hu _]. cbn [map fold_left].
    now apply advance_max.
  - pose (st1 := {| buf := buf st ++ [u]; cap := cap st; closed := closed st |}).
    pose (b1 := {| ctx_cancelled := ctx_cancelled b; isPolling := isPolling b;
                   stopPollingCh := stopPollingCh b; updatesChan := updatesChan b;
                   pollingWg := pollingWg b;
                   update_chans := <[c := st1]> (update_chans b);
                   stop_chans := stop_chans b; next_chan := next_chan b |}).
    pose (l1 := set_pc (set_offset l (advance (offset l) u))
                       (Sending (u' :: rest') n)).
    destruct (IH n b1 l1 c st1) as (b' & l' & Hrun & Hbuf & Hoff & Hat' & Hmax).
    + discriminate.
    + reflexivity.
    + exact Hc.
    + apply lookup_insert_eq.
    + exact Hcl.
    + unfold st1. cbn [buf cap]. rewrite length_app. cbn [length] in *. lia.
    + exists b', l'. split; [exact Hrun |]. unfold st1, l1 in *.
      cbn [buf cap] in Hbuf. rewrite <- app_assoc in Hbuf. cbn [app] in Hbuf.
      split; [exact Hbuf |]. cbn [offset set_pc set_offset] in Hoff.
      split; [exact Hoff |]. split; [exact Hat' |].
      intros Hv. rewrite Hoff. apply Forall_cons in Hv as [Hu Hv].
      change (fold_left advance (u :: u' :: rest') (offset l)
              = fold_left Z.max (map (fun u => UpdateID u + 1) (u :: u' :: rest'))
                          (offset l)).
      apply advance_fold_max. now constructor.
Qed.

(** The batch 3, 5, 5, 7 into the fresh channel of a started engine: the
    repeated id is published twice and the offset ends at 8. *)
Lemma publish_batch_witness :
  exists b' l',
    run (repeat EvSent 4) publishing = Some (b', l') /\
    update_chans b' !! 1%positive
      = Some {| buf := batch; cap := 100; closed := false |} /\
    offset l' = 8.
Proof.
  destruct (publish_batch batch 4 (fst publishing) (snd publishing) 1%positive
              {| buf := []; cap := 100; closed := false |})
    as (b' & l' & Hrun & Hbuf & Hoff & _);
    [discriminate | reflexivity | reflexivity | reflexivity | reflexivity
    | cbn; lia |].
  exists b', l'. split; [exact Hrun |]. split; [exact Hbuf |].
  rewrite Hoff. vm_compute. reflexivity.
Defined.

(** *** Witnesses for the exit of the loop *)

Lemma cancel_tears_down_witness :
  isPolling (teardown (fst publishing)) = false /\
  updatesChan (teardown (fst publishing)) = None /\
  exists st', update_chans (teardown (fst publishing)) !! 1%positive = Some st' /\
              closed st' = true.
Proof.
  destruct (cancel_tears_down (fst publishing) (set_cancelled (snd publishing)) I eq_refl)
    as (_ & Hp & Hu & Hcl).
  split; [exact Hp |]. split; [exact Hu |].
  exact (Hcl 1%positive {| buf := []; cap := 100; closed := false |} eq_refl eq_refl).
Defined.

Lemma cancelled_progress_witness :
  exists ev s', ev <> EvCancel /\ ev <> EvReceive /\
    step ev (fst publishing, set_cancelled (snd publishing)) = Some s'.
Proof.
  apply cancelled_progress; [reflexivity | discriminate].
Defined.

End PollingMore.
(** ** Signatures and the webhook service *)

Section Webhook.

Import utils webhook.

Lemma Verify_true_inv (payload : list Byte.byte) (signature secret : string) :
  VerifyWebhookSignature payload signature secret = true <->
  payload <> [] /\ TrimSpace_empty signature = false /\
  TrimSpace_empty secret = false /\ signature = expected payload secret.
Proof.
  unfold VerifyWebhookSignature.
  destruct payload as [| b p]; [split; [discriminate | tauto] |].
  cbn [length Nat.eqb orb].
  destruct (TrimSpace_empty signature);
    [split; [discriminate | intros (_ & ? & _); discriminate] |].
  destruct (TrimSpace_empty secret);
    [split; [discriminate | intros (_ & _ & ? & _); discriminate] |].
  cbn [orb]. rewrite hmac_Equal_strings. split; [| tauto].
  intros ->. repeat split. discriminate.
Qed.

Lemma Validate_None_Verify (payload : list Byte.byte) (signature secret : string) :
  ValidateWebhookSignature payload signature secret = None <->
  VerifyWebhookSignature payload signature secret = true.
Proof.
  unfold ValidateWebhookSignature.
  destruct (VerifyWebhookSignature payload signature secret) eqn:Hv.
  - apply Verify_true_inv in Hv as (Hp & -> & -> & _).
    destruct payload; [congruence |]. split; reflexivity.
  - cbn [negb]. split; [| discriminate]. repeat case_match; discriminate.
Qed.

Lemma is_hex_lower (b : N) :
  is_hex b = true <-> (48 <= b <= 57 \/ 97 <= b <= 102)%N.
Proof.
  unfold is_hex, between.
  rewrite orb_true_iff, !andb_true_iff, !N.leb_le. tauto.
Qed.

(** X20: The boolean check and the validating one accept the same requests,
    and what they accept as a signature is, byte for byte, the digest in
    hexadecimal: 64 characters, each a digit or a lower-case letter from
    a to f, with nothing before or after.  For a payload that is not
    empty and a secret that is not blank, that digest is accepted. *)
Theorem VerifyWebhookSignature_accepts (payload : list Byte.byte)
    (signature secret : string) :
  (VerifyWebhookSignature payload signature secret = true <->
   ValidateWebhookSignature payload signature secret = None) /\
  (VerifyWebhookSignature payload signature secret = true ->
   signature = expected payload secret /\
   String.length signature = 64%nat /\
   Forall (fun b => (48 <= b <= 57 \/ 97 <= b <= 102)%N)
          (bytes_of_string signature)) /\
  (payload <> [] -> TrimSpace_empty secret = false ->
   VerifyWebhookSignature payload (expected payload secret) secret = true).
Proof.
  split; [symmetry; apply Validate_None_Verify |]. split.
  - intros Hv. apply Verify_true_inv in Hv as (_ & _ & _ & ->).
    split; [reflexivity |]. split; [apply expected_length |].
    unfold expected. eapply Forall_impl; [apply EncodeToString_hex |].
    intros b Hb. now apply is_hex_lower.
  - intros Hp Hs. apply Verify_true_inv. repeat split; try assumption.
    assert (Hlen := expected_length payload secret).
    destruct (bytes_of_string (expected payload secret)) as [| b bs] eqn:Hbs.
    + rewrite <- bytes_of_string_length, Hbs in Hlen. discriminate.
    + apply (hex_not_blank _ b); [rewrite Hbs; now left |].
      pose proof (EncodeToString_hex
                    (hmac.Sum (bytes_of_string secret) (bytes_of_slice payload))) as Hh.
      fold (expected payload secret) in Hh. rewrite Hbs in Hh.
      now apply Forall_cons in Hh as [Hh _].
Qed.

Lemma VerifyWebhookSignature_accepts_witness :
  VerifyWebhookSignature [Byte.x78] (expected [Byte.x78] "s") "s" = true.
Proof.
  apply (VerifyWebhookSignature_accepts [Byte.x78] (expected [Byte.x78] "s") "s");
    [discriminate | vm_compute; reflexivity].
Defined.

(** *** Parsing *)

Lemma convertWebhookEventToUpdate_inl json event u :
  convertWebhookEventToUpdate json event = inl u ->
  UpdateID u = (if Timestamp event =? 0 then 1 else Timestamp event) /\
  UpdateID u <> 0 /\ one_payload u.
Proof.
  unfold convertWebhookEventToUpdate, one_payload. intros H.
  assert (Hid : (if Timestamp event =? 0 then 1 else Timestamp event) <> 0)
    by (destruct (Z.eqb_spec (Timestamp event) 0); lia).
  repeat case_match; simplify_eq; cbn in *; auto.
Qed.

Lemma ParseUpdate_shape (json : Unmarshal) (payload : list Byte.byte) (u : Update) :
  ParseUpdate json payload = inl u ->
  UpdateID u <> 0 /\ (to_Update json payload = inl u \/ one_payload u).
Proof.
  unfold ParseUpdate. intros H.
  destruct (length payload =? 0)%nat; [discriminate |].
  destruct (to_Update json payload) as [update | err].
  - destruct (Z.eqb_spec (UpdateID update) 0) as [Hz | Hnz]; cbn [negb] in H.
    + destruct (to_WebhookEvent json payload) as [event | err]; [| discriminate].
      destruct (convertWebhookEventToUpdate_inl _ _ _ H) as (_ & Hid & Hone). auto.
    + injection H as <-. auto.
  - destruct (to_WebhookEvent json payload) as [event | err']; [| discriminate].
    destruct (convertWebhookEventToUpdate_inl _ _ _ H) as (_ & Hid & Hone). auto.
Qed.

(** X21: An update that comes out of [ParseUpdate] never has the id 0: either
    the payload decoded as an update whose id is not 0, and that update
    is returned as it is, or it decoded as a webhook event, and then the
    id is the timestamp of the event, or 1 for the timestamp 0, and
    exactly one of the three payloads of the update is set. *)
Theorem ParseUpdate_result (json : Unmarshal) (payload : list Byte.byte)
    (u : Update) :
  ParseUpdate json payload = inl u ->
  payload <> [] /\ UpdateID u <> 0 /\
  (to_Update json payload = inl u \/
   exists event,
     to_WebhookEvent json payload = inl event /\
     convertWebhookEventToUpdate json event = inl u /\
     UpdateID u = (if Timestamp event =? 0 then 1 else Timestamp event) /\
     one_payload u).
Proof.
  unfold ParseUpdate. intros H.
  destruct payload as [| b p]; [discriminate |]. split; [discriminate |].
  cbn [length Nat.eqb] in H.
  assert (Hev : forall r,
            match to_WebhookEvent json (b :: p) with
            | inl webhookEvent => convertWebhookEventToUpdate json webhookEvent
            | inr err => inr ("failed to parse webhook payload: " +:+ err)
            end = inl r ->
            UpdateID r <> 0 /\
            exists event,
              to_WebhookEvent json (b :: p) = inl event /\
              convertWebhookEventToUpdate json event = inl r /\
              UpdateID r = (if Timestamp event =? 0 then 1 else Timestamp event) /\
              one_payload r).
  { intros r Hr. destruct (to_WebhookEvent json (b :: p)) as [event | err];
      [| discriminate].
    destruct (convertWebhookEventToUpdate_inl _ _ _ Hr) as (Hid & Hnz & Hone).
    split; [exact Hnz |]. exists event. now repeat split. }
  destruct (to_Update json (b :: p)) as [update | err] eqn:Hup.
  - destruct (Z.eqb_spec (UpdateID update) 0) as [Hz | Hnz]; cbn [negb] in H.
    + destruct (Hev u H) as (Hid & Hex). split; [exact Hid | right; exact Hex].
    + injection H as <-. split; [exact Hnz | now left].
  - destruct (Hev u H) as (Hid & Hex). split; [exact Hid | right; exact Hex].
Qed.

Lemma ParseUpdate_result_witness :
  exists u, ParseUpdate sample_json [Byte.x6d] = inl u /\ UpdateID u = 1.
Proof.
  eexists. split; [reflexivity |].
  destruct (ParseUpdate_result sample_json [Byte.x6d] _ eq_refl)
    as (_ & _ & [Hup | (event & Hev & _ & Hid & _)]).
  - discriminate Hup.
  - reflexivity.
Defined.

(** *** Processing *)

Lemma ProcessWebhook_parsed (json : Unmarshal) (s : WebhookService)
    (payload : list Byte.byte) (signature : string) (u : Update) :
  ProcessWebhook json s payload signature = inl u ->
  ParseUpdate json payload = inl u.
Proof.
  unfold ProcessWebhook. intros H.
  destruct (ValidateSignature s payload signature); [discriminate |].
  destruct (ParseUpdate json payload) as [update | err]; [| discriminate].
  now injection H as <-.
Qed.

(** X22: [ProcessWebhook] hands out an update only for a request whose
    signature is the hex digest of the payload under the secret of the
    service, which must not be blank; the update is the one [ParseUpdate]
    gives for the payload, so its id is not 0. *)
Theorem ProcessWebhook_accepts (json : Unmarshal) (s : WebhookService)
    (payload : list Byte.byte) (signature : string) (u : Update) :
  ProcessWebhook json s payload signature = inl u ->
  payload <> [] /\ TrimSpace_empty (secretToken s) = false /\
  signature = expected payload (secretToken s) /\
  ParseUpdate json payload = inl u /\ UpdateID u <> 0.
Proof.
  unfold ProcessWebhook, ValidateSignature. intros H.
  destruct (ValidateWebhookSignature payload signature (secretToken s)) eqn:Hv;
    [discriminate |].
  apply Validate_None_Verify, Verify_true_inv in Hv as (Hp & _ & Hs & Hsig).
  destruct (ParseUpdate json payload) as [update | err] eqn:Hparse; [| discriminate].
  injection H as <-. repeat split; try assumption.
  exact (proj1 (ParseUpdate_shape _ _ _ Hparse)).
Qed.

Lemma ProcessWebhook_accepts_witness :
  ParseUpdate sample_json [Byte.x75] = inl sample_update /\
  UpdateID sample_update <> 0.
Proof.
  destruct (ProcessWebhook_accepts sample_json (NewWebhookService "s") [Byte.x75]
              (expected [Byte.x75] "s") sample_update)
    as (_ & _ & _ & Hparse & Hid); [vm_compute; reflexivity |].
  split; [exact Hparse | exact Hid].
Defined.

(** X23: With a blank secret, and so with the empty secret a service is made
    with until one is set, every request is rejected, whatever its
    payload and signature, before the payload is parsed. *)
Theorem ProcessWebhook_blank_secret (json : Unmarshal) (s : WebhookService)
    (payload : list Byte.byte) (signature : string) :
  TrimSpace_empty (secretToken s) = true ->
  exists err,
    In err [ErrEmptyPayload; ErrEmptySignature; ErrEmptySecret] /\
    ProcessWebhook json s payload signature
    = inr ("webhook request rejected: signature validation failed: "
           +:+ sentinel_text err).
Proof.
  intros Hs. unfold ProcessWebhook, ValidateSignature, ValidateWebhookSignature.
  rewrite Hs.
  destruct (length payload =? 0)%nat;
    [exists ErrEmptyPayload; split; [cbn; tauto | reflexivity] |].
  destruct (TrimSpace_empty signature);
    [exists ErrEmptySignature | exists ErrEmptySecret];
    (split; [cbn; tauto | reflexivity]).
Qed.

Lemma ProcessWebhook_blank_secret_witness :
  exists err,
    In err [ErrEmptyPayload; ErrEmptySignature; ErrEmptySecret] /\
    ProcessWebhook sample_json (NewWebhookService "") [Byte.x75]
      (expected [Byte.x75] "")
    = inr ("webhook request rejected: signature validation failed: "
           +:+ sentinel_text err).
Proof.
  apply (ProcessWebhook_blank_secret sample_json (NewWebhookService "")).
  reflexivity.
Defined.

(** X24: The event [HandleWebhookEvent] reports is the first payload set in
    the update, in the order message, postback, user action, and the
    data returned is that payload; it reports "unknown", with the update
    as data, only for a payload that decoded as an update (never for a
    webhook event) and carries none of the three. *)
Theorem HandleWebhookEvent_kinds (json : Unmarshal) (s : WebhookService)
    (payload : list Byte.byte) (signature : string) (kind : string)
    (data : event_data) :
  HandleWebhookEvent json s payload signature = inl (kind, data) ->
  exists u,
    ProcessWebhook json s payload signature = inl u /\
    match data with
    | OfMessage m => kind = "message"%string /\ UpdateMessage u = Some m
    | OfPostback p =>
        kind = "postback"%string /\ UpdateMessage u = None /\
        UpdatePostback u = Some p
    | OfUserAction a =>
        kind = "user_action"%string /\ UpdateMessage u = None /\
        UpdatePostback u = None /\ UpdateUserAction u = Some a
    | OfUpdate u' =>
        kind = "unknown"%string /\ u' = u /\ to_Update json payload = inl u /\
        UpdateMessage u = None /\ UpdatePostback u = None /\
        UpdateUserAction u = None
    end.
Proof.
  unfold HandleWebhookEvent. intros H.
  destruct (ProcessWebhook json s payload signature) as [u | err] eqn:Hproc;
    [| discriminate].
  exists u. split; [reflexivity |].
  destruct (UpdateMessage u) as [m |] eqn:Hm; [now injection H as <- <- |].
  destruct (UpdatePostback u) as [p |] eqn:Hpb; [now injection H as <- <- |].
  destruct (UpdateUserAction u) as [a |] eqn:Ha; [now injection H as <- <- |].
  injection H as <- <-. repeat split; try assumption.
  pose proof (ProcessWebhook_parsed _ _ _ _ _ Hproc) as Hparse.
  destruct (ParseUpdate_shape _ _ _ Hparse) as (_ & [Hup | Hone]); [exact Hup |].
  unfold one_payload in Hone. now rewrite Hm, Hpb, Ha in Hone.
Qed.

Lemma HandleWebhookEvent_kinds_witness :
  exists u,
    ProcessWebhook sample_json (NewWebhookService "s") [Byte.x6d]
      (expected [Byte.x6d] "s") = inl u /\
    UpdateMessage u
    = Some {| MessageID := "m1"; From := Some {| ID := "u1" |}; Text := "hi";
              Attachments := [] |}.
Proof.
  destruct (HandleWebhookEvent_kinds sample_json (NewWebhookService "s") [Byte.x6d]
              (expected [Byte.x6d] "s") "message"
              (OfMessage {| MessageID := "m1"; From := Some {| ID := "u1" |};
                            Text := "hi"; Attachments := [] |}))
    as (u & Hu & _ & Hm); [vm_compute; reflexivity |].
  exists u. split; [exact Hu | exact Hm].
Defined.

End Webhook.
(** ** Runes, tokens and message content *)

Section Runes.

Import utils runes.

Local Open Scope N_scope.

Ltac bool_props :=
  unfold between in *;
  repeat match goal with
    | H : _ && _ = true |- _ => apply andb_true_iff in H; destruct H
    | H : (_ <=? _) = true |- _ => apply N.leb_le in H
    | H : (_ <? _) = true |- _ => apply N.ltb_lt in H
    | H : (_ =? _) = true |- _ => apply N.eqb_eq in H
    end.

Lemma forall_range_N (P : N -> bool) (lo : N) (n : nat) :
  forallb P (map (fun k => lo + N.of_nat k) (seq 0 n)) = true ->
  forall b, lo <= b < lo + N.of_nat n -> P b = true.
Proof.
  intros Hall b Hb. rewrite forallb_forall in Hall. apply Hall.
  apply in_map_iff. exists (N.to_nat (b - lo)). split; [lia |].
  apply in_seq. lia.
Qed.

Lemma lor_ge_pow2 (k a b : N) : 2 ^ k <= a -> 2 ^ k <= N.lor a b.
Proof.
  intros Ha.
  assert (Hpos : 0 < a) by (pose proof (N.pow_nonzero 2 k ltac:(lia)); lia).
  assert (Hlor : 0 < N.lor a b).
  { destruct (N.eq_dec (N.lor a b) 0) as [E | E]; [| lia].
    apply N.lor_eq_0_iff in E. lia. }
  apply N.log2_le_pow2; [exact Hlor |].
  rewrite N.log2_lor. apply N.log2_le_pow2 in Ha; [| exact Hpos]. lia.
Qed.

Lemma DecodeRune_ascii (b0 : N) (rest : list N) :
  b0 < 0x80 -> DecodeRune (b0 :: rest) = (b0, 1%nat).
Proof.
  intros Hb. unfold DecodeRune. now destruct (N.ltb_spec b0 0x80); [| lia].
Qed.

Lemma RuneError_high : 0x80 <= RuneError.
Proof. unfold RuneError. lia. Qed.

(** A byte from [0x80] on starts a rune from [0x80] on. *)
Lemma DecodeRune_high (b0 : N) (rest : list N) (r : N) (size : nat) :
  0x80 <= b0 -> DecodeRune (b0 :: rest) = (r, size) -> 0x80 <= r.
Proof.
  intros Hb Hd. unfold DecodeRune in Hd.
  destruct (N.ltb_spec b0 0x80); [lia |].
  pose proof RuneError_high as He.
  destruct (between 0xC2 0xDF b0) eqn:H2.
  { destruct rest as [| b1 rest']; [now injection Hd as <- _ |].
    destruct (between 0x80 0xBF b1); [| now injection Hd as <- _].
    injection Hd as <- _. bool_props.
    apply (lor_ge_pow2 7). rewrite N.shiftl_mul_pow2.
    assert (2 <= N.land b0 0x1F).
    { apply N.leb_le.
      apply (forall_range_N (fun b => 2 <=? N.land b 0x1F) 0xC2 30);
        [vm_compute; reflexivity | lia]. }
    change (2 ^ 7) with 128. change (2 ^ 6) with 64. lia. }
  destruct (between 0xE0 0xEF b0) eqn:H3.
  { destruct rest as [| b1 [| b2 rest']]; try (now injection Hd as <- _).
    cbv zeta in Hd.
    destruct (between _ _ b1 && between 0x80 0xBF b2) eqn:Hc;
      [| now injection Hd as <- _].
    injection Hd as <- _. apply andb_true_iff in Hc as [Hb1 _].
    destruct (N.eqb_spec b0 0xE0) as [-> | Hne].
    - rewrite N.lor_comm, <- N.lor_assoc. apply (lor_ge_pow2 7).
      rewrite N.shiftl_mul_pow2.
      change (0xE0 =? 0xED) with false in Hb1. cbv iota in Hb1. bool_props.
      assert (32 <= N.land b1 0x3F).
      { apply N.leb_le.
        apply (forall_range_N (fun b => 32 <=? N.land b 0x3F) 0xA0 32);
          [vm_compute; reflexivity | lia]. }
      change (2 ^ 7) with 128. change (2 ^ 6) with 64. lia.
    - apply (lor_ge_pow2 7). rewrite N.shiftl_mul_pow2. bool_props.
      assert (1 <= N.land b0 0x0F).
      { apply N.leb_le.
        apply (forall_range_N (fun b => 1 <=? N.land b 0x0F) 0xE1 15);
          [vm_compute; reflexivity | lia]. }
      change (2 ^ 7) with 128. change (2 ^ 12) with 4096. lia. }
  destruct (between 0xF0 0xF4 b0) eqn:H4; [| now injection Hd as <- _].
  destruct rest as [| b1 [| b2 [| b3 rest']]]; try (now injection Hd as <- _).
  cbv zeta in Hd.
  destruct (between _ _ b1 && between 0x80 0xBF b2 && between 0x80 0xBF b3) eqn:Hc;
    [| now injection Hd as <- _].
  injection Hd as <- _. apply andb_true_iff in Hc as [Hc _].
  apply andb_true_iff in Hc as [Hb1 _].
  destruct (N.eqb_spec b0 0xF0) as [-> | Hne].
  - rewrite N.lor_comm, <- N.lor_assoc. apply (lor_ge_pow2 7).
    rewrite N.shiftl_mul_pow2.
    change (0xF0 =? 0xF4) with false in Hb1. cbv iota in Hb1. bool_props.
    assert (16 <= N.land b1 0x3F).
    { apply N.leb_le.
      apply (forall_range_N (fun b => 16 <=? N.land b 0x3F) 0x90 48);
        [vm_compute; reflexivity | lia]. }
    change (2 ^ 7) with 128. change (2 ^ 12) with 4096. lia.
  - apply (lor_ge_pow2 7). rewrite N.shiftl_mul_pow2. bool_props.
    assert (1 <= N.land b0 0x07).
    { apply N.leb_le.
      apply (forall_range_N (fun b => 1 <=? N.land b 0x07) 0xF1 4);
        [vm_compute; reflexivity | lia]. }
    change (2 ^ 7) with 128. change (2 ^ 18) with 262144. lia.
Qed.

(** A rune below [0x80] is the byte it was decoded from. *)
Lemma DecodeRune_low (bs : list N) (r : N) (size : nat) :
  bs <> [] -> DecodeRune bs = (r, size) -> r < 0x80 ->
  exists rest, bs = r :: rest /\ size = 1%nat.
Proof.
  intros Hne Hd Hr. destruct bs as [| b0 rest]; [congruence |].
  destruct (N.ltb_spec b0 0x80) as [Hlt | Hge].
  - rewrite DecodeRune_ascii in Hd by exact Hlt. injection Hd as <- <-. eauto.
  - pose proof (DecodeRune_high _ _ _ _ Hge Hd). lia.
Qed.

Lemma DecodeRune_size (bs : list N) :
  bs <> [] -> (1 <= snd (DecodeRune bs) <= 4)%nat.
Proof.
  intros Hne. destruct bs as [| b0 rest]; [congruence |].
  unfold DecodeRune. repeat case_match; cbn [snd]; lia.
Qed.

Lemma range_ascii (pre : list N) : forall fuel rest i,
  Forall (fun b => b < 0x80) pre ->
  (length pre <= fuel)%nat ->
  range fuel (pre ++ rest) i
  = combine (seq i (length pre)) pre
    ++ range (fuel - length pre) rest (i + length pre).
Proof.
  induction pre as [| b pre IH]; intros fuel rest i Hpre Hfuel.
  - cbn [app length seq combine]. now rewrite Nat.sub_0_r, Nat.add_0_r.
  - apply Forall_cons in Hpre as [Hb Hpre]. cbn [length] in Hfuel.
    destruct fuel as [| fuel]; [lia |].
    change ((b :: pre) ++ rest) with (b :: (pre ++ rest)). cbn [range].
    rewrite DecodeRune_ascii by exact Hb. cbn [length seq combine app].
    change (drop 1 (b :: pre ++ rest)) with (pre ++ rest).
    rewrite IH by (assumption || lia).
    replace (i + 1)%nat with (S i) by lia.
    replace (S i + length pre)%nat with (i + S (length pre))%nat by lia.
    reflexivity.
Qed.

Lemma range_nil fuel i : range fuel [] i = [].
Proof. now destruct fuel. Qed.

Lemma range_lengths (fuel : nat) : forall bs i,
  (length bs <= fuel)%nat ->
  (length (range fuel bs i) <= length bs <= 4 * length (range fuel bs i))%nat.
Proof.
  induction fuel as [| fuel IH]; intros bs i Hfuel.
  - destruct bs; cbn in *; lia.
  - destruct bs as [| b bs']; [cbn; lia |]. cbn [range].
    pose proof (DecodeRune_size (b :: bs') ltac:(discriminate)) as Hsize.
    destruct (DecodeRune (b :: bs')) as [r size]. cbn [snd] in Hsize.
    cbn [length] in *.
    specialize (IH (drop size (b :: bs')) (i + size)%nat).
    rewrite length_drop in IH. cbn [length] in IH. lia.
Qed.

Lemma Valid_ascii (bs : list N) : forall fuel,
  Forall (fun b => b < 0x80) bs -> (length bs <= fuel)%nat -> Valid fuel bs = true.
Proof.
  induction bs as [| b bs IH]; intros fuel Hbs Hfuel; [now destruct fuel |].
  apply Forall_cons in Hbs as [Hb Hbs]. cbn [length] in Hfuel.
  destruct fuel as [| fuel]; [lia |]. cbn [Valid]. unfold valid_head.
  rewrite DecodeRune_ascii by exact Hb. cbn [snd].
  change (drop 1 (b :: bs)) with bs.
  rewrite IH by (assumption || lia).
  destruct (N.eqb_spec b RuneError) as [-> | _]; [unfold RuneError in Hb; lia |].
  reflexivity.
Qed.

End Runes.

(** *** The format of a bot token *)

Section Token.

Import utils runes types config.

Local Open Scope N_scope.

Lemma find_colon_spec (fuel : nat) : forall bs i k r,
  List.find (fun ir : nat * N => snd ir =? 58) (range fuel bs i) = Some (k, r) ->
  exists j, k = (i + j)%nat /\ bs !! j = Some 58.
Proof.
  induction fuel as [| fuel IH]; intros bs i k r H.
  - destruct bs; discriminate.
  - destruct bs as [| b bs']; [discriminate |]. cbn [range] in H.
    destruct (DecodeRune (b :: bs')) as [r0 size] eqn:Hd. cbn [List.find snd] in H.
    destruct (N.eqb_spec r0 58) as [-> | Hne].
    + injection H as <- <-.
      destruct (DecodeRune_low (b :: bs') 58 size ltac:(discriminate) Hd ltac:(lia))
        as (rest & [= -> ->] & _).
      exists 0%nat. split; [lia | reflexivity].
    + destruct (IH _ _ _ _ H) as (j & -> & Hj). rewrite lookup_drop in Hj.
      exists (size + j)%nat. split; [lia | exact Hj].
Qed.

Lemma find_skip_digits (p : nat * N -> bool) (pre : list N) : forall i l,
  Forall (fun b => p (0%nat, b) = false) pre ->
  (forall i j b, p (i, b) = p (j, b)) ->
  List.find p (combine (seq i (length pre)) pre ++ l) = List.find p l.
Proof.
  induction pre as [| b pre IH]; intros i l Hpre Hp; [reflexivity |].
  apply Forall_cons in Hpre as [Hb Hpre]. cbn [length seq combine app List.find].
  rewrite (Hp i 0%nat b), Hb. now apply IH.
Qed.

Lemma numeric_sound (fuel : nat) : forall bs i,
  (length bs <= fuel)%nat ->
  forallb (fun ir : nat * N => negb ((snd ir <? 48) || (57 <? snd ir)))
          (range fuel bs i) = true ->
  Forall (fun b => 48 <= b <= 57) bs.
Proof.
  induction fuel as [| fuel IH]; intros bs i Hfuel H.
  - destruct bs; [constructor | cbn in Hfuel; lia].
  - destruct bs as [| b bs']; [constructor |]. cbn [range] in H.
    destruct (DecodeRune (b :: bs')) as [r0 size] eqn:Hd.
    cbn [forallb snd] in H. apply andb_true_iff in H as [Hr H].
    apply negb_true_iff, orb_false_iff in Hr as [Hlo Hhi].
    apply N.ltb_ge in Hlo, Hhi.
    destruct (DecodeRune_low (b :: bs') r0 size ltac:(discriminate) Hd ltac:(lia))
      as (rest & [= -> ->] & ->).
    change (drop 1 (r0 :: rest)) with rest in H. constructor.
    + lia.
    + apply (IH rest (i + 1)%nat); [cbn [length] in Hfuel; lia | exact H].
Qed.

Lemma numeric_complete (part : list N) :
  Forall (fun b => 48 <= b <= 57) part -> numeric part = true.
Proof.
  intros Hd. unfold numeric, range_string.
  rewrite <- (app_nil_r part) at 2.
  rewrite range_ascii;
    [| eapply Forall_impl; [exact Hd | intros; cbn beta in *; lia] | lia].
  rewrite range_nil, app_nil_r. generalize 0%nat.
  induction Hd as [| b part Hb _ IH]; intros i; [reflexivity |].
  cbn [length seq combine forallb snd]. rewrite IH, andb_true_r.
  destruct (N.ltb_spec b 48); [lia |]. destruct (N.ltb_spec 57 b); [lia |].
  reflexivity.
Qed.

(** X25: A bot token has the accepted format exactly when its bytes are a
    bot id of one or more decimal digits, a colon, and ten or more
    further bytes, which may be anything (also colons, spaces, or bytes
    that are not UTF-8). *)
Theorem isValidBotTokenFormat_iff (token : string) :
  isValidBotTokenFormat token = true <->
  exists id rest : list N,
    bytes_of_string token = id ++ 58 :: rest /\
    id <> [] /\ Forall (fun b => 48 <= b <= 57) id /\ (10 <= length rest)%nat.
Proof.
  unfold isValidBotTokenFormat. set (bs := bytes_of_string token). split.
  - destruct (Z.ltb_spec (Z.of_nat (length bs)) 10); [discriminate |].
    destruct (Z.leb_spec (colonIndex bs) 0); [discriminate |].
    destruct (Z.leb_spec (Z.of_nat (length bs) - 1) (colonIndex bs)); [discriminate |].
    cbn [orb]. destruct (numeric _) eqn:Hnum; [| discriminate]. cbn [negb].
    destruct (Z.ltb_spec (Z.of_nat (length (drop (Z.to_nat (colonIndex bs + 1)) bs))) 10);
      [discriminate |].
    intros _. unfold colonIndex in *.
    destruct (List.find _ (range_string bs)) as [[k r] |] eqn:Hfind; [| lia].
    destruct (find_colon_spec _ _ _ _ _ Hfind) as (j & -> & Hj). cbn [Nat.add] in *.
    rewrite Nat2Z.id in Hnum.
    replace (Z.to_nat (Z.of_nat j + 1)) with (S j) in * by lia.
    exists (take j bs), (drop (S j) bs). split; [| split; [| split]].
    + symmetry. now apply take_drop_middle.
    + intros E. apply (f_equal length) in E. rewrite length_take in E.
      cbn [length] in E. lia.
    + apply (numeric_sound (length (take j bs)) _ 0%nat); [lia | exact Hnum].
    + lia.
  - intros (id & rest & Hbs & Hne & Hid & Hrest). rewrite Hbs.
    assert (Hlen : length (id ++ 58 :: rest) = (length id + S (length rest))%nat)
      by (rewrite length_app; reflexivity).
    assert (Hpos : (0 < length id)%nat) by (destruct id; [congruence | cbn; lia]).
    assert (Hcolon : colonIndex (id ++ 58 :: rest) = Z.of_nat (length id)).
    { unfold colonIndex, range_string. rewrite range_ascii;
        [| eapply Forall_impl; [exact Hid | intros; cbn beta in *; lia] | lia].
      rewrite find_skip_digits.
      - rewrite Hlen.
        replace (length id + S (length rest) - length id)%nat
          with (S (length rest)) by lia.
        cbn [range]. rewrite DecodeRune_ascii by lia. reflexivity.
      - eapply Forall_impl; [exact Hid |]. intros b Hb. cbn [snd] in *.
        apply N.eqb_neq. lia.
      - reflexivity. }
    rewrite Hcolon, Hlen.
    destruct (Z.ltb_spec (Z.of_nat (length id + S (length rest))) 10); [lia |].
    destruct (Z.leb_spec (Z.of_nat (length id)) 0); [lia |].
    destruct (Z.leb_spec (Z.of_nat (length id + S (length rest)) - 1)
                         (Z.of_nat (length id))); [lia |].
    cbn [orb]. rewrite Nat2Z.id, take_app_length.
    rewrite numeric_complete by exact Hid. cbn [negb].
    replace (Z.to_nat (Z.of_nat (length id) + 1)) with (length id + 1)%nat by lia.
    rewrite <- drop_drop, drop_app_length. change (drop 1 (58 :: rest)) with rest.
    destruct (Z.ltb_spec (Z.of_nat (length rest)) 10); [lia | reflexivity].
Qed.

Lemma isValidBotTokenFormat_iff_witness :
  isValidBotTokenFormat "123456:ABC-DEF1234ghIkl-zyx57W2v1u123ew11" = true.
Proof.
  apply isValidBotTokenFormat_iff.
  exists (bytes_of_string "123456"),
         (bytes_of_string "ABC-DEF1234ghIkl-zyx57W2v1u123ew11").
  split; [reflexivity |]. split; [discriminate |].
  split; [repeat constructor; vm_compute; discriminate | vm_compute; lia].
Defined.

End Token.

(** *** [Config.Validate] *)

Section ConfigValidate.

Import types config.

(** X26: [Validate] accepts a configuration exactly when the token has the
    accepted format and the environment is empty, "development" or
    "production".  What it leaves then has a base URL, a timeout and a
    retry count that are not zero (a zero of each is replaced by its
    default, so no retries cannot be configured this way), a valid
    environment, an HTTP client and a retry configuration; what was set
    is kept; and validating the result again changes nothing. *)
Theorem Config_Validate_defaults (c : Config) :
  let c' := fst (Validate c) in
  (snd (Validate c) = None <->
   isValidBotTokenFormat (BotToken c) = true /\
   (Environment c = ""%string \/ Environment c = Development \/
    Environment c = Production)) /\
  (snd (Validate c) = None ->
   BotToken c' = BotToken c /\ Debug c' = Debug c /\
   BaseURL c' <> ""%string /\ Timeout c' <> 0%Z /\ Retries c' <> 0%Z /\
   IsValid (Environment c') = true /\
   is_Some (HTTPClient_ c') /\ is_Some (RetryConfig_ c') /\
   (BaseURL c <> ""%string -> BaseURL c' = BaseURL c) /\
   (Timeout c <> 0%Z -> Timeout c' = Timeout c) /\
   (Retries c <> 0%Z -> Retries c' = Retries c) /\
   (Environment c <> ""%string -> Environment c' = Environment c) /\
   (forall client, HTTPClient_ c = Some client -> HTTPClient_ c' = Some client) /\
   (HTTPClient_ c = None ->
    HTTPClient_ c' = Some {| ClientTimeout := Timeout c' |}) /\
   (forall rc, RetryConfig_ c = Some rc -> RetryConfig_ c' = Some rc) /\
   (RetryConfig_ c = None -> RetryConfig_ c' = Some DefaultRetryConfig) /\
   Validate c' = (c', None)).
Proof.
  cbv zeta. unfold Validate.
  assert (Hempty : isValidBotTokenFormat "" = false) by reflexivity.
  destruct (String.eqb_spec (BotToken c) "") as [E | Htok].
  { rewrite E, Hempty. cbn [fst snd].
    split; [split; [discriminate | intros [? _]; discriminate] | discriminate]. }
  destruct (isValidBotTokenFormat (BotToken c)) eqn:Hfmt; cbn [negb];
    [| cbn [fst snd];
       split; [split; [discriminate | intros [? _]; discriminate] | discriminate]].
  assert (Henv : IsValid (if String.eqb (Environment c) "" then Production
                          else Environment c) = true <->
                 Environment c = ""%string \/ Environment c = Development \/
                 Environment c = Production).
  { unfold IsValid. destruct (String.eqb_spec (Environment c) "") as [-> | Hne].
    - cbn. tauto.
    - rewrite orb_true_iff, !String.eqb_eq. tauto. }
  destruct (IsValid (if String.eqb (Environment c) "" then Production
                     else Environment c)) eqn:Hvalid; cbn [negb fst snd].
  - split; [split; [intros _; split; [reflexivity | now apply Henv] | reflexivity] |].
    intros _.
    cbn [BotToken BaseURL Debug Timeout Retries Environment HTTPClient_ RetryConfig_].
    assert (Hb : (if String.eqb (BaseURL c) "" then "https://bot-api.zapps.me"%string
                  else BaseURL c) <> ""%string)
      by (destruct (String.eqb_spec (BaseURL c) ""); [discriminate | assumption]).
    assert (Ht : (if Timeout c =? 0 then 30 * time_Second else Timeout c) <> 0%Z)
      by (destruct (Z.eqb_spec (Timeout c) 0); [discriminate | assumption]).
    assert (Hr : (if Retries c =? 0 then 3 else Retries c) <> 0%Z)
      by (destruct (Z.eqb_spec (Retries c) 0); [discriminate | assumption]).
    assert (He : (if String.eqb (Environment c) "" then Production
                  else Environment c) <> ""%string)
      by (destruct (String.eqb_spec (Environment c) ""); [discriminate | assumption]).
    repeat split; try assumption.
    + destruct (HTTPClient_ c); eauto.
    + destruct (RetryConfig_ c); eauto.
    + intros H. now destruct (String.eqb_spec (BaseURL c) "").
    + intros H. now destruct (Z.eqb_spec (Timeout c) 0).
    + intros H. now destruct (Z.eqb_spec (Retries c) 0).
    + intros H. now destruct (String.eqb_spec (Environment c) "").
    + now intros client ->.
    + now intros ->.
    + now intros rc ->.
    + now intros ->.
    + destruct (String.eqb_spec (BotToken c) ""); [contradiction |].
      rewrite Hfmt. cbn [negb].
      apply String.eqb_neq in Hb, He. apply Z.eqb_neq in Ht, Hr.
      rewrite Hb, He, Ht, Hr, Hvalid. cbn [negb].
      destruct (HTTPClient_ c), (RetryConfig_ c); reflexivity.
  - split; [| discriminate]. split; [discriminate |].
    intros [_ H]. apply Henv in H. discriminate.
Qed.

Lemma Config_Validate_defaults_witness :
  let c' := fst (Validate (New_config "123456:ABC-DEF1234ghIkl-zyx57W2v1u123ew11")) in
  Retries c' = 3%Z /\ RetryConfig_ c' = Some DefaultRetryConfig /\
  Validate c' = (c', None).
Proof.
  cbv zeta.
  destruct (Config_Validate_defaults
              (New_config "123456:ABC-DEF1234ghIkl-zyx57W2v1u123ew11")) as [_ H].
  destruct (H ltac:(vm_compute; reflexivity))
    as (_ & _ & _ & _ & _ & _ & _ & _ & _ & _ & Hr & _ & _ & _ & _ & Hrc & Hidem).
  split; [apply Hr; discriminate |]. split; [apply Hrc; reflexivity | exact Hidem].
Defined.

End ConfigValidate.

(** *** Message content *)

Section Content.

Import utils runes content.

(** X27: Content is counted in runes, not bytes: what is accepted has from 1
    to 20000 bytes; content of 7-bit characters only is accepted exactly
    when it has from 1 to 5000 of them; and the count reported for
    content that is too long is never above the number of bytes. *)
Theorem ValidateMessageContent_bounds (content : string) :
  let n := Z.of_nat (String.length content) in
  (ValidateMessageContent content = None -> 1 <= n <= 4 * MaxMessageLength) /\
  (Forall (fun b => (b < 0x80)%N) (bytes_of_string content) ->
   (ValidateMessageContent content = None <-> 1 <= n <= MaxMessageLength)) /\
  (forall k, ValidateMessageContent content = Some (ErrMessageTooLong k) ->
     MaxMessageLength < k <= n).
Proof.
  cbv zeta. unfold ValidateMessageContent, MaxMessageLength.
  rewrite <- bytes_of_string_length.
  pose proof (range_lengths (length (bytes_of_string content))
                (bytes_of_string content) 0 (Nat.le_refl _)) as Hcount.
  fold (range_string (bytes_of_string content)) in Hcount.
  fold (RuneCount (bytes_of_string content)) in Hcount.
  destruct (String.eqb_spec content "") as [-> | Hne].
  { cbn. repeat split; try discriminate; lia. }
  assert (Hpos : (1 <= length (bytes_of_string content))%nat).
  { rewrite bytes_of_string_length. destruct content; [congruence | cbn; lia]. }
  split; [| split].
  - destruct (ValidString _); cbn [negb]; [| discriminate].
    destruct (Z.ltb_spec 5000 (Z.of_nat (RuneCount (bytes_of_string content))));
      [discriminate | lia].
  - intros Hascii. unfold ValidString.
    rewrite Valid_ascii by (assumption || lia). cbn [negb].
    assert (Hc : RuneCount (bytes_of_string content)
                 = length (bytes_of_string content)).
    { unfold RuneCount, range_string.
      rewrite <- (app_nil_r (bytes_of_string content)) at 2.
      rewrite range_ascii by (assumption || lia).
      rewrite range_nil, app_nil_r, length_combine, length_seq. lia. }
    rewrite Hc.
    destruct (Z.ltb_spec 5000 (Z.of_nat (length (bytes_of_string content))));
      split; intros; try discriminate; try reflexivity; lia.
  - intros k. destruct (ValidString _); cbn [negb]; [| discriminate].
    destruct (Z.ltb_spec 5000 (Z.of_nat (RuneCount (bytes_of_string content))));
      [| discriminate].
    intros [= <-]. lia.
Qed.

Lemma ValidateMessageContent_bounds_witness :
  ValidateMessageContent "xin chao" = None.
Proof.
  apply (ValidateMessageContent_bounds "xin chao");
    [repeat constructor | vm_compute; split; discriminate].
Defined.

End Content.
(** ** Fetching updates *)

Section Updates.

Import types zalobot updates.

Lemma append_empty_r (s : string) : s +:+ "" = s.
Proof.
  induction s as [| c s IH]; [reflexivity |].
  change (String c (s +:+ "") = String c s). now rewrite IH.
Qed.

(** X28: A fetch always asks for a limit from 1 to 100; it names the offset
    only when that is positive (an offset of 0 or below is never sent) and
    the timeout only when that is positive, so the URL always carries a
    query, with the keys in the order limit, offset, timeout. *)
Theorem request_url_shape (endpoint : string) (config : UpdateConfig) :
  let c := fst (Validate config) in
  1 <= Limit c <= 100 /\
  request_url endpoint c
  = endpoint +:+ "?limit=" +:+ pretty (Limit c)
    +:+ (if 0 <? Offset config then "&offset=" +:+ pretty (Offset config) else "")
    +:+ (if 0 <? Timeout config then "&timeout=" +:+ pretty (Timeout config) else "").
Proof.
  cbv zeta. destruct (Validate_fields config) as (Hl & Ht & Ho).
  split; [exact Hl |]. unfold request_url, params. rewrite Ho.
  assert ((0 <? Limit (fst (Validate config))) = true) as ->
    by (apply Z.ltb_lt; lia).
  assert (Htpos : (0 <? Timeout (fst (Validate config))) = (0 <? Timeout config)).
  { rewrite Ht. destruct (Z.ltb_spec 0 (Timeout config));
      [apply Z.ltb_lt | apply Z.ltb_ge]; lia. }
  assert (Htval : 0 < Timeout config ->
                  Timeout (fst (Validate config)) = Timeout config) by lia.
  rewrite Htpos.
  destruct (Z.ltb_spec 0 (Offset config)); destruct (Z.ltb_spec 0 (Timeout config));
    rewrite ?Htval by lia; cbn; rewrite ?append_empty_r; reflexivity.
Qed.

(** X29: A fetch returns updates exactly when the body decodes as an envelope
    with [ok] set, and then it returns the envelope's result; the HTTP
    status is not consulted.  Its errors are network errors and API
    errors only: a 429 or a 401 from the server never comes back as a
    rate-limit or authentication error, as it does from the request
    executor. *)
Theorem GetUpdatesWithContext_result (endpoint : string)
    (client : string -> Exchange) (config : UpdateConfig) :
  let fetch := GetUpdatesWithContext endpoint client config in
  let url := request_url endpoint (fst (Validate config)) in
  (forall updates,
     fetch = inl updates <->
     exists resp apiResp,
       client url = Response resp /\ Unmarshal resp = Decoded apiResp /\
       OK apiResp = true /\ updates = Result apiResp) /\
  (forall err,
     fetch = inr err ->
     exists e, err = ZaloErr e /\
               (Type_ e = ErrorTypeNetwork \/ Type_ e = ErrorTypeAPI)).
Proof.
  cbv zeta. set (url := request_url endpoint (fst (Validate config))).
  assert (Hfetch : GetUpdatesWithContext endpoint client config
    = match client url with
      | NewRequestError => inr (ZaloErr (NewNetworkError "failed to create request"))
      | ClientDoError => inr (ZaloErr (NewNetworkError "request failed"))
      | ReadBodyError => inr (ZaloErr (NewNetworkError "failed to read response"))
      | Response resp =>
          match Unmarshal resp with
          | DecodeError text =>
              inr (ZaloErr (NewAPIError (StatusCode resp) "failed to parse response"
                              text))
          | Decoded apiResp =>
              if negb (OK apiResp)
              then inr (ZaloErr (NewAPIError (ErrorCode apiResp) (Description apiResp)
                                   "getUpdates failed"))
              else inl (Result apiResp)
          end
      end) by reflexivity.
  rewrite Hfetch. clearbody url. clear Hfetch.
  split.
  - intros updates. split.
    + destruct (client url) as [| | | resp] eqn:Hc; try discriminate.
      destruct (Unmarshal resp) as [apiResp | text] eqn:Hu; [| discriminate].
      destruct (OK apiResp) eqn:Hok; cbn [negb]; [| discriminate].
      intros [= <-]. exists resp, apiResp. now repeat split.
    + intros (resp & apiResp & -> & Hu & Hok & ->). now rewrite Hu, Hok.
  - intros err H.
    destruct (client url) as [| | | resp]; try (injection H as <-; eauto).
    destruct (Unmarshal resp) as [apiResp | text]; [| injection H as <-; eauto].
    destruct (OK apiResp); cbn [negb] in H; [discriminate |].
    injection H as <-. eauto.
Qed.

Lemma GetUpdatesWithContext_result_witness :
  exists e,
    GetUpdatesWithContext "https://bot-api.zapps.me/bot1:x/getUpdates" always_429
      poll_config = inr (ZaloErr e) /\
    (Type_ e = ErrorTypeNetwork \/ Type_ e = ErrorTypeAPI).
Proof.
  destruct (GetUpdatesWithContext_result "https://bot-api.zapps.me/bot1:x/getUpdates"
              always_429 poll_config) as [_ H].
  destruct (H _ eq_refl) as (e & He & Ht).
  exists e. split; [rewrite <- He; reflexivity | exact Ht].
Defined.

End Updates.
